(** * acme.js: a shallow embedding of [lib/acme.js] and its checked properties

    The development follows the source file top-down: the PEM helpers,
    the encoders, the nonce cache, the JWS request layer, account
    registration, challenge derivation, the challenge and order drivers.
    JavaScript strings are [string]s whose characters are code units below
    256; promises are run to completion one after the other, a settled
    promise being a value of [Settled]. *)

From Stdlib Require Import ZArith Ascii String Lia.
From Stdlib.Strings Require Import Byte.
From stdpp Require Import base list strings gmap.

Local Open Scope Z_scope.

(** ** Characters and strings of the JavaScript source *)

Module Js.

Definition chr (n : N) : ascii := ascii_of_N n.
Definition code (c : ascii) : N := N_of_ascii c.

Definition LF : ascii := chr 10.
Definition CR : ascii := chr 13.
Definition DASH : ascii := chr 45.

Definition ceq (a b : ascii) : bool := Ascii.eqb a b.

(** The class [[\r\n]] of the two regular expressions of the PEM helpers. *)
Definition is_eol (c : ascii) : bool := ceq c CR || ceq c LF.

(** WhiteSpace and LineTerminator code units below 256, the characters
    [String.prototype.trim] strips: TAB, LF, VT, FF, CR, SP and NBSP. *)
Definition is_space (c : ascii) : bool :=
  let n := code c in
  ((9 <=? n)%N && (n <=? 13)%N) || (n =? 32)%N || (n =? 160)%N.

Fixpoint trimStart (s : list ascii) : list ascii :=
  match s with
  | c :: r => if is_space c then trimStart r else s
  | [] => []
  end.

Definition trimEnd (s : list ascii) : list ascii := rev (trimStart (rev s)).

(** [str.trim()] *)
Definition trim (s : list ascii) : list ascii := trimEnd (trimStart s).

Definition chars (s : string) : list ascii := list_ascii_of_string s.
Definition str (l : list ascii) : string := string_of_list_ascii l.

(** [parts.join(sep)] *)
Fixpoint join (sep : string) (parts : list string) : string :=
  match parts with
  | [] => ""
  | [p] => p
  | p :: rest => p +:+ sep +:+ join sep rest
  end.

End Js.

(** ** [ACME.formatPemChain] and [ACME.splitPemChain] *)

Module Pem.
Import Js.

(** [s.replace(/[\r\n]+/g, '\n')]: every maximal run of line breaks
    becomes one LF.  [inrun] tells that the previous character belonged
    to the run being replaced. *)
Fixpoint collapse_eol (inrun : bool) (s : list ascii) : list ascii :=
  match s with
  | [] => []
  | c :: r =>
      if is_eol c
      then (if inrun then collapse_eol true r else LF :: collapse_eol true r)
      else c :: collapse_eol false r
  end.

(** [s.replace(/\-\n\-/g, '-\n\n-')]: matches are found left to right and
    do not overlap, the scan resumes after the three matched characters. *)
Fixpoint dash_gap (s : list ascii) : list ascii :=
  match s with
  | [] => []
  | a :: r =>
      match r with
      | b :: c :: r' =>
          if ceq a DASH && ceq b LF && ceq c DASH
          then DASH :: LF :: LF :: DASH :: dash_gap r'
          else a :: dash_gap r
      | _ => a :: dash_gap r
      end
  end.

(** [s.split(/[\r\n]{2,}/g)]: the separators are the maximal runs of at
    least two line breaks.  [cur] is the piece being read, [insep] tells
    that the scan is inside a separator. *)
Fixpoint split_gaps (insep : bool) (cur s : list ascii) : list (list ascii) :=
  match s with
  | [] => [cur]
  | c :: r =>
      if is_eol c then
        if insep then split_gaps true cur r
        else match r with
             | d :: _ =>
                 if is_eol d then cur :: split_gaps true [] r
                 else split_gaps false (cur ++ [c]) r
             | [] => [cur ++ [c]]
             end
      else split_gaps false (cur ++ [c]) r
  end.

Definition formatPemChain_chars (s : list ascii) : list ascii :=
  dash_gap (collapse_eol false (trim s)) ++ [LF].

Definition splitPemChain_chars (s : list ascii) : list (list ascii) :=
  map (fun piece => piece ++ [LF]) (split_gaps false [] (trim s)).

Definition formatPemChain (s : string) : string :=
  str (formatPemChain_chars (chars s)).

Definition splitPemChain (s : string) : list string :=
  map str (splitPemChain_chars (chars s)).

(** *** What a PEM block is

    A block is its text [body], from the first dash of the BEGIN line to
    the last dash of the END line, followed by its line terminator
    [eol].  Inside the body lines are separated by one LF, and no line
    that ends with a dash is followed by a line that starts with one
    (the lines between the two boundary lines are base64). *)

Fixpoint single_lf (s : list ascii) : bool :=
  match s with
  | [] => true
  | c :: r =>
      negb (ceq c CR)
      && match r with
         | d :: _ => negb (ceq c LF && ceq d LF)
         | [] => true
         end
      && single_lf r
  end.

Fixpoint no_dash_gap (s : list ascii) : bool :=
  match s with
  | [] => true
  | a :: r =>
      match r with
      | b :: c :: _ => negb (ceq a DASH && ceq b LF && ceq c DASH)
      | _ => true
      end
      && no_dash_gap r
  end.

Definition ends_with_dash (s : list ascii) : bool :=
  match rev s with
  | c :: _ => ceq c DASH
  | [] => false
  end.

Definition pem_body (s : list ascii) : bool :=
  match s with
  | a :: r => ceq a DASH && ends_with_dash r && single_lf s && no_dash_gap s
  | [] => false
  end.

Definition eol_run (s : list ascii) : bool :=
  match s with
  | [] => false
  | _ => forallb is_eol s
  end.

Record Block := { body : list ascii; eol : list ascii }.

Definition block_text (b : Block) : list ascii := body b ++ eol b.
Definition well_formed (b : Block) : bool := pem_body (body b) && eol_run (eol b).

(** The block as [splitPemChain] returns it: the body and one LF. *)
Definition normalized (b : Block) : list ascii := body b ++ [LF].

Definition chain_text (bs : list Block) : list ascii := concat (map block_text bs).

(** A text that does not begin with a line break. *)
Definition starts_clean (s : list ascii) : Prop :=
  match s with
  | d :: _ => is_eol d = false
  | [] => True
  end.

(** The bodies of [rest], each after the separator [sep] makes of the
    block before it ([prev] at first). *)
Fixpoint glue (sep : Block -> list ascii) (prev : Block) (rest : list Block)
  : list ascii :=
  match rest with
  | [] => []
  | b :: r => sep prev ++ body b ++ glue sep b r
  end.

(** The line terminator of the last block. *)
Fixpoint last_eol (prev : Block) (rest : list Block) : list ascii :=
  match rest with
  | [] => eol prev
  | b :: r => last_eol b r
  end.

(** Two certificates, the first with CR LF after its last line. *)
Definition certificate (base64 : string) : list ascii :=
  chars "-----BEGIN CERTIFICATE-----" ++ LF :: chars base64
    ++ LF :: chars "-----END CERTIFICATE-----".

Definition leaf : Block := {| body := certificate "MIIBleaf"; eol := [CR; LF] |}.
Definition issuer : Block := {| body := certificate "MIIBroot"; eol := [LF] |}.

End Pem.

(** ** [Enc.bufToBase64], [Enc.bufToUrlBase64] and [ACME._toWebsafeBase64] *)

Module Enc.
Import Js.

Definition std_alphabet : list ascii :=
  chars "ABCDEFGHIJKLMNOPQRSTUVWXYZabcdefghijklmnopqrstuvwxyz0123456789+/".
Definition url_alphabet : list ascii :=
  chars "ABCDEFGHIJKLMNOPQRSTUVWXYZabcdefghijklmnopqrstuvwxyz0123456789-_".

Definition PLUS : ascii := chr 43.
Definition SLASH : ascii := chr 47.
Definition EQUALS : ascii := chr 61.
Definition UNDERSCORE : ascii := chr 95.

Definition digit (alpha : list ascii) (n : N) : ascii :=
  nth (N.to_nat (n mod 64)%N) alpha EQUALS.

(** The browser's [btoa] on a binary string (RFC 4648, section 4):
    three characters give four digits, a rest of one or two characters
    is padded with [=]. *)
Fixpoint btoa_chars (s : list ascii) : list ascii :=
  match s with
  | [] => []
  | a :: r =>
      match r with
      | [] =>
          let n := (code a * 16)%N in
          [digit std_alphabet (n / 64); digit std_alphabet n; EQUALS; EQUALS]
      | b :: r1 =>
          match r1 with
          | [] =>
              let n := ((code a * 256 + code b) * 4)%N in
              [digit std_alphabet (n / 4096); digit std_alphabet (n / 64);
               digit std_alphabet n; EQUALS]
          | c :: r2 =>
              let n := (code a * 65536 + code b * 256 + code c)%N in
              digit std_alphabet (n / 262144) :: digit std_alphabet (n / 4096)
                :: digit std_alphabet (n / 64) :: digit std_alphabet n
                :: btoa_chars r2
          end
      end
  end.

(** [s.replace(/x/g, y)] for a one-character pattern and replacement. *)
Definition replace_char (x y : ascii) (s : list ascii) : list ascii :=
  map (fun c => if ceq c x then y else c) s.

(** [s.replace(/x/g, '')] *)
Definition remove_char (x : ascii) (s : list ascii) : list ascii :=
  filter (fun c => ceq c x = false) s.

(** [u8.forEach(function (i) { bin += String.fromCharCode(i); })] *)
Definition fromCharCodes (u8 : list Byte.byte) : list ascii := map ascii_of_byte u8.

Definition bufToBase64_chars (u8 : list Byte.byte) : list ascii :=
  btoa_chars (fromCharCodes u8).

Definition websafe (b64 : list ascii) : list ascii :=
  remove_char EQUALS (replace_char SLASH UNDERSCORE (replace_char PLUS DASH b64)).

(** What [websafe] makes of one character. *)
Definition websafe_char (c : ascii) : list ascii :=
  let c1 := if ceq c PLUS then DASH else c in
  let c2 := if ceq c1 SLASH then UNDERSCORE else c1 in
  if ceq c2 EQUALS then [] else [c2].

Definition bufToBase64 (u8 : list Byte.byte) : string := str (bufToBase64_chars u8).
Definition bufToUrlBase64 (u8 : list Byte.byte) : string :=
  str (websafe (bufToBase64_chars u8)).
Definition _toWebsafeBase64 (b64 : string) : string := str (websafe (chars b64)).

(** What the specification calls base64url: the digits of RFC 4648,
    section 5, and no padding.  This definition follows the
    specification's words, not the source; [bufToUrlBase64] is compared
    with it below. *)
Fixpoint base64url_chars (s : list ascii) : list ascii :=
  match s with
  | [] => []
  | a :: r =>
      match r with
      | [] =>
          let n := (code a * 16)%N in
          [digit url_alphabet (n / 64); digit url_alphabet n]
      | b :: r1 =>
          match r1 with
          | [] =>
              let n := ((code a * 256 + code b) * 4)%N in
              [digit url_alphabet (n / 4096); digit url_alphabet (n / 64);
               digit url_alphabet n]
          | c :: r2 =>
              let n := (code a * 65536 + code b * 256 + code c)%N in
              digit url_alphabet (n / 262144) :: digit url_alphabet (n / 4096)
                :: digit url_alphabet (n / 64) :: digit url_alphabet n
                :: base64url_chars r2
          end
      end
  end.

Definition base64url (u8 : list Byte.byte) : string :=
  str (base64url_chars (fromCharCodes u8)).

(** [new TextEncoder().encode(str)]: UTF-8 of code units below 256. *)
Definition utf8_unit (c : ascii) : list Byte.byte :=
  let n := code c in
  if (n <? 128)%N then [byte_of_ascii c]
  else [byte_of_ascii (chr (192 + n / 64)); byte_of_ascii (chr (128 + n mod 64))].

Definition utf8 (s : string) : list Byte.byte := flat_map utf8_unit (chars s).

End Enc.

(** ** JavaScript values, errors and settled promises *)

#[local] Set Warnings "-register-all".

Inductive Json :=
| JUndefined
| JNull
| JBool (b : bool)
| JNum (n : Z)
| JStr (s : string)
| JArr (items : list Json)
| JObj (props : list (string * Json))
| JArrWith (items : list Json) (props : list (string * Json)).

Inductive JsError :=
| TypeError (message : string)
| Error (message : string) (code : option string)
| Foreign (reason : Json)
| RangeError (message : string).

(** What a collaborator (transport, crypto, a caller's callback) answers:
    a value, or a failure with a reason of its own making. *)
Inductive Reply (A : Type) :=
| Ok (a : A)
| Fail (reason : Json).
Arguments Ok {A} a.
Arguments Fail {A} reason.

(** What the call of a function that returns a promise comes to: the
    promise it returns, settled one way or the other, or the exception the
    call itself throws before there is a promise. *)
Inductive Called (A : Type) :=
| Returned (r : Reply A)
| Threw (reason : Json).
Arguments Returned {A} r.
Arguments Threw {A} reason.

(** What a step of the source itself evaluates to. *)
Inductive Try (A : Type) :=
| Done (a : A)
| Throw (e : JsError).
Arguments Done {A} a.
Arguments Throw {A} e.

(** The state of a promise once the event loop has run: [Unsettled] is a
    promise that was never resolved nor rejected, or a loop the model had
    no steps left for. *)
Inductive Settled (A : Type) :=
| Fulfilled (a : A)
| Rejected (e : JsError)
| Unsettled.
Arguments Fulfilled {A} a.
Arguments Rejected {A} e.
Arguments Unsettled {A}.

Module Val.

Definition nl : string := String Js.LF "".

(** ToBoolean *)
Definition truthy (j : Json) : bool :=
  match j with
  | JUndefined | JNull => false
  | JBool b => b
  | JNum n => negb (n =? 0)
  | JStr s => negb (String.eqb s "")
  | JArr _ | JObj _ | JArrWith _ _ => true
  end.

Fixpoint assoc (k : string) (kv : list (string * Json)) : Json :=
  match kv with
  | [] => JUndefined
  | (k', v) :: r => if String.eqb k k' then v else assoc k r
  end.

Fixpoint unset (k : string) (kv : list (string * Json)) : list (string * Json) :=
  match kv with
  | [] => []
  | (k', v) :: r => if String.eqb k k' then unset k r else (k', v) :: unset k r
  end.

Fixpoint put (k : string) (v : Json) (kv : list (string * Json)) : list (string * Json) :=
  match kv with
  | [] => [(k, v)]
  | (k', v') :: r => if String.eqb k k' then (k, v) :: r else (k', v') :: put k v r
  end.

(** Whether the object has a property [k] of its own. *)
Definition has (k : string) (kv : list (string * Json)) : bool :=
  existsb (fun p => String.eqb k (fst p)) kv.

(** [j.k] for a key that no prototype defines: a name that is neither
    an index nor [length].  [JArrWith l kv] is the array [l] once named
    properties [kv] were assigned to it. *)
Definition prop (j : Json) (k : string) : Try Json :=
  match j with
  | JUndefined => Throw (TypeError ("Cannot read property '" +:+ k +:+ "' of undefined"))
  | JNull => Throw (TypeError ("Cannot read property '" +:+ k +:+ "' of null"))
  | JObj kv | JArrWith _ kv => Done (assoc k kv)
  | _ => Done JUndefined
  end.

(** [j.k = v] in strict mode, for such a key: an object and an array
    take the property, a primitive value does not. *)
Definition set_prop (j : Json) (k : string) (v : Json) : Try Json :=
  match j with
  | JUndefined => Throw (TypeError ("Cannot set property '" +:+ k +:+ "' of undefined"))
  | JNull => Throw (TypeError ("Cannot set property '" +:+ k +:+ "' of null"))
  | JObj kv => Done (JObj (put k v kv))
  | JArr l => Done (JArrWith l [(k, v)])
  | JArrWith l kv => Done (JArrWith l (put k v kv))
  | _ => Throw (TypeError ("Cannot create property '" +:+ k +:+ "'"))
  end.

(** [delete j.k] for such a key. *)
Definition del_prop (j : Json) (k : string) : Try Json :=
  match j with
  | JUndefined | JNull => Throw (TypeError "Cannot convert undefined or null to object")
  | JObj kv => Done (JObj (unset k kv))
  | JArrWith l kv => Done (JArrWith l (unset k kv))
  | other => Done other
  end.

(** [v === 'literal'] *)
Definition is_str (lit : string) (v : Json) : bool :=
  match v with
  | JStr s => String.eqb lit s
  | _ => false
  end.

(** [a === b] when [a] is [undefined] or a string. *)
Definition strict_eq_prim (a : option string) (b : Json) : bool :=
  match a, b with
  | None, JUndefined => true
  | Some s, JStr s' => String.eqb s s'
  | _, _ => false
  end.

(** [JSON.parse(JSON.stringify(j))]: the named properties of an array
    are not written out. *)
Fixpoint clone (j : Json) : Json :=
  match j with
  | JArr l | JArrWith l _ =>
      JArr (map (fun x => match clone x with JUndefined => JNull | y => y end) l)
  | JObj kv =>
      JObj (flat_map (fun p => match clone (snd p) with
                               | JUndefined => []
                               | y => [(fst p, y)]
                               end) kv)
  | other => other
  end.

(** [x || d] for an optional number. *)
Definition or_default (x : option Z) (d : Z) : Z :=
  match x with
  | Some v => if v =? 0 then d else v
  | None => d
  end.

(** The first occurrence of [pat] in [s] replaced by [rep], as
    [s.replace(pat, rep)] does for a string pattern. *)
Fixpoint replace_first (pat rep s : string) : string :=
  if String.prefix pat s
  then rep +:+ String.substring (String.length pat) (String.length s - String.length pat) s
  else match s with
       | EmptyString => EmptyString
       | String c r => String c (replace_first pat rep r)
       end.

End Val.

(** ** The data model *)

Record NonceEntry := { nonce : string; createdAt : Z }.

(** What [ACME._getNonce] resolves with: the cache entry itself, or the
    value of the [replay-nonce] header of the HEAD response. *)
Inductive NonceValue :=
| NonceRecord (e : NonceEntry)
| NonceHeader (h : option string).

Inductive Method := GET | HEAD | POST.

Record Request := {
  method : option Method;
  url : Json;
  json : Json;
  req_headers : option (gmap string string);
  req_body : option string
}.

Record Response := {
  statusCode : Z;
  headers : gmap string string;
  body : Json
}.

(** The payload of a signed request: the empty string, or the buffer
    [Enc.strToBuf(JSON.stringify(doc))] of a document. *)
Inductive Payload :=
| PayloadEmpty
| PayloadDoc (doc : Json).

Record Protected := {
  p_alg : Json;
  p_kid : Json;
  p_jwk : Json;
  p_nonce : NonceValue;
  p_url : Json
}.

Record SignArgs := {
  s_jwk : Json;
  s_secret : Json;
  s_protected : Protected;
  s_payload : Payload
}.

Record BigOpts := {
  b_url : Json;
  b_protected : Protected;
  b_payload : Payload
}.

Record Identifier := { id_type : string; id_value : string }.

Record Challenge := {
  ch_type : string;
  ch_status : string;
  ch_url : string;
  ch_token : string
}.

Record Authorization := {
  az_identifier : Identifier;
  az_status : string;
  az_expires : string;
  az_challenges : list Challenge;
  az_wildcard : bool
}.

Record Auth := {
  identifier : Identifier;
  status : string;
  expires : string;
  challenges : list Challenge;
  wildcard : bool;
  type : string;
  auth_url : string;
  token : string;
  hostname : string;
  altname : string;
  thumbprint : string;
  keyAuthorization : string;
  challengeUrl : string;
  dnsHost : string;
  dnsAuthorization : string
}.

Record AccountKeypair := {
  privateKeyJwk : Json;
  privateKeyPem : Json;
  publicKeyJwk : Json
}.

Record ExternalAccount := { ea_secret : Json; ea_alg : Json; ea_id : Json }.

(** The caller's [options] object; the drivers write the fields whose
    names start with an underscore, and the two JWKs of the key pair. *)
Record Options := {
  accountKeypair : AccountKeypair;
  contact : option (list Json);
  email : option string;
  externalAccount : option ExternalAccount;
  domains : list string;
  domainKeypair : Json;
  _kid : Json;
  _expires : Json;
  _certificate : Json;
  _finalize : Json
}.

(** The client object [me] after [init]. *)
Record Client := {
  directoryUrl : Json;
  newNonce : Json;
  newAccount : Json;
  newOrder : Json;
  _tos : option string;
  retryInterval : option Z;
  deauthWait : option Z;
  retryPoll : option Z;
  retryPending : option Z
}.

(** The value bound to the parameter [me] of a function of the request
    layer: the client, or, where a caller left the client out of the
    argument list, the options literal that was written in its place. *)
Inductive MeArg :=
| MeClient (c : Client)
| MeLiteral (b : BigOpts).

Inductive Event :=
| EvRequest (q : Request) (r : Reply Response)
| EvSign (a : SignArgs)
| EvWait (ms : Z)
| EvRemoveChallenge (a : Auth).

(** ** The collaborators

    Everything the source receives from outside: the transport
    [me.request], the clock, timers, [Keypairs], [crypto.subtle], the JSON
    built-ins and the caller's callbacks.  [Ext] is the state of that
    outside world.  [agreeToTerms_calls_back_at_once] tells whether a
    two-argument [agreeToTerms] calls its callback before it returns, and
    lets pass what the callback throws, or calls it from a later turn of
    the event loop. *)
Record Platform := {
  Ext : Type;
  Date_now : Ext -> Z;
  request : Request -> Ext -> Reply Response * Ext;
  setTimeout : Z -> Ext -> Ext;
  signJws : SignArgs -> Ext -> Reply Json * Ext;
  Keypairs_thumbprint : Json -> Reply string;
  Keypairs_neuter : Json -> Reply Json;
  Keypairs_import : Json -> Called (Json * Json);
  generateCsrWeb64 : Json -> list string -> Reply string;
  subtle_digest : string -> list Byte.byte -> Reply (list Byte.byte);
  JSON_stringify : Json -> string;
  JSON_stringify_2 : Json -> string;
  ToString : Json -> string;
  prnd : Z -> Ext -> string * Ext;
  agreeToTerms_length : nat;
  agreeToTerms_promise : option string -> Ext -> Reply Json * Ext;
  agreeToTerms_callback : option string -> Ext -> (Json * Json) * Ext;
  agreeToTerms_calls_back_at_once : bool;
  removeChallenge_length : nat;
  removeChallenge : Auth -> Ext -> Ext
}.

(** ** What a transcript says *)

Module Transcript.

Definition nonce_text (n : NonceValue) : list string :=
  match n with
  | NonceRecord e => [nonce e]
  | NonceHeader (Some s) => [s]
  | NonceHeader None => []
  end.

(** The nonces of the protected headers handed to the signer. *)
Definition sent_of (e : Event) : list string :=
  match e with
  | EvSign a => nonce_text (p_nonce (s_protected a))
  | _ => []
  end.

(** The [replay-nonce] values of the responses received. *)
Definition received_of (e : Event) : list string :=
  match e with
  | EvRequest _ (Ok resp) =>
      match headers resp !! "replay-nonce" with
      | Some n => [n]
      | None => []
      end
  | _ => []
  end.

Definition sent (tr : list Event) : list string := flat_map sent_of tr.
Definition received (tr : list Event) : list string := flat_map received_of tr.

(** A GET of the URL [u]. *)
Definition is_get (u : string) (q : Request) : bool :=
  match method q, url q with
  | Some GET, JStr u' => String.eqb u u'
  | _, _ => false
  end.

(** How many times the transport was asked to GET the URL [u]. *)
Fixpoint count_gets (u : string) (tr : list Event) : nat :=
  match tr with
  | [] => 0
  | EvRequest q _ :: rest =>
      if is_get u q then S (count_gets u rest) else count_gets u rest
  | _ :: rest => count_gets u rest
  end.

(** A transcript without the replies and the signing keys. *)
Inductive Step :=
| Signed (p : Payload)
| Sent (m : option Method) (u : Json)
| Waited (ms : Z)
| Removed.

Definition step_of (e : Event) : Step :=
  match e with
  | EvSign a => Signed (s_payload a)
  | EvRequest q _ => Sent (method q) (url q)
  | EvWait ms => Waited ms
  | EvRemoveChallenge _ => Removed
  end.

Definition outline (tr : list Event) : list Step := map step_of tr.

End Transcript.

(** ** The engine *)

Section Engine.

Context (pf : Platform).

Record World := {
  ext : Ext pf;
  nonces : list NonceEntry;
  options : Options;
  removeChallengeWarn : bool;
  trace : list Event
}.

Definition M (A : Type) : Type := World -> Settled A * World.

Definition ret {A} (a : A) : M A := fun w => (Fulfilled a, w).
Definition reject {A} (e : JsError) : M A := fun w => (Rejected e, w).
Definition never {A} : M A := fun w => (Unsettled, w).

Definition bind {A B} (m : M A) (k : A -> M B) : M B :=
  fun w =>
    match m w with
    | (Fulfilled a, w') => k a w'
    | (Rejected e, w') => (Rejected e, w')
    | (Unsettled, w') => (Unsettled, w')
    end.

Definition lift {A} (r : Reply A) : M A :=
  match r with
  | Ok a => ret a
  | Fail reason => reject (Foreign reason)
  end.

Definition attempt {A} (r : Try A) : M A :=
  match r with
  | Done a => ret a
  | Throw e => reject e
  end.

(** A promise chain whose rejection nobody handles: the promise the
    caller holds is not settled by it. *)
Definition unhandled {A} (m : M A) : M A :=
  fun w =>
    match m w with
    | (Rejected _, w') => (Unsettled, w')
    | other => other
    end.

Local Notation "'let*' x ':=' m 'in' k" := (bind m (fun x => k))
  (at level 10, x name, m at level 100, k at level 200, only parsing).

Definition log (e : Event) : M unit :=
  fun w => (Fulfilled tt,
            {| ext := ext w; nonces := nonces w; options := options w;
               removeChallengeWarn := removeChallengeWarn w;
               trace := trace w ++ [e] |}).

Definition with_ext {A} (f : Ext pf -> A * Ext pf) : M A :=
  fun w => let (a, x) := f (ext w) in
           (Fulfilled a,
            {| ext := x; nonces := nonces w; options := options w;
               removeChallengeWarn := removeChallengeWarn w;
               trace := trace w |}).

Definition with_nonces (w : World) (l : list NonceEntry) : World :=
  {| ext := ext w; nonces := l; options := options w;
     removeChallengeWarn := removeChallengeWarn w;
     trace := trace w |}.

Definition set_nonces (l : list NonceEntry) : M unit :=
  fun w => (Fulfilled tt, with_nonces w l).

Definition set_options (o : Options) : M unit :=
  fun w => (Fulfilled tt,
            {| ext := ext w; nonces := nonces w; options := o;
               removeChallengeWarn := removeChallengeWarn w;
               trace := trace w |}).

Definition set_removeChallengeWarn (b : bool) : M unit :=
  fun w => (Fulfilled tt,
            {| ext := ext w; nonces := nonces w; options := options w;
               removeChallengeWarn := b;
               trace := trace w |}).

Definition get_nonces : M (list NonceEntry) := fun w => (Fulfilled (nonces w), w).
Definition get_options : M Options := fun w => (Fulfilled (options w), w).
Definition now : M Z := fun w => (Fulfilled (Date_now pf (ext w)), w).

(** [me.request(opts)] on the client *)
Definition transport (q : Request) : M Response :=
  let* r := with_ext (request pf q) in
  let* _ := log (EvRequest q r) in
  lift r.

(** [me.Keypairs.signJws(args)] *)
Definition sign (a : SignArgs) : M Json :=
  let* _ := log (EvSign a) in
  let* r := with_ext (signJws pf a) in
  lift r.

(** [ACME._wait]: [setTimeout(resolve, (ms || 1100))] *)
Definition _wait (ms : option Z) : M unit :=
  let d := Val.or_default ms 1100 in
  let* _ := log (EvWait d) in
  with_ext (fun x => (tt, setTimeout pf d x)).

(** *** The nonce cache: [ACME._getNonce] and [ACME._setNonce] *)

Definition NONCE_LIFETIME : Z := 15 * 60 * 1000.

(** The [while (true)] loop of [_getNonce]: [shift] entries until the
    cache is empty or an entry is no older than the lifetime. *)
Fixpoint shift_fresh (t : Z) (cache : list NonceEntry)
  : option NonceEntry * list NonceEntry :=
  match cache with
  | [] => (None, [])
  | e :: rest =>
      if t - createdAt e >? NONCE_LIFETIME
      then shift_fresh t rest
      else (Some e, rest)
  end.

Definition header (k : string) (resp : Response) : option string :=
  headers resp !! k.

Definition _getNonce (me : MeArg) : M NonceValue :=
  match me with
  | MeLiteral _ =>
      reject (TypeError "Cannot read property 'shift' of undefined")
  | MeClient c =>
      let* t := now in
      let* cache := get_nonces in
      let (found, rest) := shift_fresh t cache in
      let* _ := set_nonces rest in
      match found with
      | Some e => ret (NonceRecord e)
      | None =>
          let* resp := transport {| method := Some HEAD; url := newNonce c;
                                    json := JUndefined; req_headers := None;
                                    req_body := None |} in
          ret (NonceHeader (header "replay-nonce" resp))
      end
  end.

Definition _setNonce (me : MeArg) (n : string) : M unit :=
  match me with
  | MeLiteral _ =>
      reject (TypeError "Cannot read property 'unshift' of undefined")
  | MeClient _ =>
      let* t := now in
      let* cache := get_nonces in
      set_nonces ({| nonce := n; createdAt := t |} :: cache)
  end.

(** *** [ACME._directory], [ACME._request] and [ACME._jwsRequest] *)

Definition _directory (c : Client) : M Response :=
  transport {| method := Some GET; url := directoryUrl c; json := JBool true;
               req_headers := None; req_body := None |}.

Definition is_true (j : Json) : bool :=
  match j with
  | JBool true => true
  | _ => false
  end.

Definition _request (me : MeArg) (opts : Request) : M Response :=
  let hs := default ∅ (req_headers opts) in
  let opts' :=
    if Val.truthy (json opts) && negb (is_true (json opts))
    then {| method := match method opts with
                      | None => Some POST
                      | Some m => Some m
                      end;
            url := url opts;
            json := json opts;
            req_headers := Some (<["Content-Type" := "application/jose+json"]> hs);
            req_body := Some (JSON_stringify pf (json opts)) |}
    else {| method := method opts; url := url opts; json := json opts;
            req_headers := Some hs; req_body := req_body opts |} in
  match me with
  | MeLiteral _ => reject (TypeError "me.request is not a function")
  | MeClient _ =>
      let* resp := transport opts' in
      match header "replay-nonce" resp with
      | Some n =>
          if negb (String.eqb n "")
          then let* _ := _setNonce me n in ret resp
          else ret resp
      | None => ret resp
      end
  end.

Definition with_nonce (p : Protected) (n : NonceValue) (u : Json) : Protected :=
  {| p_alg := p_alg p; p_kid := p_kid p; p_jwk := p_jwk p;
     p_nonce := n; p_url := u |}.

Definition _jwsRequest (me : MeArg) (bigopts : option BigOpts) : M Response :=
  let* n := _getNonce me in
  match bigopts with
  | None => reject (TypeError "Cannot read property 'protected' of undefined")
  | Some b =>
      match me with
      | MeLiteral _ => reject (TypeError "Cannot read property 'signJws' of undefined")
      | MeClient _ =>
          let* o := get_options in
          let* jws := sign {| s_jwk := privateKeyJwk (accountKeypair o);
                              s_secret := JUndefined;
                              s_protected := with_nonce (b_protected b) n (b_url b);
                              s_payload := b_payload b |} in
          _request me {| method := None; url := b_url b; json := jws;
                         req_headers := None; req_body := None |}
      end
  end.

Definition no_protected : Protected :=
  {| p_alg := JUndefined; p_kid := JUndefined; p_jwk := JUndefined;
     p_nonce := NonceHeader None; p_url := JUndefined |}.

Definition protected_kid (kid : Json) : Protected :=
  {| p_alg := JUndefined; p_kid := kid; p_jwk := JUndefined;
     p_nonce := NonceHeader None; p_url := JUndefined |}.

(** [ACME._getChallenges] *)
Definition _getChallenges (c : Client) (authUrl : Json) : M Json :=
  let* resp := _jwsRequest (MeClient c)
                 (Some {| b_url := authUrl; b_protected := no_protected;
                          b_payload := PayloadEmpty |}) in
  ret (body resp).

(** *** [Crypto._sha] *)

Definition is_letter (lower upper c : ascii) : bool := Js.ceq c lower || Js.ceq c upper.

(** [sha.replace(/^sha-?/i, '')] *)
Definition strip_sha (sha : string) : string :=
  match sha with
  | String a (String b (String c r)) =>
      if is_letter "s" "S" a && is_letter "h" "H" b && is_letter "a" "A" c
      then match r with
           | String d r' => if Js.ceq d Js.DASH then r' else r
           | EmptyString => r
           end
      else sha
  | _ => sha
  end.

Definition Crypto_sha (sha str : string) : M string :=
  let data := Enc.utf8 str in
  let sha' := "SHA-" +:+ strip_sha sha in
  let* hash := lift (subtle_digest pf sha' data) in
  ret (Enc.bufToUrlBase64 hash).

(** *** [ACME.challengeTests], [ACME._untame] and [ACME._challengeToAuth] *)

Definition http01_prefix : string := "/.well-known/acme-challenge".
Definition dns01_prefix : string := "_acme-challenge".

Definition _untame (name : string) (wild : bool) : string :=
  if wild then "*." +:+ Val.replace_first "*." "" name else name.

(** [body.toString('utf8')]: [Number.prototype.toString] takes the
    argument for a radix, the other prototypes ignore it; a property
    [toString] of the body's own is no function. *)
Definition toString_utf8 (j : Json) : Try string :=
  match j with
  | JUndefined => Throw (TypeError "Cannot read property 'toString' of undefined")
  | JNull => Throw (TypeError "Cannot read property 'toString' of null")
  | JNum _ => Throw (RangeError "toString() radix must be between 2 and 36")
  | JObj kv | JArrWith _ kv =>
      if Val.has "toString" kv
      then Throw (TypeError "resp.body.toString is not a function")
      else Done (ToString pf j)
  | _ => Done (ToString pf j)
  end.

Definition challengeTest_http01 (a : Auth) : M bool :=
  let u := "http://" +:+ hostname a +:+ http01_prefix +:+ "/" +:+ token a in
  let* resp := transport {| method := Some GET; url := JStr u; json := JUndefined;
                            req_headers := None; req_body := None |} in
  let* text := attempt (toString_utf8 (body resp)) in
  let got := Js.str (Js.trim (Js.chars text)) in
  if String.eqb (keyAuthorization a) got then ret true
  else reject (Error
         ("Error: Failed HTTP-01 Pre-Flight / Dry Run." +:+ Val.nl
          +:+ "curl '" +:+ u +:+ "'" +:+ Val.nl
          +:+ "Expected: '" +:+ keyAuthorization a +:+ "'" +:+ Val.nl
          +:+ "Got: '" +:+ ToString pf (body resp) +:+ "'" +:+ Val.nl
          +:+ "See https://git.coolaj86.com/coolaj86/acme-v2.js/issues/4")
         (Some "E_FAIL_DRY_CHALLENGE")).

Definition _challengeToAuth (request : Authorization) (challenge : Challenge)
    (dryrun : bool) : M Auth :=
  let* dnsPrefix :=
    (if dryrun
     then let* r := with_ext (prnd pf 4) in
          ret (Val.replace_first "acme-challenge" ("greenlock-dryrun-" +:+ r) dns01_prefix)
     else ret dns01_prefix) in
  (* auth: the keys of [request], then those of [challenge], whose
     [status] overwrites the first *)
  let ident := az_identifier request in
  let host := id_value ident in
  let alt := _untame (id_value ident) (az_wildcard request) in
  let* o := get_options in
  let* thumb := lift (Keypairs_thumbprint pf (publicKeyJwk (accountKeypair o))) in
  let keyAuth := ch_token challenge +:+ "." +:+ thumb in
  let chUrl := "http://" +:+ id_value ident +:+ http01_prefix +:+ "/" +:+ ch_token challenge in
  let host' := dnsPrefix +:+ "." +:+ Val.replace_first "*." "" host in
  let* hash := Crypto_sha "sha256" keyAuth in
  ret {| identifier := ident;
         status := ch_status challenge;
         expires := az_expires request;
         challenges := az_challenges request;
         wildcard := az_wildcard request;
         type := ch_type challenge;
         auth_url := ch_url challenge;
         token := ch_token challenge;
         hostname := host;
         altname := alt;
         thumbprint := thumb;
         keyAuthorization := keyAuth;
         challengeUrl := chUrl;
         dnsHost := host';
         dnsAuthorization := hash |}.

(** *** [ACME._registerAccount] *)

Definition tos_text (t : option string) : string :=
  match t with
  | Some s => s
  | None => "undefined"
  end.

Definition set_keys (o : Options) (priv pub : Json) : Options :=
  {| accountKeypair := {| privateKeyJwk := priv;
                          privateKeyPem := privateKeyPem (accountKeypair o);
                          publicKeyJwk := pub |};
     contact := contact o; email := email o;
     externalAccount := externalAccount o; domains := domains o;
     domainKeypair := domainKeypair o; _kid := _kid o;
     _expires := _expires o; _certificate := _certificate o;
     _finalize := _finalize o |}.

Definition set_kid (o : Options) (kid : Json) : Options :=
  {| accountKeypair := accountKeypair o;
     contact := contact o; email := email o;
     externalAccount := externalAccount o; domains := domains o;
     domainKeypair := domainKeypair o; _kid := kid;
     _expires := _expires o; _certificate := _certificate o;
     _finalize := _finalize o |}.

Definition set_order_result (o : Options) (exp cert : Json) : Options :=
  {| accountKeypair := accountKeypair o;
     contact := contact o; email := email o;
     externalAccount := externalAccount o; domains := domains o;
     domainKeypair := domainKeypair o; _kid := _kid o;
     _expires := exp; _certificate := cert;
     _finalize := _finalize o |}.

(** [agree] from the key to the promise [p], which runs in the call of
    [agree] itself: the key without the browser's extras; what is thrown
    here is thrown by [agree]. *)
Definition account_key : M (Reply (Json * Json)) :=
  let* o := get_options in
  let jwk := privateKeyJwk (accountKeypair o) in
  if Val.truthy jwk
  then let* j1 := attempt (Val.set_prop jwk "key_ops" JUndefined) in
       let* j2 := attempt (Val.set_prop j1 "ext" JUndefined) in
       let* _ := set_options (set_keys o j2 (publicKeyJwk (accountKeypair o))) in
       let* pub := lift (Keypairs_neuter pf j2) in
       ret (Ok (j2, pub))
  else match Keypairs_import pf (privateKeyPem (accountKeypair o)) with
       | Returned r => ret r
       | Threw reason => reject (Foreign reason)
       end.

(** The first [then] callback of [p]: the key pair without a [kid]. *)
Definition account_pair (p : Reply (Json * Json)) : M (Json * Json) :=
  let* pair := lift p in
  let* o1 := get_options in
  let* _ := set_options (set_keys o1 (fst pair) (snd pair)) in
  let* kid := attempt (Val.prop (snd pair) "kid") in
  if Val.truthy kid
  then let* pub := attempt (Val.del_prop (Val.clone (snd pair)) "kid") in
       let* priv := attempt (Val.del_prop (Val.clone (fst pair)) "kid") in
       ret (priv, pub)
  else ret pair.

Definition account_contact (o : Options) : Json :=
  match contact o with
  | Some l => JArr l
  | None =>
      match email o with
      | Some e => if String.eqb e "" then JUndefined else JArr [JStr ("mailto:" +:+ e)]
      | None => JUndefined
      end
  end.

(** The third callback up to [pExt]: the body of the newAccount request. *)
Definition account_body (c : Client) (tosUrl : Json) (pub : Json) : M Json :=
  let* o := get_options in
  let fields :=
    [("termsOfServiceAgreed", JBool (Val.strict_eq_prim (_tos c) tosUrl));
     ("onlyReturnExisting", JBool false);
     ("contact", account_contact o)] in
  match externalAccount o with
  | Some ea =>
      let* jws := sign {| s_jwk := JUndefined;
                          s_secret := ea_secret ea;
                          s_protected :=
                            {| p_alg := if Val.truthy (ea_alg ea) then ea_alg ea
                                        else JStr "HS256";
                               p_kid := ea_id ea;
                               p_jwk := JUndefined;
                               p_nonce := NonceHeader None;
                               p_url := newAccount c |};
                          s_payload := PayloadDoc pub |} in
      ret (JObj (Val.put "externalAccountBinding" jws fields))
  | None => ret (JObj fields)
  end.

Definition header_value (k : string) (resp : Response) : Json :=
  match header k resp with
  | Some v => JStr v
  | None => JUndefined
  end.

(** The callback that receives the newAccount response. *)
Definition account_of_response (resp : Response) : M Json :=
  if negb (statusCode resp / 100 =? 2)
  then reject (Error ("account error: " +:+ JSON_stringify pf (body resp)) None)
  else
    let location := header_value "location" resp in
    let* o := get_options in
    let* _ := set_options (set_kid o location) in
    let account0 :=
      if Val.truthy (body resp) then body resp
      else JObj [("_emptyResponse", JBool true); ("key", JObj [])] in
    let* key0 := attempt (Val.prop account0 "key") in
    let* account1 :=
      (if Val.truthy key0 then ret account0
       else attempt (Val.set_prop account0 "key" (JObj []))) in
    let* key1 := attempt (Val.prop account1 "key") in
    let* key2 := attempt (Val.set_prop key1 "kid" location) in
    attempt (Val.set_prop account1 "key" key2).

(** Whether [agree] runs inside the executor of the promise that
    [_registerAccount] returns: it does when the callback of a
    two-argument [agreeToTerms] is called before [agreeToTerms] returns.
    What [agree] throws there rejects the promise; thrown in a [then]
    callback or in a later turn, it reaches no handler. *)
Definition in_executor : bool :=
  Nat.eqb (agreeToTerms_length pf) 2 && agreeToTerms_calls_back_at_once pf.

(** [agree] up to the newAccount request: the call of [agree] as far as
    [p], then the callbacks of [p] and [pExt], whose rejections no
    handler receives. *)
Definition prepare_account (c : Client) (tosUrl : Json) : M (Json * Json * Json) :=
  let* p := (if in_executor then account_key else unhandled account_key) in
  unhandled (let* pair := account_pair p in
             let* doc := account_body c tosUrl (snd pair) in
             ret (pair, doc)).

Definition newAccount_opts (c : Client) (pub doc : Json) : BigOpts :=
  {| b_url := newAccount c;
     b_protected := {| p_alg := JUndefined; p_kid := JBool false;
                       p_jwk := pub; p_nonce := NonceHeader None;
                       p_url := JUndefined |};
     b_payload := PayloadDoc doc |}.

Definition agree (c : Client) (tosUrl : Json) : M Json :=
  if negb (Val.strict_eq_prim (_tos c) tosUrl)
  then reject (Error ("You must agree to the ToS at '" +:+ tos_text (_tos c) +:+ "'")
                     (Some "E_AGREE_TOS"))
  else
    let* prepared := prepare_account c tosUrl in
    let* resp := _jwsRequest (MeClient c)
                   (Some (newAccount_opts c (snd (fst prepared)) (snd prepared))) in
    account_of_response resp.

Definition _registerAccount (c : Client) : M Json :=
  if Nat.eqb (agreeToTerms_length pf) 1
  then let* r := with_ext (agreeToTerms_promise pf (_tos c)) in
       let* tosUrl := lift r in
       agree c tosUrl
  else if Nat.eqb (agreeToTerms_length pf) 2
  then let* r := with_ext (agreeToTerms_callback pf (_tos c)) in
       if negb (Val.truthy (fst r)) then agree c (snd r)
       else reject (Foreign (fst r))
  else reject (Error ("agreeToTerms has incorrect function signature."
                      +:+ " Should be fn(tos) { return Promise<tos>; }") None).

(** *** [ACME._postChallenge] and [ACME._finalizeOrder]

    The inner functions of both drivers reach the request layer through
    the expression [ACME._jwsRequest({ ... })].  They are written here
    over that call, [jwsRequest]; [_postChallenge] and [_finalizeOrder]
    below supply it as the source does. *)

Section Drivers.

Variable jwsRequest : BigOpts -> M Response.
Variable me : Client.

Section PostChallenge.

Variable auth : Auth.

Definition RETRY_INTERVAL : Z := Val.or_default (retryInterval me) 1000.
Definition DEAUTH_INTERVAL : Z := Val.or_default (deauthWait me) (10 * 1000).
Definition MAX_POLL : Z := Val.or_default (retryPoll me) 8.
Definition MAX_PEND : Z := Val.or_default (retryPending me) 4.

Definition postChallenge_altname : string :=
  _untame (id_value (identifier auth)) (wildcard auth).

Definition deactivate : M unit :=
  let* o := get_options in
  let* resp := jwsRequest
                 {| b_url := JStr (auth_url auth);
                    b_protected := protected_kid (_kid o);
                    b_payload := PayloadDoc (JObj [("status", JStr "deactivated")]) |} in
  _wait (Some DEAUTH_INTERVAL).

(** The [try] block of the [valid] branch; what it throws is caught. *)
Definition call_removeChallenge : M unit :=
  if Nat.eqb (removeChallenge_length pf) 1 || Nat.eqb (removeChallenge_length pf) 2
  then let* _ := log (EvRemoveChallenge auth) in
       with_ext (fun x => (tt, removeChallenge pf auth x))
  else set_removeChallengeWarn true.

Definition state_error (st : Json) : string :=
  if negb (Val.truthy st)
  then "[acme-v2] (E_STATE_EMPTY) empty challenge state for '"
       +:+ postChallenge_altname +:+ "':"
  else if Val.is_str "invalid" st
  then "[acme-v2] (E_STATE_INVALID) challenge state for '"
       +:+ postChallenge_altname +:+ "': '" +:+ ToString pf st +:+ "'"
  else "[acme-v2] (E_STATE_UKN) challenge state for '"
       +:+ postChallenge_altname +:+ "': '" +:+ ToString pf st +:+ "'".

Definition stuck_error : JsError :=
  Error ("[acme-v2] stuck in bad pending/processing state for '"
         +:+ postChallenge_altname +:+ "'") None.

Definition poll_request : Request :=
  {| method := Some GET; url := JStr (auth_url auth); json := JBool true;
     req_headers := None; req_body := None |}.

Definition accept_opts (o : Options) : BigOpts :=
  {| b_url := JStr (auth_url auth);
     b_protected := protected_kid (_kid o);
     b_payload := PayloadDoc (JObj []) |}.

(** [count] is the variable the two functions share; [fuel] bounds
    the number of calls the model follows. *)
Fixpoint pollStatus (fuel : nat) (count : Z) {struct fuel} : M Json :=
  match fuel with
  | O => never
  | S fuel' =>
      if count >=? MAX_POLL then reject stuck_error
      else
        let count := count + 1 in
        let* resp := transport poll_request in
        let* st := attempt (Val.prop (body resp) "status") in
        if Val.is_str "processing" st
        then let* _ := _wait (Some RETRY_INTERVAL) in
             pollStatus fuel' count
        else if Val.is_str "pending" st
        then
          if count >=? MAX_PEND
          then let* _ := _wait (Some RETRY_INTERVAL) in
               let* _ := deactivate in
               respondToChallenge fuel' count
          else let* _ := _wait (Some RETRY_INTERVAL) in
               respondToChallenge fuel' count
        else if Val.is_str "valid" st
        then let* _ := call_removeChallenge in
             ret (body resp)
        else reject (Error (state_error st) None)
  end
with respondToChallenge (fuel : nat) (count : Z) {struct fuel} : M Json :=
  match fuel with
  | O => never
  | S fuel' =>
      let* o := get_options in
      let* resp := jwsRequest (accept_opts o) in
      let* _ := _wait (Some RETRY_INTERVAL) in
      pollStatus fuel' count
  end.

Definition postChallenge (fuel : nat) : M Json := respondToChallenge fuel 0.

End PostChallenge.

Section FinalizeOrder.

Variable validatedDomains : list string.

Definition finalize_error (o : Options) (head : string) (resp : Response)
    (tail : string) : JsError :=
  Error (head
         +:+ "Requested: '" +:+ Js.join ", " (domains o) +:+ "'" +:+ Val.nl
         +:+ "Validated: '" +:+ Js.join ", " validatedDomains +:+ "'" +:+ Val.nl
         +:+ JSON_stringify_2 pf (body resp) +:+ tail) None.

Definition open_an_issue : string :=
  Val.nl +:+ Val.nl
  +:+ "Please open an issue at https://git.coolaj86.com/coolaj86/acme-v2.js".

Fixpoint pollCert (csr : string) (fuel : nat) {struct fuel} : M Json :=
  match fuel with
  | O => never
  | S fuel' =>
      let* o := get_options in
      let* resp := jwsRequest
                     {| b_url := _finalize o;
                        b_protected := protected_kid (_kid o);
                        b_payload := PayloadDoc (JObj [("csr", JStr csr)]) |} in
      let* st := attempt (Val.prop (body resp) "status") in
      if Val.is_str "valid" st
      then let* exp := attempt (Val.prop (body resp) "expires") in
           let* cert := attempt (Val.prop (body resp) "certificate") in
           let* o1 := get_options in
           let* _ := set_options (set_order_result o1 exp cert) in
           ret (body resp)
      else if Val.is_str "processing" st
      then let* _ := _wait None in
           pollCert csr fuel'
      else
        let* o1 := get_options in
        if Val.is_str "pending" st
        then reject (finalize_error o1
               ("Did not finalize order: status 'pending'."
                +:+ " Best guess: You have not accepted at least one challenge for each domain:"
                +:+ Val.nl) resp "")
        else if Val.is_str "invalid" st
        then reject (finalize_error o1
               ("Did not finalize order: status 'invalid'."
                +:+ " Best guess: One or more of the domain challenges could not be verified"
                +:+ " (or the order was canceled)." +:+ Val.nl) resp "")
        else if Val.is_str "ready" st
        then reject (finalize_error o1
               ("Did not finalize order: status 'ready'."
                +:+ " Hmmm... this state shouldn't be possible here. That was the last state."
                +:+ " This one should at least be 'processing'." +:+ Val.nl)
               resp open_an_issue)
        else reject (finalize_error o1
               ("Didn't finalize order: Unhandled status '" +:+ ToString pf st +:+ "'."
                +:+ " This is not one of the known statuses..." +:+ Val.nl)
               resp open_an_issue)
  end.

Definition finalizeOrder (fuel : nat) : M Json :=
  let* o := get_options in
  let* csr := lift (generateCsrWeb64 pf (domainKeypair o) validatedDomains) in
  pollCert csr fuel.

End FinalizeOrder.

End Drivers.

(** [ACME._jwsRequest({ ... })] as the drivers write it: the literal is
    the only argument, so it is bound to [me] and [bigopts] is
    [undefined]. *)
Definition jwsRequest_literal (b : BigOpts) : M Response :=
  _jwsRequest (MeLiteral b) None.

(** The same call with the client in front, as [_registerAccount] and
    [_getChallenges] write it. *)
Definition jwsRequest_client (c : Client) (b : BigOpts) : M Response :=
  _jwsRequest (MeClient c) (Some b).

Definition _postChallenge (me : Client) (auth : Auth) (fuel : nat) : M Json :=
  postChallenge jwsRequest_literal me auth fuel.

Definition _finalizeOrder (me : Client) (validatedDomains : list string)
    (fuel : nat) : M Json :=
  finalizeOrder jwsRequest_literal validatedDomains fuel.

(** *** Notions the statements use *)

(** [ACME.create]: the state of a client that has sent nothing yet,
    [me._nonces = []]. *)
Definition create (x : Ext pf) (o : Options) : World :=
  {| ext := x; nonces := []; options := o;
     removeChallengeWarn := false; trace := [] |}.

(** The request of the [HEAD newNonce] branch of [_getNonce]. *)
Definition head_request (c : Client) : Request :=
  {| method := Some HEAD; url := newNonce c; json := JUndefined;
     req_headers := None; req_body := None |}.

(** An entry the loop of [_getNonce] discards at time [t]. *)
Definition expired (t : Z) (e : NonceEntry) : Prop :=
  t - createdAt e > NONCE_LIFETIME.

(** The world once [options.agreeToTerms] has been called. *)
Definition asked (c : Client) (w : World) : World :=
  if Nat.eqb (agreeToTerms_length pf) 1
  then snd (with_ext (agreeToTerms_promise pf (_tos c)) w)
  else snd (with_ext (agreeToTerms_callback pf (_tos c)) w).

(** The callback hands the value [v] to [agree]: the promise it
    returned resolved with [v], or it called back with no error and
    [v]. *)
Definition yields (c : Client) (w : World) (v : Json) : Prop :=
  (agreeToTerms_length pf = 1%nat
   /\ fst (agreeToTerms_promise pf (_tos c) (ext w)) = Ok v)
  \/ (agreeToTerms_length pf = 2%nat
      /\ Val.truthy (fst (fst (agreeToTerms_callback pf (_tos c) (ext w)))) = false
      /\ snd (fst (agreeToTerms_callback pf (_tos c) (ext w))) = v).

(** A rejection with the error [agree] makes. *)
Definition is_E_AGREE_TOS {A} (r : Settled A) : Prop :=
  exists message, r = Rejected (Error message (Some "E_AGREE_TOS")).

(** Signed requests issued one after the other by one client, whatever
    each of them settles to. *)
Fixpoint session (c : Client) (bs : list BigOpts) (w : World) : World :=
  match bs with
  | [] => w
  | b :: rest => session c rest (snd (_jwsRequest (MeClient c) (Some b) w))
  end.

End Engine.

Arguments ext {pf} _.
Arguments nonces {pf} _.
Arguments options {pf} _.
Arguments removeChallengeWarn {pf} _.
Arguments trace {pf} _.


(** ** Notions the statements and their proofs use *)

Section Notions.

Context (pf : Platform).

(** Every nonce that was handed to the signer or is still in the cache
    is accounted for by a [replay-nonce] header of its own. *)
Definition accounted (w : World pf) : Prop :=
  Transcript.sent (trace w) ++ map nonce (nonces w)
  ⊆+ Transcript.received (trace w).

(** A step that asks the transport to GET the URL of the challenge at
    most [k] times. *)
Definition polls_at_most {A} (auth : Auth) (k : nat) (m : M pf A) : Prop :=
  forall w,
    (Transcript.count_gets (auth_url auth) (trace (snd (m w)))
     <= Transcript.count_gets (auth_url auth) (trace w) + k)%nat.

(** A step whose promise settles. *)
Definition settles {A} (m : M pf A) : Prop :=
  forall w, fst (m w) <> Unsettled.

(** The polls [pollStatus] has left when its counter is [count]. *)
Definition polls_left (me : Client) (count : Z) : nat :=
  Z.to_nat (MAX_POLL me - count).

(** An error with the code of [agree]. *)
Definition coded (e : JsError) : Prop :=
  exists message, e = Error message (Some "E_AGREE_TOS").

(** A step that rejects with no such error. *)
Definition uncoded {A} (m : M pf A) : Prop :=
  forall w e, fst (m w) = Rejected e -> ~ coded e.

(** What reading [me._nonces.shift] throws when [me] has no [_nonces]. *)
Definition missing_client : JsError :=
  TypeError "Cannot read property 'shift' of undefined".

End Notions.

Arguments accounted {pf} w.
Arguments polls_at_most {pf A} auth k m.
Arguments settles {pf A} m.
Arguments uncoded {pf A} m.

(** ** A scripted platform, to run the definitions on *)

Module Mock.

Record state := { clock : Z; replies : list (Reply Response) }.

Definition answer (q : Request) (x : state) : Reply Response * state :=
  match replies x with
  | r :: rest => (r, {| clock := clock x + 1; replies := rest |})
  | [] => (Fail (JStr "no reply"), x)
  end.

Definition elapse (ms : Z) (x : state) : state :=
  {| clock := clock x + ms; replies := replies x |}.

Definition digest (name : string) (data : list Byte.byte) : Reply (list Byte.byte) :=
  if String.eqb name "SHA-256" then Ok (rev data) else Fail (JStr "NotSupportedError").

Definition text (j : Json) : string :=
  match j with
  | JStr s => s
  | _ => "?"
  end.

Definition key : Json := JObj [("kty", JStr "EC")].

Definition platform (arity : nat) (tosUrl : Json) : Platform :=
  {| Ext := state;
     Date_now := clock;
     request := answer;
     setTimeout := elapse;
     signJws := fun _ x => (Ok (JObj [("signature", JStr "s")]), x);
     Keypairs_thumbprint := fun _ => Ok "thumb";
     Keypairs_neuter := fun j => Ok j;
     Keypairs_import := fun _ => Returned (Ok (key, key));
     generateCsrWeb64 := fun _ _ => Ok "csr";
     subtle_digest := digest;
     JSON_stringify := text;
     JSON_stringify_2 := text;
     ToString := text;
     prnd := fun _ x => ("00000000", x);
     agreeToTerms_length := arity;
     agreeToTerms_promise := fun _ x => (Ok tosUrl, x);
     agreeToTerms_callback := fun _ x => ((JUndefined, tosUrl), x);
     agreeToTerms_calls_back_at_once := false;
     removeChallenge_length := 1;
     removeChallenge := fun _ x => x |}.

Definition me : Client :=
  {| directoryUrl := JStr "https://ca.test/directory";
     newNonce := JStr "https://ca.test/new-nonce";
     newAccount := JStr "https://ca.test/new-account";
     newOrder := JStr "https://ca.test/new-order";
     _tos := Some "https://ca.test/tos";
     retryInterval := None; deauthWait := None;
     retryPoll := None; retryPending := None |}.

Definition opts : Options :=
  {| accountKeypair := {| privateKeyJwk := key; privateKeyPem := JUndefined;
                          publicKeyJwk := key |};
     contact := None; email := Some "a@ca.test"; externalAccount := None;
     domains := ["example.test"]; domainKeypair := key;
     _kid := JStr "https://ca.test/acct/1"; _expires := JUndefined;
     _certificate := JUndefined; _finalize := JStr "https://ca.test/finalize/1" |}.

Definition world (arity : nat) (tosUrl : Json) (t : Z)
    (cache : list NonceEntry) (script : list (Reply Response))
  : World (platform arity tosUrl) :=
  {| ext := ({| clock := t; replies := script |} : Ext (platform arity tosUrl));
     nonces := cache; options := opts;
     removeChallengeWarn := false; trace := [] |}.

Definition reply (code : Z) (hs : list (string * string)) (b : Json) : Reply Response :=
  Ok {| statusCode := code; headers := list_to_map hs; body := b |}.

Definition challenge : Challenge :=
  {| ch_type := "http-01"; ch_status := "pending";
     ch_url := "https://ca.test/chall/1"; ch_token := "tok" |}.

Definition authz : Authorization :=
  {| az_identifier := {| id_type := "dns"; id_value := "example.test" |};
     az_status := "pending"; az_expires := "2030-01-01T00:00:00Z";
     az_challenges := [challenge]; az_wildcard := false |}.

Definition auth : Auth :=
  {| identifier := az_identifier authz; status := "pending";
     expires := az_expires authz; challenges := [challenge]; wildcard := false;
     type := "http-01"; auth_url := ch_url challenge; token := "tok";
     hostname := "example.test"; altname := "example.test";
     thumbprint := "thumb"; keyAuthorization := "tok.thumb";
     challengeUrl := "http://example.test/.well-known/acme-challenge/tok";
     dnsHost := "_acme-challenge.example.test"; dnsAuthorization := "" |}.

Definition with_status (st : string) (n : string) : Reply Response :=
  reply 200 [("replay-nonce", n)] (JObj [("status", JStr st)]).

(** The server of scenario S3: four polls answer [pending], the fifth
    [valid]. *)
Definition pending_four_times : list (Reply Response) :=
  [with_status "pending" "n1"; with_status "pending" "n2";
   with_status "pending" "g1";
   with_status "pending" "n3"; with_status "pending" "g2";
   with_status "pending" "n4"; with_status "pending" "g3";
   with_status "pending" "n5"; with_status "pending" "g4";
   with_status "deactivated" "n6"; with_status "pending" "n7";
   with_status "valid" "g5"].

(** A server that answers [processing] for ever. *)
Definition always_processing : list (Reply Response) :=
  replicate 12 (with_status "processing" "n").

Definition order_invalid : list (Reply Response) :=
  [with_status "invalid" "n1"; with_status "invalid" "n2"].

(** The terms of service of [me], and a URL that is not theirs. *)
Definition tos : Json := JStr "https://ca.test/tos".
Definition other : Json := JStr "https://elsewhere.test/tos".

(** The platform of a caller who agrees through the promise API. *)
Definition pf : Platform := platform 1 tos.

Definition fresh : Response :=
  {| statusCode := 200; headers := {["replay-nonce" := "n1"]}; body := JUndefined |}.

Definition cached : NonceEntry := {| nonce := "n0"; createdAt := 900 |}.

Definition post : BigOpts :=
  {| b_url := JStr "https://ca.test/new-order";
     b_protected := protected_kid (JStr "https://ca.test/acct/1");
     b_payload := PayloadDoc (JObj []) |}.

Definition w_hit : World pf := world 1 tos 1000 [cached] [Ok fresh].
Definition w_miss : World pf := world 1 tos 1000 [] [Ok fresh; Ok fresh].
Definition w_idle : World pf := world 1 tos 0 [] [].
Definition w_processing : World pf := world 1 tos 0 [] always_processing.
Definition w_pending : World pf := world 1 tos 0 [] pending_four_times.
Definition w_invalid : World pf := world 1 tos 0 [] order_invalid.

(** A server that hands out three different nonces. *)
Definition three_nonces : Ext pf :=
  {| clock := 1000;
     replies := [Ok fresh; reply 200 [("replay-nonce", "n2")] JNull;
                 reply 200 [("replay-nonce", "n3")] JNull] |}.

Definition chall : Json := JStr "https://ca.test/chall/1".
Definition accept : Transcript.Step := Transcript.Signed (PayloadDoc (JObj [])).
Definition withdraw : Transcript.Step :=
  Transcript.Signed (PayloadDoc (JObj [("status", JStr "deactivated")])).

(** The server of a registration: a nonce, then the account. *)
Definition created : list (Reply Response) :=
  [reply 200 [("replay-nonce", "n1")] JUndefined;
   reply 201 [("replay-nonce", "n2"); ("location", "https://ca.test/acct/7")]
     (JObj [("status", JStr "valid")])].

Definition agreed : World pf := world 1 tos 0 [] created.
Definition refused : World (platform 2 other) := world 2 other 0 [] created.

Definition account_doc : Json :=
  JObj [("termsOfServiceAgreed", JBool true);
        ("onlyReturnExisting", JBool false);
        ("contact", JArr [JStr "mailto:a@ca.test"])].

(** The account key once [agree] has set [key_ops] and [ext] to
    [undefined]. *)
Definition scrubbed : Json :=
  JObj [("kty", JStr "EC"); ("key_ops", JUndefined); ("ext", JUndefined)].

End Mock.

(** ** More of the source

    What the statements of the second part need beside the definitions
    above: shapes of texts, and the functions of [lib/acme.js] that the
    first part leaves out. *)

Module PemShape.
Import Js.

(** No two line breaks in a row: a text without an empty line. *)
Fixpoint gapless (s : list ascii) : bool :=
  match s with
  | [] => true
  | c :: r =>
      match r with
      | d :: _ => negb (is_eol c && is_eol d)
      | [] => true
      end && gapless r
  end.

Definition ends_eol (s : list ascii) : bool :=
  match last s with
  | Some y => is_eol y
  | None => false
  end.

(** A text that neither begins nor ends with white space. *)
Definition tidy (s : list ascii) : Prop :=
  match s with
  | x :: _ => is_space x = false
  | [] => True
  end
  /\ match last s with
     | Some y => is_space y = false
     | None => True
     end.

Definition no_cr (s : list ascii) : bool := forallb (fun c => negb (ceq c CR)) s.

End PemShape.

(** *** The certificate bundle

    The last callback of [ACME._getCertificate]: what it makes of the
    finalized order and of the answer to the GET of the certificate. *)

Module Bundle.

Record Certs := {
  expires : Json;
  identifiers : Json;
  cert : option string;
  chain : string
}.

(** [(resp.body||'')] as the argument of [ACME.formatPemChain], which
    calls [str.trim()] on it. *)
Definition pem_text (body : Json) : Try string :=
  if Val.truthy body
  then match body with
       | JStr s => Done s
       | _ => Throw (TypeError "str.trim is not a function")
       end
  else Done "".

(** [arr.shift()] and what is left of [arr]. *)
Definition shift {A} (arr : list A) : option A * list A :=
  match arr with
  | [] => (None, [])
  | x :: rest => (Some x, rest)
  end.

Definition certs (order : Json) (resp : Response) : Try Certs :=
  match pem_text (body resp) with
  | Throw e => Throw e
  | Done text =>
      let certsarr := Pem.splitPemChain (Pem.formatPemChain text) in
      match Val.prop order "expires" with
      | Throw e => Throw e
      | Done exp =>
          match Val.prop order "identifiers" with
          | Throw e => Throw e
          | Done ids =>
              let (first, certsarr') := shift certsarr in
              Done {| expires := exp;
                      identifiers := ids;
                      cert := first;
                      chain := Js.join Val.nl certsarr' |}
          end
      end
  end.

(** An answer whose body is the PEM text of [bs]. *)
Definition pem_response (bs : list Pem.Block) : Response :=
  {| statusCode := 200; headers := ∅; body := JStr (Js.str (Pem.chain_text bs)) |}.

Definition order_doc : Json :=
  JObj [("status", JStr "valid"); ("expires", JStr "2026-02-01T00:00:00Z");
        ("identifiers", JArr [JObj [("type", JStr "dns"); ("value", JStr "example.com")]])].

End Bundle.

(** *** [ACME._chooseChallenge] and the challenges of the dry run *)

Section Choose.

(** The challenge objects, of the server or of the dry run, and their
    [type]. *)
Context {C : Type} (type_of : C -> string).

(** [challenges.some(function (ch) { if (ch.type === chType) { challenge = ch; return true; } })]:
    the first challenge of the type, where [some] stops. *)
Fixpoint offered (chType : string) (challenges : list C) : option C :=
  match challenges with
  | [] => None
  | ch :: rest =>
      if String.eqb (type_of ch) chType then Some ch else offered chType rest
  end.

Fixpoint _chooseChallenge (challengeTypes : list string) (challenges : list C)
  : option C :=
  match challengeTypes with
  | [] => None
  | chType :: rest =>
      match offered chType challenges with
      | Some ch => Some ch
      | None => _chooseChallenge rest challenges
      end
  end.

End Choose.

Module DryRun.

(** The objects [ACME._testChallengeOptions] makes; [_wildcard] is
    [false] where the source leaves the key out. *)
Record TestChallenge := {
  type : string;
  status : string;
  url : string;
  token : string;
  _wildcard : bool
}.

(** [chToken] is the value of [ACME._prnd(16)]. *)
Definition _testChallengeOptions (chToken : string) : list TestChallenge :=
  [ {| type := "http-01"; status := "pending";
       url := "https://acme-staging-v02.example.com/0";
       token := "test-" +:+ chToken +:+ "-0"; _wildcard := false |};
    {| type := "dns-01"; status := "pending";
       url := "https://acme-staging-v02.example.com/1";
       token := "test-" +:+ chToken +:+ "-1"; _wildcard := true |};
    {| type := "tls-sni-01"; status := "pending";
       url := "https://acme-staging-v02.example.com/2";
       token := "test-" +:+ chToken +:+ "-2"; _wildcard := false |};
    {| type := "tls-alpn-01"; status := "pending";
       url := "https://acme-staging-v02.example.com/3";
       token := "test-" +:+ chToken +:+ "-3"; _wildcard := false |} ].

(** [s.includes(needle)] *)
Fixpoint includes (needle s : string) : bool :=
  String.prefix needle s
  || match s with
     | EmptyString => false
     | String _ r => includes needle r
     end.

(** [x || 'none'] for a text. *)
Definition or_none (x : string) : string :=
  if String.eqb x "" then "none" else x.

(** The first part of the callback [ACME._testChallenges] maps over
    [options.domains]: the challenge the dry run of [identifierValue]
    uses, [Throw] standing for the [Promise.reject] of the callback. *)
Definition challenge_of (challengeTypes : list string) (identifierValue chToken : string)
  : Try TestChallenge :=
  let challenges := _testChallengeOptions chToken in
  let challenges :=
    if includes "*" identifierValue then filter (fun ch => _wildcard ch = true) challenges
    else challenges in
  match _chooseChallenge type challengeTypes challenges with
  | Some challenge => Done challenge
  | None =>
      let enabled := or_none (Js.join ", " challengeTypes) in
      let suitable := or_none (Js.join ", " (map type challenges)) in
      Throw (Error
        ("None of the challenge types that you've enabled ( " +:+ enabled +:+ " )"
         +:+ " are suitable for validating the domain you've selected ("
         +:+ identifierValue +:+ ")."
         +:+ " You must enable one of ( " +:+ suitable +:+ " ).") None)
  end.

End DryRun.

Module DryRunNotions.

(** The [dns-01] challenge of a dry run. *)
Definition dns_challenge (chToken : string) : DryRun.TestChallenge :=
  {| DryRun.type := "dns-01"; DryRun.status := "pending";
     DryRun.url := "https://acme-staging-v02.example.com/1";
     DryRun.token := "test-" +:+ chToken +:+ "-1"; DryRun._wildcard := true |}.

Definition unsuitable (challengeTypes : list string) (identifierValue : string) : JsError :=
  Error
    ("None of the challenge types that you've enabled ( "
     +:+ DryRun.or_none (Js.join ", " challengeTypes) +:+ " )"
     +:+ " are suitable for validating the domain you've selected ("
     +:+ identifierValue +:+ ")."
     +:+ " You must enable one of ( dns-01 ).") None.

End DryRunNotions.

(** *** What the drivers leave behind *)

Section DriverNotions.

Context (pf : Platform).

(** The calls of [options.removeChallenge] a transcript records. *)
Fixpoint removals (tr : list Event) : nat :=
  match tr with
  | [] => 0
  | EvRemoveChallenge _ :: rest => S (removals rest)
  | _ :: rest => removals rest
  end.

(** A step that does not call [options.removeChallenge]. *)
Definition calm {A} (m : M pf A) : Prop :=
  forall w, removals (trace (snd (m w))) = removals (trace w).

(** The calls the [valid] branch of [pollStatus] makes: one when
    [options.removeChallenge] takes one or two arguments. *)
Definition removal_due : nat :=
  if Nat.eqb (removeChallenge_length pf) 1 || Nat.eqb (removeChallenge_length pf) 2
  then 1 else 0.

(** A step that calls [options.removeChallenge] when it fulfils, and
    only then. *)
Definition cleans_up {A} (m : M pf A) : Prop :=
  forall w,
    removals (trace (snd (m w)))
    = (removals (trace w)
       + match fst (m w) with
         | Fulfilled _ => removal_due
         | _ => 0
         end)%nat.

(** A step that fulfils only with a document whose [status] is
    ['valid']. *)
Definition valid_only (m : M pf Json) : Prop :=
  forall w doc w',
    m w = (Fulfilled doc, w') ->
    exists st, Val.prop doc "status" = Done st /\ Val.is_str "valid" st = true.

End DriverNotions.

Arguments calm {pf A} m.
Arguments cleans_up {pf A} m.
Arguments valid_only {pf} m.

(** *** More scripted servers *)

Module Script.

(** An order that is [processing] once and [valid] then. *)
Definition valid_order : Json :=
  JObj [("status", JStr "valid"); ("expires", JStr "2030-01-01T00:00:00Z");
        ("certificate", JStr "https://ca.test/cert/1")].

Definition order_valid_at_second : list (Reply Response) :=
  [Mock.with_status "processing" "n1"; Mock.with_status "processing" "n2";
   Mock.reply 200 [("replay-nonce", "n3")] valid_order].

Definition w_order : World Mock.pf := Mock.world 1 Mock.tos 0 [] order_valid_at_second.

(** A platform whose [Keypairs.import] fails, and a caller who gives the
    account key as PEM only. *)
Definition no_import : Platform :=
  {| Ext := Mock.state;
     Date_now := Mock.clock;
     request := Mock.answer;
     setTimeout := Mock.elapse;
     signJws := fun _ x => (Ok (JObj [("signature", JStr "s")]), x);
     Keypairs_thumbprint := fun _ => Ok "thumb";
     Keypairs_neuter := fun j => Ok j;
     Keypairs_import := fun _ => Returned (Fail (JStr "not a PEM"));
     generateCsrWeb64 := fun _ _ => Ok "csr";
     subtle_digest := Mock.digest;
     JSON_stringify := Mock.text;
     JSON_stringify_2 := Mock.text;
     ToString := Mock.text;
     prnd := fun _ x => ("00000000", x);
     agreeToTerms_length := 1;
     agreeToTerms_promise := fun _ x => (Ok Mock.tos, x);
     agreeToTerms_callback := fun _ x => ((JUndefined, Mock.tos), x);
     agreeToTerms_calls_back_at_once := false;
     removeChallenge_length := 1;
     removeChallenge := fun _ x => x |}.

Definition pem_only : Options :=
  {| accountKeypair := {| privateKeyJwk := JUndefined; privateKeyPem := JStr "garbage";
                          publicKeyJwk := JUndefined |};
     contact := None; email := Some "a@ca.test"; externalAccount := None;
     domains := ["example.test"]; domainKeypair := Mock.key;
     _kid := JUndefined; _expires := JUndefined;
     _certificate := JUndefined; _finalize := JUndefined |}.

Definition w_pem : World no_import :=
  {| ext := ({| Mock.clock := 0; Mock.replies := Mock.created |} : Ext no_import);
     nonces := []; options := pem_only;
     removeChallengeWarn := false; trace := [] |}.

(** A platform whose [Keypairs] is the empty object the source falls back
    on, so that the call of [Keypairs.import] throws, and a caller of the
    callback API who calls back before [agreeToTerms] returns. *)
Definition no_keypairs : Platform :=
  {| Ext := Mock.state;
     Date_now := Mock.clock;
     request := Mock.answer;
     setTimeout := Mock.elapse;
     signJws := fun _ x => (Ok (JObj [("signature", JStr "s")]), x);
     Keypairs_thumbprint := fun _ => Fail (JStr "Keypairs.thumbprint is not a function");
     Keypairs_neuter := fun _ => Fail (JStr "Keypairs.neuter is not a function");
     Keypairs_import := fun _ => Threw (JStr "Keypairs.import is not a function");
     generateCsrWeb64 := fun _ _ => Ok "csr";
     subtle_digest := Mock.digest;
     JSON_stringify := Mock.text;
     JSON_stringify_2 := Mock.text;
     ToString := Mock.text;
     prnd := fun _ x => ("00000000", x);
     agreeToTerms_length := 2;
     agreeToTerms_promise := fun _ x => (Ok Mock.tos, x);
     agreeToTerms_callback := fun _ x => ((JUndefined, Mock.tos), x);
     agreeToTerms_calls_back_at_once := true;
     removeChallenge_length := 1;
     removeChallenge := fun _ x => x |}.

Definition w_at_once (o : Options) : World no_keypairs :=
  {| ext := ({| Mock.clock := 0; Mock.replies := Mock.created |} : Ext no_keypairs);
     nonces := []; options := o;
     removeChallengeWarn := false; trace := [] |}.

(** A server that answers every request with the same [replay-nonce]. *)
Definition one_nonce : Ext Mock.pf :=
  {| Mock.clock := 1000; Mock.replies := [Ok Mock.fresh; Ok Mock.fresh; Ok Mock.fresh] |}.

(** The server of a registration whose account is the empty array. *)
Definition w_array : World Mock.pf :=
  Mock.world 1 Mock.tos 0 []
    [Mock.reply 200 [("replay-nonce", "n1")] JUndefined;
     Mock.reply 201 [("replay-nonce", "n2"); ("location", "https://ca.test/acct/7")]
       (JArr [])].

(** The authorization of a dry run for [example.test]. *)
Definition dry_auth : Auth :=
  {| identifier := az_identifier Mock.authz; status := "pending";
     expires := az_expires Mock.authz; challenges := [Mock.challenge];
     wildcard := false;
     type := "http-01"; auth_url := ch_url Mock.challenge; token := "tok";
     hostname := "example.test"; altname := "example.test";
     thumbprint := "thumb"; keyAuthorization := "tok.thumb";
     challengeUrl := "http://example.test/.well-known/acme-challenge/tok";
     dnsHost := "_greenlock-dryrun-00000000.example.test";
     dnsAuthorization := Enc.base64url (rev (Enc.utf8 "tok.thumb")) |}.

End Script.

(** *** What a signed request puts on the wire *)

Section WireNotions.

Context (pf : Platform).

(** The options [ACME._request] hands to [me.request] when it is called
    with [{ url: u, json: jws }]. *)
Definition posted (u jws : Json) : Request :=
  if Val.truthy jws && negb (is_true jws)
  then {| method := Some POST; url := u; json := jws;
          req_headers := Some (<["Content-Type" := "application/jose+json"]> ∅);
          req_body := Some (JSON_stringify pf jws) |}
  else {| method := None; url := u; json := jws;
          req_headers := Some ∅; req_body := None |}.

(** The argument [ACME._jwsRequest] hands to [me.Keypairs.signJws] once
    it has the nonce [n]. *)
Definition to_sign (o : Options) (b : BigOpts) (n : NonceValue) : SignArgs :=
  {| s_jwk := privateKeyJwk (accountKeypair o);
     s_secret := JUndefined;
     s_protected := with_nonce (b_protected b) n (b_url b);
     s_payload := b_payload b |}.

(** The events of [ACME._getNonce] when it succeeds: none, or the HEAD
    of [newNonce] and its answer. *)
Definition nonce_events (c : Client) (pre : list Event) : Prop :=
  pre = [] \/ exists resp0, pre = [EvRequest (head_request c) (Ok resp0)].

(** The promise of a transport call that got the reply [r]. *)
Definition outcome (r : Reply Response) : Settled Response :=
  match r with
  | Ok resp => Fulfilled resp
  | Fail reason => Rejected (Foreign reason)
  end.

End WireNotions.

(** *** [ACME._getCertificate], up to the dry run

    The options the checks at the top of [_getCertificate] read beside
    those of [Options], and [options.subject].  [challenges_keys] is
    the list of the keys of [options.challenges]; the two account values
    and the subject are never written by the source. *)

Record OrderOptions := {
  challengeTypes : option (list string);
  challenges_keys : option (list string);
  challengeType : option string;
  accountKid : Json;
  account : Json;
  subject : option string
}.

Section GetCertificate.

Context (pf : Platform).

(** [Array.prototype.sort] of the engine. *)
Variable sort : (string -> string -> Z) -> list string -> list string.

Variable me : Client.

(** What follows the checks, from [ACME._testChallenges] on, given the
    options as the checks leave them. *)
Variable order : OrderOptions -> M pf Bundle.Certs.

Local Notation "'let*' x ':=' m 'in' k" := (bind pf m (fun x => k))
  (at level 10, x name, m at level 100, k at level 200, only parsing).

(** The comparison function of [options.challengeTypes.sort]. *)
Definition by_preference (preferred a b : string) : Z :=
  if String.eqb a preferred then -1
  else if String.eqb b preferred then 1
  else 0.

Definition with_types (oo : OrderOptions) (types : list string) : OrderOptions :=
  {| challengeTypes := Some types;
     challenges_keys := challenges_keys oo;
     challengeType := challengeType oo;
     accountKid := accountKid oo;
     account := account oo;
     subject := subject oo |}.

(** [options.challengeType] when it is truthy. *)
Definition preferred_type (oo : OrderOptions) : option string :=
  match challengeType oo with
  | Some t => if String.eqb t "" then None else Some t
  | None => None
  end.

(** The first two statements: [options.challengeTypes] once it has been
    filled from [options.challenges] and [options.challengeType]. *)
Definition supplied_types (oo : OrderOptions) : list string :=
  let types :=
    match challengeTypes oo with
    | Some (t :: rest) => t :: rest
    | _ => default [] (challenges_keys oo)
    end in
  match types with
  | [] => match preferred_type oo with
          | Some t => [t]
          | None => []
          end
  | _ => types
  end.

Definition mismatch (preferred : string) (types : list string) : JsError :=
  Error ("options.challengeType is '" +:+ preferred +:+ "',"
         +:+ " which does not exist in the supplied types '"
         +:+ Js.join "," types +:+ "'") None.

Definition no_types : JsError :=
  Error ("options.challengeTypes (string array) must be specified"
         +:+ " (and in order of preferential priority).") None.

Definition no_domains : JsError :=
  Error ("options.domains must be a list of string domain names,"
         +:+ " with the first being the subject of the domain"
         +:+ " (or options.subject must specified).") None.

(** The checks on the challenge types and the domains: the value of
    [options.challengeTypes] they leave, and the error of the
    [Promise.reject] they return, if any. *)
Definition check_options (oo : OrderOptions) (domains : list string)
  : list string * option JsError :=
  let types := supplied_types oo in
  let types :=
    match preferred_type oo with
    | Some t => sort (by_preference t) types
    | None => types
    end in
  match preferred_type oo, types with
  | Some t, first :: _ =>
      if String.eqb t first
      then (types, match domains with [] => Some no_domains | _ => None end)
      else (types, Some (mismatch t types))
  | Some t, [] => (types, Some (mismatch t types))
  | None, [] => (types, Some no_types)
  | None, _ :: _ => (types, match domains with [] => Some no_domains | _ => None end)
  end.

(** [options.accountKid || options.account && options.account.kid] *)
Definition known_kid (oo : OrderOptions) : Try Json :=
  if Val.truthy (accountKid oo) then Done (accountKid oo)
  else if Val.truthy (account oo) then Val.prop (account oo) "kid"
  else Done (account oo).

Fixpoint _getCertificate (fuel : nat) (oo : OrderOptions) {struct fuel}
  : M pf Bundle.Certs :=
  match fuel with
  | O => never pf
  | S fuel' =>
      let* o := get_options pf in
      let (types, failure) := check_options oo (domains o) in
      let oo' := with_types oo types in
      match failure with
      | Some e => reject pf e
      | None =>
          let* kid := attempt pf (known_kid oo') in
          if Val.truthy kid
          then let* _ := set_options pf (set_kid o kid) in
               order oo'
          else let* _ := _registerAccount pf me in
               _getCertificate fuel' oo'
      end
  end.

End GetCertificate.

(** *** [ACME._getCertificate], from the dry run to the new order *)

Section NewOrder.

Context (pf : Platform).
Variable sort : (string -> string -> Z) -> list string -> list string.
Variable me : Client.

(** [ACME._testChallenges(me, options)]. *)
Variable testChallenges : M pf unit.

(** The callback that receives the answer to the newOrder request. *)
Variable ordered : Response -> M pf Bundle.Certs.

Local Notation "'let*' x ':=' m 'in' k" := (bind pf m (fun x => k))
  (at level 10, x name, m at level 100, k at level 200, only parsing).

(** The comparison function of [options.domains.sort]. *)
Definition by_subject (subject : option string) (a b : string) : Z :=
  match subject with
  | None => 0
  | Some s =>
      if String.eqb s "" then 0
      else if String.eqb s a then -1
      else if String.eqb s b then 1
      else 0
  end.

Definition set_domains (o : Options) (l : list string) : Options :=
  {| accountKeypair := accountKeypair o;
     contact := contact o; email := email o;
     externalAccount := externalAccount o; domains := l;
     domainKeypair := domainKeypair o; _kid := _kid o;
     _expires := _expires o; _certificate := _certificate o;
     _finalize := _finalize o |}.

Definition order_body (hostnames : list string) : Json :=
  JObj [("identifiers",
         JArr (map (fun hostname => JObj [("type", JStr "dns"); ("value", JStr hostname)])
                   hostnames))].

(** The steps after the checks: the dry run, then the callback that
    sorts the domains, makes the body of the order and calls
    [ACME._jwsRequest({ ... })], with the literal as its only argument
    as the drivers do.  [options._kty] and [options._alg], which the
    callback writes and nothing reads, are left out. *)
Definition order (oo : OrderOptions) : M pf Bundle.Certs :=
  let* _ := testChallenges in
  let* o := get_options pf in
  let sorted := sort (by_subject (subject oo)) (domains o) in
  let* _ := set_options pf (set_domains o sorted) in
  let* resp := jwsRequest_literal pf
                 {| b_url := newOrder me;
                    b_protected := protected_kid (_kid o);
                    b_payload := PayloadDoc (order_body sorted) |} in
  ordered resp.

End NewOrder.

(** An engine whose [sort] is the stable insertion sort. *)
Module Engine262.

Fixpoint insert (cmp : string -> string -> Z) (x : string) (l : list string)
  : list string :=
  match l with
  | [] => [x]
  | y :: rest => if cmp x y <=? 0 then x :: y :: rest else y :: insert cmp x rest
  end.

Definition sort (cmp : string -> string -> Z) (l : list string) : list string :=
  foldr (insert cmp) [] l.

End Engine262.

(** *** [me.init] *)

Module Init.

(** The three properties of [me] that [init] reads and writes. *)
Record Me := {
  directoryUrl : Json;
  _directoryUrls : Json;
  _tos : Json
}.

(** [fin(dir)]: the client it leaves, and what it returns or throws.
    [me._directoryUrls] is assigned before [dir.meta] is read. *)
Definition fin (me : Me) (dir : Json) : Me * Try Json :=
  let me1 := {| directoryUrl := directoryUrl me; _directoryUrls := dir; _tos := _tos me |} in
  match Val.prop dir "meta" with
  | Throw e => (me1, Throw e)
  | Done meta =>
      match Val.prop meta "termsOfService" with
      | Throw e => (me1, Throw e)
      | Done tos =>
          ({| directoryUrl := directoryUrl me; _directoryUrls := dir; _tos := tos |},
           Done dir)
      end
  end.

(** [x && x.k] for a value whose truth has been tested. *)
Definition and_prop (x : Json) (k : string) : Json :=
  if Val.truthy x
  then match Val.prop x k with
       | Done v => v
       | Throw _ => JUndefined
       end
  else x.

(** What a call of [init] does before it returns: it throws, it returns
    the promise [Promise.resolve(fin(opts))], or it returns the promise
    of [ACME._directory(me).then(...)]. *)
Inductive Step :=
| Threw (me : Me) (e : JsError)
| Resolved (me : Me) (dir : Json)
| Fetches (me : Me).

Definition no_directory : JsError :=
  Error ("you must supply either the ACME directory url as a string"
         +:+ " or an object of the ACME urls") None.

Definition is_string (j : Json) : bool :=
  match j with
  | JStr _ => true
  | _ => false
  end.

Definition init (me : Me) (opts : Json) : Step :=
  if Val.truthy opts && Val.truthy (and_prop opts "meta")
     && Val.truthy (and_prop opts "termsOfService")
  then match fin me opts with
       | (me1, Done dir) => Resolved me1 dir
       | (me1, Throw e) => Threw me1 e
       end
  else
    let me1 :=
      if Val.truthy (directoryUrl me) then me
      else {| directoryUrl := opts; _directoryUrls := _directoryUrls me;
              _tos := _tos me |} in
    if is_string (directoryUrl me1) then Fetches me1
    else Threw me1 no_directory.

(** The callback of [ACME._directory(me).then]. *)
Definition fetched (me : Me) (resp : Response) : Me * Try Json :=
  fin me (body resp).

(** A client fresh from [ACME.create] with no [directoryUrl]. *)
Definition created : Me :=
  {| directoryUrl := JUndefined; _directoryUrls := JUndefined; _tos := JUndefined |}.

(** A directory object as a server sends it. *)
Definition directory : Json :=
  JObj [("newNonce", JStr "https://ca.test/new-nonce");
        ("newAccount", JStr "https://ca.test/new-account");
        ("newOrder", JStr "https://ca.test/new-order");
        ("meta", JObj [("termsOfService", JStr "https://ca.test/tos")])].

End Init.

(** *** [ACME._prnd] and [ACME._toHex] *)

Module Prnd.
Import Js.

Definition is_digit (c : ascii) : bool := (48 <=? code c)%N && (code c <=? 57)%N.

Definition is_hex (c : ascii) : bool :=
  is_digit c || ((97 <=? code c)%N && (code c <=? 102)%N).

(** The digits [parseInt] reads, most significant first; [acc] is the
    value read so far, [None] before the first digit. *)
Fixpoint digits_value (acc : option Z) (s : list ascii) : option Z :=
  match s with
  | c :: r =>
      if is_digit c
      then digits_value (Some (10 * default 0 acc + (Z.of_N (code c) - 48))) r
      else acc
  | [] => acc
  end.

(** [parseInt(s, 10)]; [None] is [NaN]. *)
Definition parseInt10 (s : list ascii) : option Z :=
  match trimStart s with
  | c :: r =>
      if ceq c DASH then Z.opp <$> digits_value None r
      else if ceq c (chr 43) then digits_value None r
      else digits_value None (c :: r)
  | [] => None
  end.

Definition hex_char (d : N) : ascii := nth (N.to_nat d) (chars "0123456789abcdef") (chr 48).

Fixpoint hex_digits (fuel : nat) (n : N) (acc : list ascii) : list ascii :=
  match fuel with
  | O => acc
  | S fuel' =>
      let acc' := hex_char (n mod 16) :: acc in
      if (n / 16 =? 0)%N then acc' else hex_digits fuel' (n / 16) acc'
  end.

(** [v.toString(16)] for an integer or [NaN]. *)
Definition toString16 (v : option Z) : list ascii :=
  match v with
  | None => chars "NaN"
  | Some z =>
      let n := Z.to_N (Z.abs z) in
      let digits := hex_digits (S (N.to_nat (N.log2 n))) n [] in
      if z <? 0 then DASH :: digits else digits
  end.

Definition _toHex (pair : list ascii) : list ascii := toString16 (parseInt10 pair).

(** [num.match(/(..?)/g)]: [.] is any character but a line terminator;
    the empty list stands for [null]. *)
Fixpoint pairs (s : list ascii) : list (list ascii) :=
  match s with
  | [] => []
  | a :: r =>
      if is_eol a then pairs r
      else match r with
           | b :: r' => if is_eol b then [a] :: pairs r' else [a; b] :: pairs r'
           | [] => [[a]]
           end
  end.

Section Random.

(** [Math.random().toString()], one text for each call, and the state of
    the generator. *)
Context {Rand : Type} (random_text : Rand -> string * Rand).

(** The [while] loop; [None] when the model has no steps left. *)
Fixpoint loop (fuel n : nat) (rnd : list ascii) (x : Rand)
  : option (Try (list ascii)) * Rand :=
  if (length rnd <? 2 * n)%nat
  then match fuel with
       | O => (None, x)
       | S fuel' =>
           let (text, x1) := random_text x in
           let num := drop 2 (chars text) in
           let num := if Nat.odd (length num) then chr 48 :: num else num in
           match pairs num with
           | [] => (Some (Throw (TypeError "Cannot read property 'map' of null")), x1)
           | ps => loop fuel' n (rnd ++ concat (map _toHex ps)) x1
           end
       end
  else (Some (Done (take (2 * n) rnd)), x).

Definition _prnd (fuel n : nat) (x : Rand) : option (Try string) * Rand :=
  match loop fuel n [] x with
  | (Some (Done l), x') => (Some (Done (str l)), x')
  | (Some (Throw e), x') => (Some (Throw e), x')
  | (None, x') => (None, x')
  end.

(** A call of [Math.random().toString()] that gives [0.] and at least one
    decimal digit. *)
Definition decimal (x : Rand) : Prop :=
  exists ds, chars (fst (random_text x)) = chr 48 :: chr 46 :: ds
             /\ ds <> [] /\ forallb is_digit ds = true.

End Random.

(** A generator that always answers the same. *)
Definition fixed : unit -> string * unit := fun x => ("0.8241", x).

End Prnd.

(** A server that never finishes an order. *)
Module Stubborn.

Definition processing : Response :=
  {| statusCode := 200; headers := ∅; body := JObj [("status", JStr "processing")] |}.

Definition jwsRequest (b : BigOpts) : M Mock.pf Response := ret Mock.pf processing.

End Stubborn.

(** *** The request of the [http-01] self test *)

Module Probe.



(** A server that answers with JSON, the number 7. *)
Definition served_number : World Mock.pf :=
  Mock.world 1 Mock.tos 0 []
    [Mock.reply 200 [("content-type", "application/json")] (JNum 7)].


End Probe.

(** *** Texts put together again *)

Module PemJoin.
Import Js.

(** No three line breaks in a row. *)
Fixpoint no_triple (s : list ascii) : bool :=
  match s with
  | [] => true
  | a :: r =>
      match r with
      | b :: c :: _ => negb (is_eol a && is_eol b && is_eol c)
      | _ => true
      end && no_triple r
  end.

(** [parts.join(sep)] on lists of characters. *)
Fixpoint join_chars (sep : list ascii) (parts : list (list ascii)) : list ascii :=
  match parts with
  | [] => []
  | p :: rest =>
      match rest with
      | [] => p
      | _ => p ++ sep ++ join_chars sep rest
      end
  end.

End PemJoin.

Module Caller.

(** A caller who enables two challenge types, prefers the second, and
    names no account. *)
Definition prefers_dns : OrderOptions :=
  {| challengeTypes := Some ["http-01"; "dns-01"];
     challenges_keys := None;
     challengeType := Some "dns-01";
     accountKid := JUndefined;
     account := JUndefined;
     subject := None |}.

(** Two continuations that differ. *)
Definition stops : OrderOptions -> M Mock.pf Bundle.Certs := fun _ => never Mock.pf.
Definition fails : OrderOptions -> M Mock.pf Bundle.Certs :=
  fun _ => reject Mock.pf (Error "order" None).

End Caller.

(** * Properties *)

(** ** The PEM helpers *)

Module PemFacts.
Import Js Pem.

#[local] Arguments is_eol : simpl never.
#[local] Arguments is_space : simpl never.
#[local] Arguments ceq : simpl never.

Lemma ceq_eq a b : ceq a b = true -> a = b.
Proof. apply Ascii.eqb_eq. Qed.

Lemma eol_is_space c : is_eol c = true -> is_space c = true.
Proof.
  unfold is_eol. intros H. apply orb_true_iff in H as [H|H];
    apply ceq_eq in H; subst; reflexivity.
Qed.

Lemma eol_cases c : is_eol c = true -> ceq c CR = false -> c = LF.
Proof. unfold is_eol. intros H Hcr. rewrite Hcr in H. apply ceq_eq. exact H. Qed.

(** *** [trim] *)

Lemma trimStart_spaces A c B :
  forallb is_space A = true -> is_space c = false ->
  trimStart (A ++ c :: B) = c :: B.
Proof.
  induction A as [|a A IH]; simpl; intros HA Hc.
  - rewrite Hc. reflexivity.
  - apply andb_true_iff in HA as [Ha HA]. rewrite Ha. apply IH; assumption.
Qed.

Lemma trim_inner Y c E :
  is_space c = false ->
  forallb is_eol E = true ->
  trim (DASH :: Y ++ c :: E) = DASH :: Y ++ [c].
Proof.
  intros Hc HE. unfold trim. simpl trimStart.
  replace (is_space DASH) with false by reflexivity.
  unfold trimEnd.
  replace (rev (DASH :: Y ++ c :: E)) with (rev E ++ c :: rev (DASH :: Y)).
  2:{ change (DASH :: Y ++ c :: E) with ((DASH :: Y) ++ c :: E).
      rewrite rev_app_distr. simpl. rewrite <- app_assoc. reflexivity. }
  rewrite trimStart_spaces; [| |assumption].
  - change (rev (c :: rev (DASH :: Y))) with (rev (rev (DASH :: Y)) ++ [c]).
    rewrite rev_involutive. reflexivity.
  - rewrite forallb_forall in *. intros x Hx. apply eol_is_space, HE.
    apply in_rev. exact Hx.
Qed.

(** *** The three scans on a clean stretch of text *)

Lemma single_lf_tail a s : single_lf (a :: s) = true -> single_lf s = true.
Proof. simpl. intros H. apply andb_true_iff in H as [_ H]. exact H. Qed.

Lemma single_lf_after_eol a s :
  single_lf (a :: s) = true -> is_eol a = true -> a = LF /\ starts_clean s.
Proof.
  simpl. intros H Ha.
  apply andb_true_iff in H as [H Hs]. apply andb_true_iff in H as [Hcr Hpair].
  apply negb_true_iff in Hcr. pose proof (eol_cases a Ha Hcr) as ->.
  split; [reflexivity|].
  destruct s as [|d s]; simpl; [exact I|].
  simpl in Hs. apply andb_true_iff in Hs as [Hs _].
  apply andb_true_iff in Hs as [Hdcr _]. apply negb_true_iff in Hdcr.
  apply negb_true_iff in Hpair. replace (ceq LF LF) with true in Hpair by reflexivity.
  simpl in Hpair. unfold is_eol. rewrite Hdcr, Hpair. reflexivity.
Qed.

Lemma collapse_clean S c T st :
  single_lf (S ++ [c]) = true -> is_eol c = false ->
  (st = true -> starts_clean (S ++ [c])) ->
  collapse_eol st ((S ++ [c]) ++ T) = (S ++ [c]) ++ collapse_eol false T.
Proof.
  revert st. induction S as [|a S IH]; intros st Hs Hc Hst.
  - simpl. rewrite Hc. reflexivity.
  - simpl. destruct (is_eol a) eqn:Ha.
    + destruct st; [specialize (Hst eq_refl); simpl in Hst; congruence|].
      destruct (single_lf_after_eol _ _ Hs Ha) as [-> Hnext].
      f_equal. apply IH; [eapply single_lf_tail; exact Hs | assumption | auto].
    + f_equal. apply IH; [eapply single_lf_tail; exact Hs | assumption | discriminate].
Qed.

Lemma collapse_run E c T st :
  forallb is_eol E = true -> is_eol c = false ->
  collapse_eol st (E ++ c :: T)
  = (if st then [] else match E with [] => [] | _ => [LF] end)
      ++ collapse_eol false (c :: T).
Proof.
  revert st. induction E as [|e E IH]; intros st HE Hc.
  - simpl. rewrite Hc. destruct st; reflexivity.
  - simpl in HE. apply andb_true_iff in HE as [He HE].
    simpl. rewrite He. destruct st; rewrite IH by assumption; reflexivity.
Qed.

Lemma no_dash_gap_tail a s : no_dash_gap (a :: s) = true -> no_dash_gap s = true.
Proof.
  simpl. intros H. apply andb_true_iff in H as [_ H]. exact H.
Qed.

Lemma dash_gap_step a b c r :
  no_dash_gap (a :: b :: c :: r) = true ->
  dash_gap (a :: b :: c :: r) = a :: dash_gap (b :: c :: r).
Proof.
  intros H. simpl in H. apply andb_true_iff in H as [H _].
  apply negb_true_iff in H. cbn [dash_gap]. rewrite H. reflexivity.
Qed.

Lemma dash_gap_clean X :
  no_dash_gap (X ++ [DASH]) = true -> dash_gap (X ++ [DASH]) = X ++ [DASH].
Proof.
  induction X as [|a X IH]; intros H; [reflexivity|].
  destruct X as [|b X]; [reflexivity|].
  change (dash_gap (a :: (b :: X) ++ [DASH]) = a :: (b :: X) ++ [DASH]).
  destruct X as [|c X].
  - simpl in *. apply andb_true_iff in H as [H _]. apply negb_true_iff in H.
    rewrite H. reflexivity.
  - change (dash_gap (a :: b :: c :: X ++ [DASH]) = a :: (b :: c :: X) ++ [DASH]).
    rewrite dash_gap_step by exact H. f_equal. apply IH.
    eapply no_dash_gap_tail. exact H.
Qed.

Lemma dash_gap_boundary X T :
  no_dash_gap (X ++ [DASH]) = true ->
  dash_gap (X ++ DASH :: LF :: DASH :: T)
  = X ++ DASH :: LF :: LF :: DASH :: dash_gap T.
Proof.
  induction X as [|a X IH]; intros H.
  - reflexivity.
  - pose proof (no_dash_gap_tail _ _ H) as Htl.
    destruct X as [|b X].
    + simpl. replace (ceq DASH LF) with false by reflexivity.
      rewrite andb_false_r. simpl. f_equal; try apply (IH Htl).
    + destruct X as [|c X].
      * simpl in H. apply andb_true_iff in H as [H _]. apply negb_true_iff in H.
        change (dash_gap (a :: b :: DASH :: LF :: DASH :: T)
                = a :: [b] ++ DASH :: LF :: LF :: DASH :: dash_gap T).
        cbn [dash_gap]. rewrite H. f_equal. apply (IH Htl).
      * simpl in H. apply andb_true_iff in H as [H _]. apply negb_true_iff in H.
        change (dash_gap (a :: b :: c :: X ++ DASH :: LF :: DASH :: T)
                = a :: (b :: c :: X) ++ DASH :: LF :: LF :: DASH :: dash_gap T).
        cbn [dash_gap]. rewrite H. f_equal. apply (IH Htl).
Qed.

Lemma split_clean S c T cur :
  single_lf (S ++ [c]) = true -> is_eol c = false ->
  split_gaps false cur ((S ++ [c]) ++ T) = split_gaps false (cur ++ S ++ [c]) T.
Proof.
  revert cur. induction S as [|a S IH]; intros cur Hs Hc.
  - simpl. rewrite Hc. reflexivity.
  - pose proof (single_lf_tail _ _ Hs) as Htl.
    change (((a :: S) ++ [c]) ++ T) with (a :: (S ++ [c]) ++ T).
    cbn [split_gaps]. destruct (is_eol a) eqn:Ha.
    + destruct (single_lf_after_eol _ _ Hs Ha) as [-> Hnext].
      destruct ((S ++ [c]) ++ T) as [|d r] eqn:Hr.
      { destruct S; discriminate. }
      assert (Hd : is_eol d = false).
      { destruct S as [|s0 S]; simpl in Hr, Hnext; injection Hr as <- _; exact Hnext. }
      rewrite Hd, IH by assumption. rewrite <- app_assoc. reflexivity.
    + rewrite IH by assumption. rewrite <- app_assoc. reflexivity.
Qed.

(** *** Chains of blocks *)

Ltac flat := repeat (progress (cbn [app]; rewrite <- ?app_assoc)); try reflexivity.

Lemma body_shape B :
  pem_body B = true ->
  exists X, B = DASH :: X ++ [DASH]
            /\ single_lf B = true /\ no_dash_gap B = true.
Proof.
  destruct B as [|a r]; [discriminate|]. unfold pem_body.
  intros H. apply andb_true_iff in H as [H Hgap].
  apply andb_true_iff in H as [H Hlf]. apply andb_true_iff in H as [Ha Hend].
  apply ceq_eq in Ha. subst a. unfold ends_with_dash in Hend.
  destruct (rev r) as [|c l] eqn:Hrev; [discriminate|].
  apply ceq_eq in Hend. subst c.
  exists (rev l). split; [|split; assumption].
  f_equal. rewrite <- (rev_involutive r), Hrev. reflexivity.
Qed.

Lemma well_formed_shape b :
  well_formed b = true ->
  (exists X, body b = DASH :: X ++ [DASH]
             /\ single_lf (body b) = true /\ no_dash_gap (body b) = true)
  /\ eol b <> [] /\ forallb is_eol (eol b) = true.
Proof.
  unfold well_formed. intros H. apply andb_true_iff in H as [Hb He].
  split; [apply body_shape, Hb|].
  unfold eol_run in He. destruct (eol b); [discriminate|]. split; [discriminate | exact He].
Qed.

Lemma chain_split b rest :
  chain_text (b :: rest) = (body b ++ glue eol b rest) ++ last_eol b rest.
Proof.
  revert b. induction rest as [|b' r IH]; intros b.
  - unfold chain_text, block_text. simpl. rewrite !app_nil_r. reflexivity.
  - change (chain_text (b :: b' :: r)) with (block_text b ++ chain_text (b' :: r)).
    rewrite IH. unfold block_text. simpl. rewrite <- !app_assoc. reflexivity.
Qed.

Lemma last_eol_run b rest :
  well_formed b = true -> forallb well_formed rest = true ->
  forallb is_eol (last_eol b rest) = true.
Proof.
  revert b. induction rest as [|b' r IH]; intros b Hb Hr; simpl.
  - apply (well_formed_shape b Hb).
  - simpl in Hr. apply andb_true_iff in Hr as [Hb' Hr]. apply IH; assumption.
Qed.

Lemma glue_ends sep b rest :
  well_formed b = true -> forallb well_formed rest = true ->
  exists Y, body b ++ glue sep b rest = DASH :: Y ++ [DASH].
Proof.
  revert b. induction rest as [|b' r IH]; intros b Hb Hr.
  - destruct (well_formed_shape b Hb) as [(X & HX & _) _].
    exists X. simpl. rewrite app_nil_r. exact HX.
  - simpl in Hr. apply andb_true_iff in Hr as [Hb' Hr].
    destruct (IH b' Hb' Hr) as [Y' HY'].
    destruct (well_formed_shape b Hb) as [(X & HX & _) _].
    exists (X ++ [DASH] ++ sep b ++ DASH :: Y'). simpl. rewrite HY', HX. flat.
Qed.

Lemma collapse_chain b rest :
  well_formed b = true -> forallb well_formed rest = true ->
  collapse_eol false (body b ++ glue eol b rest)
  = body b ++ glue (fun _ => [LF]) b rest.
Proof.
  revert b. induction rest as [|b' r IH]; intros b Hb Hr.
  - destruct (well_formed_shape b Hb) as [(X & HX & Hlf & _) _].
    simpl. rewrite !app_nil_r. rewrite HX in *.
    pose proof (collapse_clean (DASH :: X) DASH [] false Hlf eq_refl) as H.
    rewrite !app_nil_r in H. apply H. discriminate.
  - simpl in Hr. apply andb_true_iff in Hr as [Hb' Hr].
    destruct (well_formed_shape b Hb) as [(X & HX & Hlf & _) (Hne & Hrun)].
    destruct (well_formed_shape b' Hb') as [(X' & HX' & _) _].
    specialize (IH b' Hb' Hr). simpl glue.
    rewrite HX in Hlf |- *.
    change (DASH :: X ++ [DASH]) with ((DASH :: X) ++ [DASH]).
    rewrite collapse_clean by (assumption || reflexivity || discriminate).
    f_equal.
    rewrite HX' at 1. simpl app at 2.
    rewrite collapse_run by (assumption || reflexivity).
    destruct (eol b) as [|e0 E]; [contradiction|].
    simpl app at 1. f_equal.
    rewrite <- IH, HX'. reflexivity.
Qed.

Lemma gap_chain X b rest :
  no_dash_gap (X ++ [DASH]) = true -> forallb well_formed rest = true ->
  dash_gap ((X ++ [DASH]) ++ glue (fun _ => [LF]) b rest)
  = (X ++ [DASH]) ++ glue (fun _ => [LF; LF]) b rest.
Proof.
  revert X b. induction rest as [|b' r IH]; intros X b HX Hr.
  - simpl. rewrite !app_nil_r. apply dash_gap_clean, HX.
  - simpl in Hr. apply andb_true_iff in Hr as [Hb' Hr].
    destruct (well_formed_shape b' Hb') as [(X' & HX' & _ & Hgap) _].
    simpl glue. rewrite HX'. rewrite HX' in Hgap.
    transitivity
      (dash_gap (X ++ DASH :: LF :: DASH :: (X' ++ [DASH]) ++ glue (fun _ => [LF]) b' r)).
    { f_equal. flat. }
    rewrite dash_gap_boundary by exact HX.
    rewrite IH by (try assumption; eapply no_dash_gap_tail; exact Hgap).
    flat.
Qed.

Lemma split_chain S b rest cur :
  single_lf (S ++ [DASH]) = true -> forallb well_formed rest = true ->
  split_gaps false cur ((S ++ [DASH]) ++ glue (fun _ => [LF; LF]) b rest)
  = (cur ++ S ++ [DASH]) :: map body rest.
Proof.
  revert S b cur. induction rest as [|b' r IH]; intros S b cur HS Hr.
  - rewrite split_clean by (assumption || reflexivity). reflexivity.
  - simpl in Hr. apply andb_true_iff in Hr as [Hb' Hr].
    destruct (well_formed_shape b' Hb') as [(X' & HX' & Hlf & _) _].
    rewrite split_clean by (assumption || reflexivity).
    simpl glue. rewrite HX'. rewrite HX' in Hlf.
    change ([LF; LF] ++ (DASH :: X' ++ [DASH]) ++ glue (fun _ => [LF; LF]) b' r)
      with (LF :: LF :: DASH :: (X' ++ [DASH]) ++ glue (fun _ => [LF; LF]) b' r).
    cbn [split_gaps].
    replace (is_eol LF) with true by reflexivity.
    replace (is_eol DASH) with false by reflexivity.
    f_equal.
    change ((DASH :: X' ++ [DASH]) ++ glue (fun _ => [LF; LF]) b' r)
      with (DASH :: (X' ++ [DASH]) ++ glue (fun _ => [LF; LF]) b' r).
    cbn [split_gaps].
    replace (is_eol DASH) with false by reflexivity.
    rewrite IH by (try assumption; eapply single_lf_tail; exact Hlf).
    simpl. rewrite HX'. reflexivity.
Qed.

Lemma chars_str l : chars (str l) = l.
Proof. apply list_ascii_of_string_of_list_ascii. Qed.

Lemma round_trip_chars b rest :
  well_formed b = true -> forallb well_formed rest = true ->
  splitPemChain_chars (formatPemChain_chars (chain_text (b :: rest)))
  = map normalized (b :: rest).
Proof.
  intros Hb Hr.
  destruct (well_formed_shape b Hb) as [(X & HX & Hlf & Hgap) _].
  unfold formatPemChain_chars. rewrite chain_split.
  destruct (glue_ends eol b rest Hb Hr) as [Y HY]. rewrite HY.
  replace (trim ((DASH :: Y ++ [DASH]) ++ last_eol b rest))
    with (trim (DASH :: Y ++ DASH :: last_eol b rest))
    by (f_equal; flat).
  rewrite trim_inner by (reflexivity || apply last_eol_run; assumption).
  rewrite <- HY, collapse_chain by assumption.
  rewrite HX in Hlf, Hgap |- *.
  change (DASH :: X ++ [DASH]) with ((DASH :: X) ++ [DASH]).
  rewrite gap_chain by assumption.
  unfold splitPemChain_chars.
  destruct (glue_ends (fun _ => [LF; LF]) b rest Hb Hr) as [Y2 HY2].
  rewrite HX in HY2. change (DASH :: X ++ [DASH]) with ((DASH :: X) ++ [DASH]) in HY2.
  rewrite HY2.
  replace (trim ((DASH :: Y2 ++ [DASH]) ++ [LF])) with (trim (DASH :: Y2 ++ DASH :: [LF]))
    by (f_equal; flat).
  rewrite trim_inner by reflexivity.
  rewrite <- HY2, split_chain by assumption.
  simpl. rewrite map_map. unfold normalized. rewrite HX. reflexivity.
Qed.

(** C9 (amended). For every non-empty list of PEM blocks, each a body
    that begins and ends with a dash, breaks its lines with single LFs
    and has no line ending in a dash before a line starting with one,
    followed by a non-empty run of line breaks,
    [splitPemChain(formatPemChain(...))] of their concatenation is the
    list of the bodies, each followed by one LF. *)
Theorem splitPemChain_formatPemChain_blocks (bs : list Block) :
  bs <> [] -> forallb well_formed bs = true ->
  splitPemChain (formatPemChain (str (chain_text bs)))
  = map (fun b => str (normalized b)) bs.
Proof.
  destruct bs as [|b rest]; [contradiction|]. intros _ Hwf.
  simpl in Hwf. apply andb_true_iff in Hwf as [Hb Hr].
  unfold splitPemChain, formatPemChain. rewrite !chars_str.
  rewrite round_trip_chars by assumption. rewrite map_map. reflexivity.
Qed.

End PemFacts.

(** ** The encoders *)

Module EncFacts.
Import Js Enc.

Lemma websafe_cons c s : websafe (c :: s) = websafe_char c ++ websafe s.
Proof.
  unfold websafe, websafe_char, remove_char, replace_char. simpl.
  rewrite filter_cons.
  destruct (ceq (if ceq (if ceq c PLUS then DASH else c) SLASH then UNDERSCORE
                 else if ceq c PLUS then DASH else c) EQUALS) eqn:He.
  - rewrite decide_False by congruence. reflexivity.
  - rewrite decide_True by reflexivity. reflexivity.
Qed.

Lemma websafe_digit n : websafe_char (digit std_alphabet n) = [digit url_alphabet n].
Proof.
  unfold digit.
  assert (Hk : (N.to_nat (n mod 64) < 64)%nat).
  { pose proof (N.mod_upper_bound n 64). lia. }
  generalize dependent (N.to_nat (n mod 64)). intros k Hk.
  do 64 (destruct k as [|k]; [reflexivity|]). lia.
Qed.

Lemma websafe_btoa s : websafe (btoa_chars s) = base64url_chars s.
Proof.
  enough (H : websafe (btoa_chars s) = base64url_chars s
              /\ (forall a, websafe (btoa_chars (a :: s)) = base64url_chars (a :: s))
              /\ (forall a b, websafe (btoa_chars (a :: b :: s))
                              = base64url_chars (a :: b :: s))) by apply H.
  induction s as [|c s (IH0 & IH1 & IH2)].
  - split; [reflexivity|]. split.
    + intros a. simpl. rewrite !websafe_cons, !websafe_digit. reflexivity.
    + intros a b. simpl. rewrite !websafe_cons, !websafe_digit. reflexivity.
  - split; [apply IH1|]. split; [intros a; apply IH2|].
    intros a b. cbn [btoa_chars base64url_chars].
    rewrite !websafe_cons, !websafe_digit, IH0. reflexivity.
Qed.


Example base64url_rfc4648 :
  bufToBase64 (utf8 "foob") = "Zm9vYg==" /\ bufToUrlBase64 (utf8 "foob") = "Zm9vYg"
  /\ bufToBase64 (utf8 "??>>") = "Pz8+Pg==" /\ bufToUrlBase64 (utf8 "??>>") = "Pz8-Pg"
  /\ bufToUrlBase64 (utf8 "???") = "Pz8_".
Proof. repeat split; reflexivity. Qed.

End EncFacts.

(** ** Running the monad *)

Ltac run :=
  unfold bind, ret, reject, never, lift, attempt, log, with_ext, set_nonces,
    set_options, get_nonces, get_options, now; simpl.

Section NonceCache.

Context (pf : Platform).
Implicit Types (c : Client) (w : World pf) (e : NonceEntry).

Lemma shift_fresh_spec t cache :
  match shift_fresh t cache with
  | (Some e, rest) =>
      exists old, cache = old ++ e :: rest /\ Forall (expired t) old
                  /\ t - createdAt e <= NONCE_LIFETIME
  | (None, rest) => rest = [] /\ Forall (expired t) cache
  end.
Proof.
  induction cache as [|e cache IH]; simpl.
  - split; [reflexivity | constructor].
  - destruct (Z.gtb_spec (t - createdAt e) NONCE_LIFETIME) as [Hold | Hnew].
    + destruct (shift_fresh t cache) as [[e'|] rest].
      * destruct IH as (old & -> & Hall & Hage).
        exists (e :: old). repeat split; [| assumption].
        constructor; [unfold expired; lia | assumption].
      * destruct IH as [-> Hall]. split; [reflexivity|].
        constructor; [unfold expired; lia | assumption].
    + exists []. repeat split; [constructor | assumption].
Qed.

Lemma lifetime_value : NONCE_LIFETIME = 900000.
Proof. reflexivity. Qed.

Lemma shift_fresh_skips t old e rest :
  Forall (expired t) old -> t - createdAt e <= NONCE_LIFETIME ->
  shift_fresh t (old ++ e :: rest) = (Some e, rest).
Proof.
  intros Hold Hnew. induction Hold as [|x old Hx _ IH]; simpl.
  - replace (t - createdAt e >? NONCE_LIFETIME) with false
      by (symmetry; rewrite Z.gtb_ltb; apply Z.ltb_ge; lia).
    reflexivity.
  - replace (t - createdAt x >? NONCE_LIFETIME) with true
      by (symmetry; rewrite Z.gtb_ltb; apply Z.ltb_lt; unfold expired in Hx; lia).
    exact IH.
Qed.

(** C3. [_getNonce] hands out the entry [_setNonce] pushed last (the
    cache is a stack whose top is the head of the list); entries it
    meets that are more than 15 minutes old are dropped, the first one
    that is not is returned and no request is made; when no such entry
    exists the cache is left empty, one HEAD request goes to the
    newNonce URL and the [replay-nonce] header of its response is the
    result.  So a cache entry that is handed out is at most 15 minutes
    old when it is. *)
Theorem getNonce_pops_newest_fresh_or_fetches c w :
  let t := Date_now pf (ext w) in
  NONCE_LIFETIME = 15 * 60 * 1000
  /\ (forall n,
       let pushed := {| nonce := n; createdAt := t |} in
       _setNonce pf (MeClient c) n w
         = (Fulfilled tt, with_nonces pf w (pushed :: nonces w))
       /\ _getNonce pf (MeClient c) (with_nonces pf w (pushed :: nonces w))
          = (Fulfilled (NonceRecord pushed), with_nonces pf w (nonces w)))
  /\ ((exists old e rest,
         nonces w = old ++ e :: rest
         /\ Forall (expired t) old
         /\ t - createdAt e <= NONCE_LIFETIME
         /\ _getNonce pf (MeClient c) w
            = (Fulfilled (NonceRecord e), with_nonces pf w rest))
      \/ (Forall (expired t) (nonces w)
          /\ _getNonce pf (MeClient c) w
             = (match fst (request pf (head_request c) (ext w)) with
                | Ok resp => Fulfilled (NonceHeader (headers resp !! "replay-nonce"))
                | Fail reason => Rejected (Foreign reason)
                end,
                {| ext := snd (request pf (head_request c) (ext w));
                   nonces := []; options := options w;
                   removeChallengeWarn := removeChallengeWarn w;
                   trace := trace w
                            ++ [EvRequest (head_request c)
                                  (fst (request pf (head_request c) (ext w)))] |}))).
Proof.
  intros t. split; [reflexivity|]. split.
  - intros n pushed. split; [reflexivity|].
    unfold _getNonce. run. fold t.
    replace (t - t >? NONCE_LIFETIME) with false
      by (rewrite Z.sub_diag; reflexivity).
    reflexivity.
  - unfold _getNonce, transport, header. run. fold t.
    pose proof (shift_fresh_spec t (nonces w)) as Hs.
    destruct (shift_fresh t (nonces w)) as [[e|] rest]; simpl.
    + left. destruct Hs as (old & Heq & Hall & Hage).
      exists old, e, rest. repeat split; assumption.
    + right. destruct Hs as [-> Hall]. split; [assumption|].
      fold (head_request c).
      destruct (request pf (head_request c) (ext w)) as [[resp|reason] x]; reflexivity.
Qed.

End NonceCache.

Section RequestLayer.

Context (pf : Platform).
Implicit Types (c : Client) (w : World pf) (e : NonceEntry).
Import Transcript.

Lemma sent_app tr1 tr2 : sent (tr1 ++ tr2) = sent tr1 ++ sent tr2.
Proof. unfold sent. apply flat_map_app. Qed.

Lemma received_app tr1 tr2 : received (tr1 ++ tr2) = received tr1 ++ received tr2.
Proof. unfold received. apply flat_map_app. Qed.

Lemma transport_run q w :
  transport pf q w
  = (match fst (request pf q (ext w)) with
     | Ok resp => Fulfilled resp
     | Fail reason => Rejected (Foreign reason)
     end,
     {| ext := snd (request pf q (ext w)); nonces := nonces w;
        options := options w; removeChallengeWarn := removeChallengeWarn w;
        trace := trace w ++ [EvRequest q (fst (request pf q (ext w)))] |}).
Proof.
  unfold transport. run.
  destruct (request pf q (ext w)) as [[resp|reason] x]; reflexivity.
Qed.

Lemma sign_run a w :
  sign pf a w
  = (match fst (signJws pf a (ext w)) with
     | Ok jws => Fulfilled jws
     | Fail reason => Rejected (Foreign reason)
     end,
     {| ext := snd (signJws pf a (ext w)); nonces := nonces w;
        options := options w; removeChallengeWarn := removeChallengeWarn w;
        trace := trace w ++ [EvSign a] |}).
Proof.
  unfold sign. run.
  destruct (signJws pf a (ext w)) as [[jws|reason] x]; reflexivity.
Qed.

Ltac account Hinv :=
  simpl; rewrite ?sent_app, ?received_app; simpl;
  rewrite <- ?app_assoc;
  (etrans; [| apply submseteq_skips_r, Hinv]);
  solve_submseteq.

Lemma jwsRequest_accounted c b w :
  accounted w -> accounted (snd (_jwsRequest pf (MeClient c) (Some b) w)).
Proof.
  unfold accounted. intros Hinv.
  unfold _jwsRequest, _getNonce, _request. run.
  pose proof (shift_fresh_spec (Date_now pf (ext w)) (nonces w)) as Hs.
  destruct (shift_fresh (Date_now pf (ext w)) (nonces w)) as [[e|] rest]; simpl.
  - destruct Hs as (old & Heq & _ & _). rewrite Heq, map_app in Hinv. simpl in Hinv.
    rewrite sign_run. simpl.
    destruct (signJws pf _ (ext w)) as [[jws|reason] x]; simpl; [|account Hinv].
    rewrite transport_run; simpl.
    destruct (request pf _ x) as [[resp|reason] x'] eqn:Hreq; simpl; [|account Hinv].
    unfold header.
    destruct (headers resp !! "replay-nonce") as [n|] eqn:Hn; simpl.
    + destruct (String.eqb n ""); simpl; rewrite ?sent_app, ?received_app; simpl;
        rewrite Hn; account Hinv.
    + rewrite ?sent_app, ?received_app; simpl; rewrite Hn; account Hinv.
  - destruct Hs as [-> _].
    rewrite transport_run; simpl.
    destruct (request pf _ (ext w)) as [[resp0|reason] x0] eqn:Hreq0; simpl;
      [|account Hinv].
    rewrite sign_run. simpl. unfold header.
    destruct (signJws pf _ x0) as [[jws|reason] x]; simpl.
    2:{ rewrite ?sent_app, ?received_app; simpl.
        destruct (headers resp0 !! "replay-nonce"); account Hinv. }
    rewrite transport_run; simpl.
    destruct (request pf _ x) as [[resp|reason] x'] eqn:Hreq; simpl.
    2:{ rewrite ?sent_app, ?received_app; simpl.
        destruct (headers resp0 !! "replay-nonce"); account Hinv. }
    destruct (headers resp !! "replay-nonce") as [n|] eqn:Hn; simpl.
    + destruct (String.eqb n ""); simpl; rewrite ?sent_app, ?received_app; simpl;
        rewrite Hn; destruct (headers resp0 !! "replay-nonce"); account Hinv.
    + rewrite ?sent_app, ?received_app; simpl; rewrite Hn;
        destruct (headers resp0 !! "replay-nonce"); account Hinv.
Qed.

Lemma session_accounted c bs w : accounted w -> accounted (session pf c bs w).
Proof.
  revert w. induction bs as [|b bs IH]; intros w Hw; simpl; [assumption|].
  apply IH, jwsRequest_accounted, Hw.
Qed.

(** C2. In the requests a client signs one after the other, starting
    with the empty cache [ACME.create] gives it, the nonces of the
    protected headers handed to the signer are, counted with
    multiplicity, among the [replay-nonce] values the server sent: each
    header value is dispensed to at most one signing operation.  So
    when the server never repeats a nonce, no nonce appears in two
    protected headers. *)
Theorem nonce_single_use c bs (x : Ext pf) (o : Options) :
  let tr := trace (session pf c bs (create pf x o)) in
  sent tr ⊆+ received tr
  /\ (NoDup (received tr) -> NoDup (sent tr)).
Proof.
  intros tr.
  assert (Hsub : sent tr ⊆+ received tr).
  { pose proof (session_accounted c bs (create pf x o)) as H.
    unfold accounted in H. etrans; [| apply H].
    - apply submseteq_inserts_r. reflexivity.
    - simpl. apply submseteq_nil_l. }
  split; [exact Hsub|].
  intros Hnd. apply submseteq_Permutation in Hsub as [k Hk].
  rewrite Hk in Hnd. apply NoDup_app in Hnd. tauto.
Qed.

(** C4. What [_jwsRequest] puts in the [nonce] field of the protected
    header it hands to the signer: when the cache holds an entry that is
    no older than the lifetime, the first such entry itself, the record
    [{ nonce, createdAt }] that [_setNonce] stored, and no request
    precedes the signature; when the cache holds no such entry (it is
    empty, or everything in it is too old), the value of the
    [replay-nonce] header of the HEAD response, a bare string (or
    [undefined] when the header is missing). *)
Theorem jwsRequest_nonce_shape c b w :
  let t := Date_now pf (ext w) in
  (forall old e rest,
      nonces w = old ++ e :: rest ->
      Forall (expired t) old -> t - createdAt e <= NONCE_LIFETIME ->
      exists a tl,
        trace (snd (_jwsRequest pf (MeClient c) (Some b) w))
          = trace w ++ EvSign a :: tl
        /\ p_nonce (s_protected a) = NonceRecord e)
  /\ (forall n,
        let pushed := {| nonce := n; createdAt := t |} in
        exists a tl,
          trace (snd (_jwsRequest pf (MeClient c) (Some b)
                        (with_nonces pf w (pushed :: nonces w))))
            = trace w ++ EvSign a :: tl
          /\ p_nonce (s_protected a) = NonceRecord pushed)
  /\ (forall resp,
        Forall (expired t) (nonces w) ->
        fst (request pf (head_request c) (ext w)) = Ok resp ->
        exists a tl,
          trace (snd (_jwsRequest pf (MeClient c) (Some b) w))
            = trace w ++ EvRequest (head_request c) (Ok resp) :: EvSign a :: tl
          /\ p_nonce (s_protected a) = NonceHeader (headers resp !! "replay-nonce")).
Proof.
  intros t.
  assert (Hhit : forall w0 old e rest,
             nonces w0 = old ++ e :: rest ->
             Forall (expired (Date_now pf (ext w0))) old ->
             Date_now pf (ext w0) - createdAt e <= NONCE_LIFETIME ->
             exists a tl,
               trace (snd (_jwsRequest pf (MeClient c) (Some b) w0))
                 = trace w0 ++ EvSign a :: tl
               /\ p_nonce (s_protected a) = NonceRecord e).
  { intros w0 old e rest Hc Hold Hage.
    unfold _jwsRequest, _getNonce, _request. run. rewrite Hc.
    rewrite (shift_fresh_skips _ old e rest Hold Hage).
    simpl. rewrite sign_run. simpl.
    destruct (signJws pf _ (ext w0)) as [[jws|reason] x]; simpl;
      [|eexists _, []; split; reflexivity].
    rewrite transport_run; simpl.
    destruct (request pf _ x) as [[resp|reason] x']; simpl;
      [|eexists _, [_]; rewrite <- app_assoc; split; reflexivity].
    unfold header.
    destruct (headers resp !! "replay-nonce") as [n|]; simpl;
      [destruct (String.eqb n ""); simpl|];
      (eexists _, [_]; rewrite <- app_assoc; split; reflexivity). }
  split; [|split].
  - intros old e rest. apply Hhit.
  - intros n pushed.
    apply (Hhit (with_nonces pf w (pushed :: nonces w)) [] pushed (nonces w)).
    + reflexivity.
    + constructor.
    + simpl. fold t. rewrite Z.sub_diag. rewrite lifetime_value. lia.
  - intros resp Hold Hhead.
    unfold _jwsRequest, _getNonce, _request. run. fold t.
    pose proof (shift_fresh_spec t (nonces w)) as Hs.
    destruct (shift_fresh t (nonces w)) as [[e|] rest]; simpl.
    { destruct Hs as (old & Heq & _ & Hage). exfalso.
      rewrite Heq in Hold. apply Forall_app in Hold as [_ Hold].
      apply Forall_cons in Hold as [Hold _]. unfold expired in Hold. lia. }
    rewrite transport_run; simpl. fold (head_request c). rewrite Hhead. simpl.
    rewrite sign_run. simpl. unfold header.
    destruct (signJws pf _ _) as [[jws|reason] x]; simpl;
      [|eexists _, []; rewrite <- app_assoc; split; reflexivity].
    rewrite transport_run; simpl.
    destruct (request pf _ x) as [[resp'|reason] x']; simpl;
      [|eexists _, [_]; rewrite <- !app_assoc; split; reflexivity].
    destruct (headers resp' !! "replay-nonce") as [n|]; simpl;
      [destruct (String.eqb n ""); simpl|];
      (eexists _, [_]; rewrite <- !app_assoc; split; reflexivity).
Qed.

(** C1 (amended). A response that comes back through [ACME._request],
    the way every signed JWS POST is sent, and carries a non-empty
    [replay-nonce] header has that value pushed on the front of the
    cache, stamped with the time of arrival, before it reaches the
    caller.  A response to a request handed to the transport directly
    is not scanned: the directory GET leaves the cache as it was, and
    the nonce of the HEAD response is given to the signer without
    entering the cache. *)
Theorem request_scans_replay_nonce c w :
  (forall opts resp w',
      _request pf (MeClient c) opts w = (Fulfilled resp, w') ->
      nonces w'
      = match headers resp !! "replay-nonce" with
        | Some n =>
            if String.eqb n "" then nonces w
            else {| nonce := n; createdAt := Date_now pf (ext w') |} :: nonces w
        | None => nonces w
        end)
  /\ (forall b resp w' n,
        _jwsRequest pf (MeClient c) (Some b) w = (Fulfilled resp, w') ->
        headers resp !! "replay-nonce" = Some n -> n <> "" ->
        head (nonces w') = Some {| nonce := n; createdAt := Date_now pf (ext w') |})
  /\ (forall q, nonces (snd (transport pf q w)) = nonces w)
  /\ nonces (snd (_directory pf c w)) = nonces w
  /\ (Forall (expired (Date_now pf (ext w))) (nonces w) ->
      nonces (snd (_getNonce pf (MeClient c) w)) = []).
Proof.
  assert (Hreq : forall w0 opts resp w',
             _request pf (MeClient c) opts w0 = (Fulfilled resp, w') ->
             nonces w'
             = match headers resp !! "replay-nonce" with
               | Some n =>
                   if String.eqb n "" then nonces w0
                   else {| nonce := n; createdAt := Date_now pf (ext w') |} :: nonces w0
               | None => nonces w0
               end).
  { intros w0 opts resp w'. unfold _request. run. rewrite transport_run. simpl.
    destruct (request pf _ (ext w0)) as [[resp0|reason] x]; simpl; [|discriminate].
    unfold header.
    destruct (headers resp0 !! "replay-nonce") as [n|] eqn:Hn; simpl.
    - destruct (String.eqb n "") eqn:He; simpl; intros [= <- <-];
        rewrite Hn, ?He; reflexivity.
    - intros [= <- <-]. rewrite Hn. reflexivity. }
  split; [apply Hreq|]. split; [|split; [|split]].
  - intros b resp w' n. unfold _jwsRequest. unfold bind at 1.
    destruct (_getNonce pf (MeClient c) w) as [[nv| |] w1]; [|discriminate..].
    unfold bind at 1. unfold get_options at 1. unfold bind at 1.
    rewrite sign_run.
    destruct (fst (signJws pf _ (ext w1))); [|discriminate].
    intros Hrun Hn Hne. apply Hreq in Hrun. rewrite Hn in Hrun.
    apply String.eqb_neq in Hne. rewrite Hne in Hrun. rewrite Hrun. reflexivity.
  - intros q. rewrite transport_run. reflexivity.
  - unfold _directory. rewrite transport_run. reflexivity.
  - intros Hold. unfold _getNonce. run.
    pose proof (shift_fresh_spec (Date_now pf (ext w)) (nonces w)) as Hs.
    destruct (shift_fresh (Date_now pf (ext w)) (nonces w)) as [[e|] rest]; simpl.
    + destruct Hs as (old & Heq & _ & Hage). exfalso.
      rewrite Heq in Hold. apply Forall_app in Hold as [_ Hold].
      apply Forall_cons in Hold as [Hold _]. unfold expired in Hold. lia.
    + destruct Hs as [-> _]. rewrite transport_run. simpl.
      destruct (fst (request pf _ (ext w))); reflexivity.
Qed.

End RequestLayer.

(** ** Challenge derivation *)

Section ChallengeDerivation.

Context (pf : Platform).
Implicit Types (w : World pf).





End ChallengeDerivation.

(** ** Account registration *)

Section Registration.

Context (pf : Platform).
Implicit Types (c : Client) (w : World pf).

Lemma uncoded_bind {A B} (m : M pf A) (f : A -> M pf B) :
  uncoded m -> (forall a, uncoded (f a)) -> uncoded (bind pf m f).
Proof.
  intros Hm Hf w e. unfold bind. specialize (Hm w).
  destruct (m w) as [[a|e'|] w1]; simpl in *.
  - apply Hf.
  - intros [= <-]. apply Hm. reflexivity.
  - discriminate.
Qed.

Lemma uncoded_lift {A} (r : Reply A) : uncoded (lift pf r).
Proof. intros w e. destruct r; simpl; [discriminate|]. intros [= <-] [m Hm]. discriminate. Qed.

Lemma uncoded_ok {A} (m : M pf A) :
  (forall w, exists a, fst (m w) = Fulfilled a) -> uncoded m.
Proof. intros H w e He. destruct (H w) as [a Ha]. congruence. Qed.

Lemma uncoded_type_error {A} (r : Try A) :
  (forall e, r = Throw e -> exists message, e = TypeError message) ->
  uncoded (attempt pf r).
Proof.
  intros H w e. destruct r as [a|e']; simpl; [discriminate|].
  intros [= <-] [m Hm]. destruct (H e' eq_refl) as [m' ->]. discriminate.
Qed.

Lemma uncoded_prop j k : uncoded (attempt pf (Val.prop j k)).
Proof. apply uncoded_type_error. intros e. destruct j; simpl; intros [= <-]; eauto. Qed.

Lemma uncoded_set_prop j k v : uncoded (attempt pf (Val.set_prop j k v)).
Proof. apply uncoded_type_error. intros e. destruct j; simpl; intros [= <-]; eauto. Qed.

Lemma uncoded_transport q : uncoded (transport pf q).
Proof.
  intros w e. rewrite transport_run. simpl.
  destruct (fst _); [discriminate|]. intros [= <-] [m Hm]. discriminate.
Qed.

Lemma uncoded_sign a : uncoded (sign pf a).
Proof.
  intros w e. rewrite sign_run. simpl.
  destruct (fst _); [discriminate|]. intros [= <-] [m Hm]. discriminate.
Qed.

Lemma uncoded_getNonce c : uncoded (_getNonce pf (MeClient c)).
Proof.
  unfold _getNonce.
  apply uncoded_bind; [apply uncoded_ok; eauto|]. intros t.
  apply uncoded_bind; [apply uncoded_ok; eauto|]. intros cache.
  destruct (shift_fresh t cache) as [[e|] rest].
  - apply uncoded_bind; apply uncoded_ok || intros _; [eauto|]. apply uncoded_ok. eauto.
  - apply uncoded_bind; [apply uncoded_ok; eauto|]. intros _.
    apply uncoded_bind; [apply uncoded_transport|]. intros resp. apply uncoded_ok. eauto.
Qed.

Lemma uncoded_request c opts : uncoded (_request pf (MeClient c) opts).
Proof.
  unfold _request. apply uncoded_bind; [apply uncoded_transport|]. intros resp.
  destruct (header _ resp) as [n|]; [destruct (negb _)|]; apply uncoded_ok; eauto.
Qed.

Lemma uncoded_jwsRequest c b : uncoded (_jwsRequest pf (MeClient c) (Some b)).
Proof.
  unfold _jwsRequest. apply uncoded_bind; [apply uncoded_getNonce|]. intros n.
  apply uncoded_bind; [apply uncoded_ok; eauto|]. intros o.
  apply uncoded_bind; [apply uncoded_sign|]. intros jws. apply uncoded_request.
Qed.

Lemma uncoded_account_of_response resp : uncoded (account_of_response pf resp).
Proof.
  unfold account_of_response. destruct (negb _).
  { intros w e [= <-] [m Hm]. discriminate. }
  apply uncoded_bind; [apply uncoded_ok; eauto|]. intros o.
  apply uncoded_bind; [apply uncoded_ok; eauto|]. intros _.
  apply uncoded_bind; [apply uncoded_prop|]. intros key0.
  apply uncoded_bind.
  { destruct (Val.truthy key0); [apply uncoded_ok; eauto | apply uncoded_set_prop]. }
  intros account1.
  apply uncoded_bind; [apply uncoded_prop|]. intros key1.
  apply uncoded_bind; [apply uncoded_set_prop|]. intros key2.
  apply uncoded_set_prop.
Qed.

Lemma uncoded_unhandled {A} (m : M pf A) : uncoded (unhandled pf m).
Proof. intros w e. unfold unhandled. destruct (m w) as [[a|e'|] w1]; discriminate. Qed.

Lemma uncoded_account_key : uncoded (account_key pf).
Proof.
  unfold account_key.
  apply uncoded_bind; [apply uncoded_ok; eauto|]. intros o.
  destruct (Val.truthy _).
  - apply uncoded_bind; [apply uncoded_set_prop|]. intros j1.
    apply uncoded_bind; [apply uncoded_set_prop|]. intros j2.
    apply uncoded_bind; [apply uncoded_ok; eauto|]. intros _.
    apply uncoded_bind; [apply uncoded_lift|]. intros pub.
    apply uncoded_ok. eauto.
  - destruct (Keypairs_import pf _) as [r|reason].
    + apply uncoded_ok. eauto.
    + intros w e [= <-] [m Hm]. discriminate.
Qed.

Lemma uncoded_prepare_account c v : uncoded (prepare_account pf c v).
Proof.
  unfold prepare_account.
  apply uncoded_bind; [|intros p; apply uncoded_unhandled].
  destruct (in_executor pf); [apply uncoded_account_key | apply uncoded_unhandled].
Qed.

(** Past the comparison of the two URLs, [agree] makes no error with
    the code. *)
Lemma agree_accepted c v w :
  Val.strict_eq_prim (_tos c) v = true ->
  agree pf c v w
  = bind pf (prepare_account pf c v)
      (fun prepared =>
         bind pf (_jwsRequest pf (MeClient c)
                    (Some (newAccount_opts c (snd (fst prepared)) (snd prepared))))
           (account_of_response pf)) w
  /\ ~ is_E_AGREE_TOS (fst (agree pf c v w)).
Proof.
  intros Heq. unfold agree. rewrite Heq. simpl. split; [reflexivity|].
  intros [m Hm]. revert Hm.
  assert (Hun : uncoded (bind pf (prepare_account pf c v)
                   (fun prepared =>
                      bind pf (_jwsRequest pf (MeClient c)
                                 (Some (newAccount_opts c (snd (fst prepared)) (snd prepared))))
                        (account_of_response pf)))).
  { apply uncoded_bind; [apply uncoded_prepare_account|]. intros prepared.
    apply uncoded_bind; [apply uncoded_jwsRequest|]. intros resp.
    apply uncoded_account_of_response. }
  intros Hm. apply (Hun w _ Hm). exists m. reflexivity.
Qed.

Lemma agree_refused c v w :
  Val.strict_eq_prim (_tos c) v = false ->
  agree pf c v w
  = (Rejected (Error ("You must agree to the ToS at '" +:+ tos_text (_tos c) +:+ "'")
                     (Some "E_AGREE_TOS")), w).
Proof. intros Hne. unfold agree. rewrite Hne. reflexivity. Qed.

Lemma account_body_agreed c v pub w doc w' :
  account_body pf c v pub w = (Fulfilled doc, w') ->
  exists fields,
    doc = JObj fields
    /\ Val.assoc "termsOfServiceAgreed" fields = JBool (Val.strict_eq_prim (_tos c) v).
Proof.
  unfold account_body. run. destruct (externalAccount (options w)) as [ea|].
  - rewrite sign_run. simpl. destruct (fst (signJws pf _ _)); [|discriminate].
    intros [= <- <-]. eexists. split; reflexivity.
  - intros [= <- <-]. eexists. split; reflexivity.
Qed.

Lemma prepare_account_agreed c v w pair doc w' :
  prepare_account pf c v w = (Fulfilled (pair, doc), w') ->
  exists fields,
    doc = JObj fields
    /\ Val.assoc "termsOfServiceAgreed" fields = JBool (Val.strict_eq_prim (_tos c) v).
Proof.
  unfold prepare_account. unfold bind at 1.
  destruct ((if in_executor pf then account_key pf else unhandled pf (account_key pf)) w)
    as [[r|e|] w0]; [|discriminate..].
  unfold unhandled. unfold bind at 1.
  destruct (account_pair pf r w0) as [[p|e|] w1]; [|discriminate..].
  unfold bind. destruct (account_body pf c v (snd p) w1) as [[d|e|] w2] eqn:Hb;
    [|discriminate..].
  intros [= <- <- <-]. eapply account_body_agreed. exact Hb.
Qed.

(** C10. [_registerAccount] rejects with the error coded E_AGREE_TOS
    exactly when the caller's [agreeToTerms] hands over a value that is
    not strictly equal to the stored [termsOfService]; when the value
    is equal, the run goes on to the key pair and body of the account
    and then to the signed newAccount request, whose payload has
    [termsOfServiceAgreed: true]. *)
Theorem registerAccount_agree_tos c w :
  (is_E_AGREE_TOS (fst (_registerAccount pf c w))
   <-> exists v, yields pf c w v /\ Val.strict_eq_prim (_tos c) v = false)
  /\ (forall v,
        yields pf c w v -> Val.strict_eq_prim (_tos c) v = true ->
        _registerAccount pf c w
        = bind pf (prepare_account pf c v)
            (fun prepared =>
               bind pf (_jwsRequest pf (MeClient c)
                          (Some (newAccount_opts c (snd (fst prepared)) (snd prepared))))
                 (account_of_response pf)) (asked pf c w)
        /\ forall pair doc w',
             prepare_account pf c v (asked pf c w) = (Fulfilled (pair, doc), w') ->
             b_url (newAccount_opts c (snd pair) doc) = newAccount c
             /\ b_payload (newAccount_opts c (snd pair) doc) = PayloadDoc doc
             /\ exists fields,
                  doc = JObj fields
                  /\ Val.assoc "termsOfServiceAgreed" fields = JBool true).
Proof.
  unfold _registerAccount, yields, asked.
  destruct (Nat.eqb_spec (agreeToTerms_length pf) 1) as [H1|H1].
  - (* the promise API *)
    run. destruct (agreeToTerms_promise pf (_tos c) (ext w)) as [[v|reason] x] eqn:Hcall;
      simpl.
    + set (w1 := {| ext := x; nonces := nonces w; options := options w;
                    removeChallengeWarn := removeChallengeWarn w; trace := trace w |}).
      split.
      * split.
        -- intros Hcode. exists v. split; [left; auto|].
           destruct (Val.strict_eq_prim (_tos c) v) eqn:Heq; [|reflexivity].
           exfalso. exact (proj2 (agree_accepted c v w1 Heq) Hcode).
        -- intros (v' & [[_ [= <-]] | [H2 _]] & Hne); [|congruence].
           rewrite (agree_refused c v w1 Hne). eexists. reflexivity.
      * intros v' [[_ [= <-]] | [H2 _]] Heq; [|congruence].
        split; [apply (agree_accepted c v w1 Heq)|].
        intros pair doc w' Hprep. split; [reflexivity|]. split; [reflexivity|].
        destruct (prepare_account_agreed c v w1 pair doc w' Hprep) as (fields & -> & Hf).
        exists fields. rewrite Hf, Heq. split; reflexivity.
    + split.
      * split.
        -- intros [m Hm]. discriminate.
        -- intros (v' & [[_ [=]] | [H2 _]] & _). congruence.
      * intros v' [[_ [=]] | [H2 _]]. congruence.
  - destruct (Nat.eqb_spec (agreeToTerms_length pf) 2) as [H2|H2].
    + (* the callback API *)
      run. destruct (agreeToTerms_callback pf (_tos c) (ext w)) as [[err v] x] eqn:Hcall;
        simpl.
      set (w1 := {| ext := x; nonces := nonces w; options := options w;
                    removeChallengeWarn := removeChallengeWarn w; trace := trace w |}).
      destruct (Val.truthy err) eqn:Herr; simpl.
      * split.
        -- split.
           ++ intros [m Hm]. discriminate.
           ++ intros (v' & [[H1' _] | (_ & [=] & _)] & _). congruence.
        -- intros v' [[H1' _] | (_ & [=] & _)]. congruence.
      * split.
        -- split.
           ++ intros Hcode. exists v. split; [right; auto|].
              destruct (Val.strict_eq_prim (_tos c) v) eqn:Heq; [|reflexivity].
              exfalso. exact (proj2 (agree_accepted c v w1 Heq) Hcode).
           ++ intros (v' & [[H1' _] | (_ & _ & <-)] & Hne); [congruence|].
              rewrite (agree_refused c v w1 Hne). eexists. reflexivity.
        -- intros v' [[H1' _] | (_ & _ & <-)] Heq; [congruence|].
           split; [apply (agree_accepted c v w1 Heq)|].
           intros pair doc w' Hprep. split; [reflexivity|]. split; [reflexivity|].
           destruct (prepare_account_agreed c v w1 pair doc w' Hprep) as (fields & -> & Hf).
        exists fields. rewrite Hf, Heq. split; reflexivity.
    + split.
      * split.
        -- intros [m Hm]. discriminate.
        -- intros (v' & [[H1' _] | [H2' _]] & _); congruence.
      * intros v' [[H1' _] | [H2' _]]; congruence.
Qed.

End Registration.

(** ** The challenge and order drivers *)

Section DriverCalls.

Context (pf : Platform).
Implicit Types (w : World pf).

Lemma jwsRequest_literal_throws b w :
  jwsRequest_literal pf b w = (Rejected missing_client, w).
Proof. reflexivity. Qed.

(** C5 (what the code does). [_postChallenge] starts with
    [respondToChallenge], whose [ACME._jwsRequest({ ... })] binds the
    literal to [me]: reading [me._nonces.shift] throws, nothing is
    signed, posted, polled or waited for, whatever the server would
    have answered. *)
Theorem postChallenge_stops_at_first_call me auth fuel w :
  _postChallenge pf me auth (S fuel) w = (Rejected missing_client, w).
Proof. reflexivity. Qed.

(** C6 (what the code does). [_finalizeOrder] builds the
    CSR and calls [pollCert], whose [ACME._jwsRequest({ ... })] throws
    in the same way before any request: no payload reaches the finalize
    URL and no order status is looked at. *)
Theorem finalizeOrder_stops_at_first_call me validatedDomains fuel w :
  _finalizeOrder pf me validatedDomains (S fuel) w
  = (match generateCsrWeb64 pf (domainKeypair (options w)) validatedDomains with
     | Ok _ => Rejected missing_client
     | Fail reason => Rejected (Foreign reason)
     end, w).
Proof.
  unfold _finalizeOrder, finalizeOrder. run.
  destruct (generateCsrWeb64 pf _ _); [|reflexivity].
  simpl. destruct w; reflexivity.
Qed.

End DriverCalls.

Section PollBound.

Context (pf : Platform).
Variable jwsRequest : BigOpts -> M pf Response.
Variable me : Client.
Variable auth : Auth.
Import Transcript.

Local Abbreviation polls := (count_gets (auth_url auth)).

Hypothesis jwsRequest_no_poll : forall b, polls_at_most auth 0 (jwsRequest b).
Hypothesis jwsRequest_settles : forall b, settles (jwsRequest b).

Lemma polls_app tr1 tr2 : polls (tr1 ++ tr2) = (polls tr1 + polls tr2)%nat.
Proof.
  induction tr1 as [|[q r| | |] tr1 IH]; simpl; try assumption; [reflexivity|].
  destruct (is_get _ q); simpl; rewrite IH; reflexivity.
Qed.

Lemma polls_bind {A B} k1 k2 (m : M pf A) (f : A -> M pf B) :
  polls_at_most auth k1 m -> (forall a, polls_at_most auth k2 (f a)) ->
  polls_at_most auth (k1 + k2) (bind pf m f).
Proof.
  intros Hm Hf w. unfold bind. specialize (Hm w).
  destruct (m w) as [[a|e|] w1]; simpl in *; [|lia..].
  specialize (Hf a w1). lia.
Qed.

Lemma polls_weaken {A} k k' (m : M pf A) :
  polls_at_most auth k m -> (k <= k')%nat -> polls_at_most auth k' m.
Proof. intros Hm Hk w. specialize (Hm w). lia. Qed.

Lemma polls_seq {A B} k (m : M pf A) (f : A -> M pf B) :
  polls_at_most auth 0 m -> (forall a, polls_at_most auth k (f a)) ->
  polls_at_most auth k (bind pf m f).
Proof. intros Hm Hf. apply (polls_bind 0 k); assumption. Qed.

Lemma polls_pure {A} (m : M pf A) :
  (forall w, trace (snd (m w)) = trace w) -> polls_at_most auth 0 m.
Proof. intros H w. rewrite H. lia. Qed.

Lemma polls_wait ms : polls_at_most auth 0 (_wait pf ms).
Proof. intros w. unfold _wait. run. rewrite polls_app. simpl. lia. Qed.

Lemma polls_transport q : polls_at_most auth 1 (transport pf q).
Proof.
  intros w. rewrite transport_run. simpl. rewrite polls_app. simpl.
  destruct (is_get _ q); simpl; lia.
Qed.

Lemma polls_deactivate : polls_at_most auth 0 (deactivate pf jwsRequest me auth).
Proof.
  unfold deactivate. apply polls_seq; [apply polls_pure; reflexivity|]. intros o.
  apply polls_seq; [apply jwsRequest_no_poll|]. intros _. apply polls_wait.
Qed.

Lemma polls_removeChallenge : polls_at_most auth 0 (call_removeChallenge pf auth).
Proof.
  unfold call_removeChallenge. destruct (_ || _).
  - intros w. run. rewrite polls_app. simpl. lia.
  - apply polls_pure. reflexivity.
Qed.

Lemma polls_attempt {A} (r : Try A) : polls_at_most auth 0 (attempt pf r).
Proof. apply polls_pure. intros w. destruct r; reflexivity. Qed.

Lemma poll_loop_bounded fuel :
  forall count,
    polls_at_most auth (polls_left me count) (pollStatus pf jwsRequest me auth fuel count)
    /\ polls_at_most auth (polls_left me count) (respondToChallenge pf jwsRequest me auth fuel count).
Proof.
  induction fuel as [|fuel IH]; intros count.
  { split; intros w; simpl; lia. }
  split.
  - simpl. destruct (Z.geb_spec count (MAX_POLL me)) as [Hge|Hlt].
    { intros w. simpl. lia. }
    replace (polls_left me count) with (1 + polls_left me (count + 1))%nat
      by (unfold polls_left; lia).
    apply polls_bind; [apply polls_transport|]. intros resp.
    apply polls_seq; [apply polls_attempt|]. intros st.
    destruct (Val.is_str "processing" st).
    { apply polls_seq; [apply polls_wait|]. intros _. apply IH. }
    destruct (Val.is_str "pending" st).
    { destruct (count + 1 >=? MAX_POLL me); destruct (count + 1 >=? MAX_PEND me);
        apply polls_seq; try apply polls_wait; intros _;
        try (apply polls_seq; [apply polls_deactivate|]; intros _); apply IH. }
    destruct (Val.is_str "valid" st).
    { apply polls_seq; [apply polls_removeChallenge|]. intros _.
      apply (polls_weaken 0); [apply polls_pure; reflexivity | lia]. }
    apply (polls_weaken 0); [apply polls_pure; reflexivity | lia].
  - simpl. apply polls_seq; [apply polls_pure; reflexivity|]. intros o.
    apply polls_seq; [apply jwsRequest_no_poll|]. intros _.
    apply polls_seq; [apply polls_wait|]. intros _. apply IH.
Qed.

Lemma settles_bind {A B} (m : M pf A) (f : A -> M pf B) :
  settles m -> (forall a, settles (f a)) -> settles (bind pf m f).
Proof.
  intros Hm Hf w. unfold bind. specialize (Hm w).
  destruct (m w) as [[a|e|] w1]; simpl in *; [apply Hf | discriminate | contradiction].
Qed.

Lemma settles_wait ms : settles (_wait pf ms).
Proof. intros w. unfold _wait. run. discriminate. Qed.

Lemma settles_transport q : settles (transport pf q).
Proof. intros w. rewrite transport_run. simpl. destruct (fst _); discriminate. Qed.

Lemma settles_attempt {A} (r : Try A) : settles (attempt pf r).
Proof. intros w. destruct r; discriminate. Qed.

Lemma settles_deactivate : settles (deactivate pf jwsRequest me auth).
Proof.
  unfold deactivate. apply settles_bind; [discriminate|]. intros o.
  apply settles_bind; [apply jwsRequest_settles|]. intros _. apply settles_wait.
Qed.

Lemma settles_removeChallenge : settles (call_removeChallenge pf auth).
Proof. unfold call_removeChallenge. destruct (_ || _); intros w; run; discriminate. Qed.

Lemma poll_loop_settles fuel :
  forall count,
    ((2 * polls_left me count + 1 <= fuel)%nat ->
     settles (pollStatus pf jwsRequest me auth fuel count))
    /\ ((2 * polls_left me count + 2 <= fuel)%nat ->
        settles (respondToChallenge pf jwsRequest me auth fuel count)).
Proof.
  induction fuel as [|fuel IH]; intros count.
  { split; intros; lia. }
  split; intros Hfuel.
  - simpl. destruct (Z.geb_spec count (MAX_POLL me)) as [Hge|Hlt].
    { intros w. discriminate. }
    assert (Hleft : polls_left me count = S (polls_left me (count + 1)))
      by (unfold polls_left; lia).
    apply settles_bind; [apply settles_transport|]. intros resp.
    apply settles_bind; [apply settles_attempt|]. intros st.
    destruct (Val.is_str "processing" st).
    { apply settles_bind; [apply settles_wait|]. intros _. apply IH. lia. }
    destruct (Val.is_str "pending" st).
    { destruct (count + 1 >=? MAX_PEND me);
        apply settles_bind; try apply settles_wait; intros _;
        try (apply settles_bind; [apply settles_deactivate|]; intros _);
        apply IH; lia. }
    destruct (Val.is_str "valid" st).
    { apply settles_bind; [apply settles_removeChallenge|]. intros _ w. discriminate. }
    intros w. discriminate.
  - simpl. apply settles_bind; [discriminate|]. intros o.
    apply settles_bind; [apply jwsRequest_settles|]. intros _.
    apply settles_bind; [apply settles_wait|]. intros _. apply IH. lia.
Qed.

(** C8. Whatever the signed call of the accept and deactivate steps
    does (as long as it settles and is not itself the poll request),
    [pollStatus] looks at the shared counter before it sends the GET
    and, once the counter has reached [MAX_POLL] ([me.retryPoll], 8
    when that is not set), rejects with the error that names the domain
    without sending it; so one run of the driver polls the challenge
    URL at most [MAX_POLL] times and, followed for [2 * MAX_POLL + 2]
    calls of its two functions, has settled. *)
Theorem postChallenge_polls_bounded fuel count w :
  MAX_POLL me = Val.or_default (retryPoll me) 8
  /\ stuck_error auth
     = Error ("[acme-v2] stuck in bad pending/processing state for '"
              +:+ _untame (id_value (identifier auth)) (wildcard auth) +:+ "'") None
  /\ (MAX_POLL me <= count ->
      pollStatus pf jwsRequest me auth (S fuel) count w = (Rejected (stuck_error auth), w))
  /\ (polls (trace (snd (postChallenge pf jwsRequest me auth fuel w)))
      <= polls (trace w) + Z.to_nat (MAX_POLL me))%nat
  /\ ((2 * Z.to_nat (MAX_POLL me) + 2 <= fuel)%nat ->
      fst (postChallenge pf jwsRequest me auth fuel w) <> Unsettled).
Proof.
  split; [reflexivity|]. split; [reflexivity|]. split; [|split].
  - intros Hge. simpl.
    destruct (Z.geb_spec count (MAX_POLL me)) as [_|Hlt]; [reflexivity | lia].
  - pose proof (proj2 (poll_loop_bounded fuel 0) w) as H.
    unfold polls_left in H. rewrite Z.sub_0_r in H. exact H.
  - intros Hfuel. apply (proj2 (poll_loop_settles fuel 0)).
    unfold polls_left. rewrite Z.sub_0_r. exact Hfuel.
Qed.

End PollBound.

Section ClientCall.

Context (pf : Platform).
Import Transcript.

(** The call with the client in front never sends a request whose
    method is GET, and it settles. *)
Lemma jwsRequest_client_no_poll c auth b :
  polls_at_most auth 0 (jwsRequest_client pf c b).
Proof.
  assert (Hpost : forall jws r tr,
             count_gets (auth_url auth)
               (tr ++ [EvRequest
                         (if Val.truthy jws && negb (is_true jws)
                          then {| method := Some POST; url := b_url b; json := jws;
                                  req_headers := Some (<["Content-Type":="application/jose+json"]> ∅);
                                  req_body := Some (JSON_stringify pf jws) |}
                          else {| method := None; url := b_url b; json := jws;
                                  req_headers := Some ∅; req_body := None |}) r])
             = count_gets (auth_url auth) tr).
  { intros jws r tr. rewrite polls_app. simpl.
    destruct (Val.truthy jws && negb (is_true jws)); simpl; lia. }
  assert (Hhead : forall r tr,
             count_gets (auth_url auth) (tr ++ [EvRequest (head_request c) r])
             = count_gets (auth_url auth) tr).
  { intros r tr. rewrite polls_app. simpl. lia. }
  assert (Hsign : forall a tr,
             count_gets (auth_url auth) (tr ++ [EvSign a])
             = count_gets (auth_url auth) tr).
  { intros a tr. rewrite polls_app. simpl. lia. }
  intros w. unfold jwsRequest_client, _jwsRequest, _getNonce, _request. run.
  destruct (shift_fresh _ _) as [[e|] rest]; simpl.
  - rewrite sign_run. simpl.
    destruct (signJws pf _ _) as [[jws|reason] x]; simpl; [|rewrite Hsign; lia].
    rewrite transport_run. simpl.
    destruct (request pf _ x) as [[resp|reason] x']; simpl.
    + unfold header.
      destruct (headers resp !! "replay-nonce") as [n|]; simpl;
        [destruct (String.eqb n ""); simpl|];
        rewrite Hpost, Hsign; lia.
    + rewrite Hpost, Hsign; lia.
  - rewrite transport_run. simpl. fold (head_request c).
    destruct (request pf _ _) as [[resp0|reason] x0]; simpl; [|rewrite Hhead; lia].
    rewrite sign_run. simpl.
    destruct (signJws pf _ _) as [[jws|reason] x]; simpl;
      [|rewrite Hsign, Hhead; lia].
    rewrite transport_run. simpl.
    destruct (request pf _ x) as [[resp|reason] x']; simpl.
    + unfold header.
      destruct (headers resp !! "replay-nonce") as [n|]; simpl;
        [destruct (String.eqb n ""); simpl|];
        rewrite Hpost, Hsign, Hhead; lia.
    + rewrite Hpost, Hsign, Hhead; lia.
Qed.

Lemma jwsRequest_client_settles c b : settles (jwsRequest_client pf c b).
Proof.
  intros w. unfold jwsRequest_client, _jwsRequest, _getNonce, _request. run.
  destruct (shift_fresh _ _) as [[e|] rest]; simpl.
  - rewrite sign_run. simpl.
    destruct (signJws pf _ _) as [[jws|reason] x]; simpl; [|discriminate].
    rewrite transport_run. simpl.
    destruct (request pf _ x) as [[resp|reason] x']; simpl; [|discriminate].
    unfold header.
    destruct (headers resp !! "replay-nonce") as [n|]; simpl;
      [destruct (String.eqb n ""); simpl|]; discriminate.
  - rewrite transport_run. simpl.
    destruct (request pf _ _) as [[resp0|reason] x0]; simpl; [|discriminate].
    rewrite sign_run. simpl.
    destruct (signJws pf _ _) as [[jws|reason] x]; simpl; [|discriminate].
    rewrite transport_run. simpl.
    destruct (request pf _ x) as [[resp|reason] x']; simpl; [|discriminate].
    unfold header.
    destruct (headers resp !! "replay-nonce") as [n|]; simpl;
      [destruct (String.eqb n ""); simpl|]; discriminate.
Qed.

End ClientCall.

(** ** The PEM helpers on two certificates *)

Module PemRuns.
Import Js Pem.

(** C9, as stated, fails on the empty list: [split] of the empty string
    is one empty piece, so one block comes back where none went in. *)
Lemma empty_chain_gives_one_block :
  ~ (forall bs : list Block,
        forallb well_formed bs = true ->
        splitPemChain (formatPemChain (str (chain_text bs)))
        = map (fun b => str (normalized b)) bs).
Proof. intros H. specialize (H [] eq_refl). discriminate H. Qed.

Lemma splitPemChain_formatPemChain_blocks_witness :
  splitPemChain (formatPemChain (str (chain_text [leaf; issuer])))
  = [str (normalized leaf); str (normalized issuer)].
Proof.
  apply (PemFacts.splitPemChain_formatPemChain_blocks [leaf; issuer]);
    [discriminate | reflexivity].
Defined.

Example empty_body :
  formatPemChain "" = Val.nl /\ splitPemChain (formatPemChain "") = [Val.nl].
Proof. split; reflexivity. Qed.

End PemRuns.

(** ** The request layer on the scripted platform *)

Module RequestLayerRuns.
Import Transcript.

(** C1, as stated, fails on the directory GET: the response carries a
    [replay-nonce] header and the cache holds what it held. *)
Lemma directory_nonce_not_cached :
  ~ (forall (p : Platform) (c : Client) (w : World p) resp w' n,
        _directory p c w = (Fulfilled resp, w') ->
        headers resp !! "replay-nonce" = Some n ->
        n ∈ map nonce (nonces w')).
Proof.
  intros H.
  specialize (H Mock.pf Mock.me Mock.w_miss Mock.fresh
                (snd (_directory Mock.pf Mock.me Mock.w_miss)) "n1" eq_refl eq_refl).
  vm_compute in H. inversion H.
Qed.

Lemma request_scans_replay_nonce_witness :
  head (nonces (snd (_jwsRequest Mock.pf (MeClient Mock.me) (Some Mock.post) Mock.w_hit)))
  = Some {| nonce := "n1"; createdAt := 1001 |}.
Proof.
  apply (proj1 (proj2 (request_scans_replay_nonce Mock.pf Mock.me Mock.w_hit))
           Mock.post Mock.fresh
           (snd (_jwsRequest Mock.pf (MeClient Mock.me) (Some Mock.post) Mock.w_hit)) "n1");
    [reflexivity | reflexivity | discriminate].
Defined.

Lemma jwsRequest_nonce_shape_witness :
  (exists a tl,
      trace (snd (_jwsRequest Mock.pf (MeClient Mock.me) (Some Mock.post) Mock.w_hit))
        = trace Mock.w_hit ++ EvSign a :: tl
      /\ p_nonce (s_protected a) = NonceRecord Mock.cached)
  /\ (exists a tl,
        trace (snd (_jwsRequest Mock.pf (MeClient Mock.me) (Some Mock.post) Mock.w_miss))
          = trace Mock.w_miss
            ++ EvRequest (head_request Mock.me) (Ok Mock.fresh) :: EvSign a :: tl
        /\ p_nonce (s_protected a)
           = NonceHeader (headers Mock.fresh !! "replay-nonce")).
Proof.
  split.
  - apply (proj1 (jwsRequest_nonce_shape Mock.pf Mock.me Mock.post Mock.w_hit)
             [] Mock.cached []); [reflexivity | constructor | vm_compute; discriminate].
  - apply (proj2 (proj2 (jwsRequest_nonce_shape Mock.pf Mock.me Mock.post Mock.w_miss))
             Mock.fresh); [constructor | reflexivity].
Defined.

(** C2, as stated, fails when the server repeats a nonce: the client
    caches the [replay-nonce] of the first answer though it is the value
    it has just signed with, and signs the second request with it. *)
Lemma repeated_nonce_signed_twice :
  ~ (forall (p : Platform) (c : Client) (bs : list BigOpts) (x : Ext p) (o : Options),
        NoDup (sent (trace (session p c bs (create p x o))))).
Proof.
  intros H.
  specialize (H Mock.pf Mock.me [Mock.post; Mock.post] Script.one_nonce Mock.opts).
  vm_compute in H. inversion H as [|? ? Hin _]. apply Hin. left.
Qed.

Lemma nonce_single_use_witness :
  NoDup (sent (trace (session Mock.pf Mock.me [Mock.post; Mock.post]
                        (create Mock.pf Mock.three_nonces Mock.opts)))).
Proof.
  apply (proj2 (nonce_single_use Mock.pf Mock.me [Mock.post; Mock.post]
                  Mock.three_nonces Mock.opts)).
  vm_compute.
  repeat constructor; intros H; inversion H as [|? ? ? Hx];
    try inversion Hx as [|? ? ? Hy]; try inversion Hy.
Defined.

Example cached_record_is_signed :
  outline (trace (snd (_jwsRequest Mock.pf (MeClient Mock.me) (Some Mock.post) Mock.w_hit)))
  = [Signed (PayloadDoc (JObj [])); Sent (Some POST) (JStr "https://ca.test/new-order")]
  /\ sent (trace (session Mock.pf Mock.me [Mock.post; Mock.post]
                    (create Mock.pf Mock.three_nonces Mock.opts)))
     = ["n1"; "n2"].
Proof. vm_compute. split; reflexivity. Qed.

End RequestLayerRuns.

(** ** The drivers on the scripted platform *)

Module DriverRuns.
Import Transcript.

Lemma postChallenge_polls_bounded_witness :
  (count_gets (auth_url Mock.auth)
     (trace (snd (_postChallenge Mock.pf Mock.me Mock.auth 18 Mock.w_processing)))
   <= 0 + 8)%nat
  /\ fst (_postChallenge Mock.pf Mock.me Mock.auth 18 Mock.w_processing) <> Unsettled.
Proof.
  destruct (postChallenge_polls_bounded Mock.pf (jwsRequest_literal Mock.pf)
              Mock.me Mock.auth
              (fun b w => ltac:(simpl; lia)) (fun b w => ltac:(discriminate))
              18%nat 0 Mock.w_processing)
    as (_ & _ & _ & Hpolls & Hsettles).
  split; [exact Hpolls | apply Hsettles; vm_compute; lia].
Defined.

(** With the client in front of the literal, as the sibling callers
    write the call, the driver does what C5 describes: scenario S3. *)
Example client_call_pending_then_deactivate :
  let run := postChallenge Mock.pf (jwsRequest_client Mock.pf Mock.me)
               Mock.me Mock.auth 18 Mock.w_pending in
  fst run = Fulfilled (JObj [("status", JStr "valid")])
  /\ outline (trace (snd run))
     = [Sent (Some HEAD) (newNonce Mock.me);
        Mock.accept; Sent (Some POST) Mock.chall; Waited 1000;
        Sent (Some GET) Mock.chall; Waited 1000;
        Mock.accept; Sent (Some POST) Mock.chall; Waited 1000;
        Sent (Some GET) Mock.chall; Waited 1000;
        Mock.accept; Sent (Some POST) Mock.chall; Waited 1000;
        Sent (Some GET) Mock.chall; Waited 1000;
        Mock.accept; Sent (Some POST) Mock.chall; Waited 1000;
        Sent (Some GET) Mock.chall; Waited 1000;
        Mock.withdraw; Sent (Some POST) Mock.chall; Waited 10000;
        Mock.accept; Sent (Some POST) Mock.chall; Waited 1000;
        Sent (Some GET) Mock.chall; Removed].
Proof. vm_compute. split; reflexivity. Qed.

(** And the ceiling of C8 is reached: eight polls, then the error. *)
Example client_call_stuck_after_eight_polls :
  let run := postChallenge Mock.pf (jwsRequest_client Mock.pf Mock.me)
               Mock.me Mock.auth 18 Mock.w_processing in
  fst run
    = Rejected (Error "[acme-v2] stuck in bad pending/processing state for 'example.test'"
                      None)
  /\ count_gets (auth_url Mock.auth) (trace (snd run)) = 8%nat.
Proof. vm_compute. split; reflexivity. Qed.

(** With the client in front, [pollCert] rejects an [invalid] order
    with the message C6 describes. *)
Example client_call_invalid_order :
  let run := finalizeOrder Mock.pf (jwsRequest_client Mock.pf Mock.me)
               ["example.test"] 3 Mock.w_invalid in
  fst run
    = Rejected (Error
        ("Did not finalize order: status 'invalid'."
         +:+ " Best guess: One or more of the domain challenges could not be verified"
         +:+ " (or the order was canceled)." +:+ Val.nl
         +:+ "Requested: 'example.test'" +:+ Val.nl
         +:+ "Validated: 'example.test'" +:+ Val.nl
         +:+ "?") None)
  /\ outline (trace (snd run))
     = [Sent (Some HEAD) (newNonce Mock.me);
        Signed (PayloadDoc (JObj [("csr", JStr "csr")]));
        Sent (Some POST) (JStr "https://ca.test/finalize/1")].
Proof. vm_compute. split; reflexivity. Qed.

(** The source's own call: nothing is sent. *)
Example literal_call_sends_nothing :
  _postChallenge Mock.pf Mock.me Mock.auth 18 Mock.w_pending
    = (Rejected missing_client, Mock.w_pending)
  /\ _finalizeOrder Mock.pf Mock.me ["example.test"] 3 Mock.w_invalid
     = (Rejected missing_client, Mock.w_invalid).
Proof. split; reflexivity. Qed.

End DriverRuns.

(** ** Challenge derivation on the scripted platform *)

Module DerivationRuns.


Example dry_run_auth :
  exists a,
    fst (_challengeToAuth Mock.pf Mock.authz Mock.challenge true Mock.w_idle)
      = Fulfilled a
    /\ keyAuthorization a = "tok.thumb"
    /\ dnsHost a = "_greenlock-dryrun-00000000.example.test"
    /\ challengeUrl a = "http://example.test/.well-known/acme-challenge/tok".
Proof. eexists. vm_compute. repeat split. Qed.

End DerivationRuns.

(** ** Account registration on the scripted platform *)

Module RegistrationRuns.
Import Transcript.

Lemma registerAccount_agree_tos_witness :
  is_E_AGREE_TOS (fst (_registerAccount (Mock.platform 2 Mock.other) Mock.me Mock.refused))
  /\ ~ is_E_AGREE_TOS (fst (_registerAccount Mock.pf Mock.me Mock.agreed))
  /\ exists fields,
       Mock.account_doc = JObj fields
       /\ Val.assoc "termsOfServiceAgreed" fields = JBool true.
Proof.
  split; [|split].
  - apply (proj1 (registerAccount_agree_tos (Mock.platform 2 Mock.other)
                    Mock.me Mock.refused)).
    exists Mock.other. split; [right; repeat split | reflexivity].
  - intros Hcode.
    apply (proj1 (registerAccount_agree_tos Mock.pf Mock.me Mock.agreed)) in Hcode
      as (v & [[_ [= <-]] | [[=] _]] & Hne).
    discriminate Hne.
  - apply (proj2 (proj2 (registerAccount_agree_tos Mock.pf Mock.me Mock.agreed)
                    Mock.tos (or_introl (conj eq_refl eq_refl)) eq_refl)
             (Mock.scrubbed, Mock.scrubbed) Mock.account_doc
             (snd (prepare_account Mock.pf Mock.me Mock.tos Mock.agreed))).
    reflexivity.
Defined.

Example registration_goes_through :
  let run := _registerAccount Mock.pf Mock.me Mock.agreed in
  fst run = Fulfilled (JObj [("status", JStr "valid");
                             ("key", JObj [("kid", JStr "https://ca.test/acct/7")])])
  /\ outline (trace (snd run))
     = [Sent (Some HEAD) (newNonce Mock.me);
        Signed (PayloadDoc Mock.account_doc);
        Sent (Some POST) (newAccount Mock.me)]
  /\ _kid (options (snd run)) = JStr "https://ca.test/acct/7".
Proof. vm_compute. repeat split. Qed.

Example registration_refused :
  _registerAccount (Mock.platform 2 Mock.other) Mock.me Mock.refused
  = (Rejected (Error "You must agree to the ToS at 'https://ca.test/tos'"
                     (Some "E_AGREE_TOS")), Mock.refused).
Proof. reflexivity. Qed.

End RegistrationRuns.

(** * More properties *)

(** ** Texts that [formatPemChain] and [splitPemChain] make *)

Module PemShapeFacts.
Import Js Pem PemShape PemFacts.

#[local] Arguments is_eol : simpl never.
#[local] Arguments is_space : simpl never.
#[local] Arguments ceq : simpl never.

Lemma not_space_not_eol c : is_space c = false -> is_eol c = false.
Proof.
  intros H. destruct (is_eol c) eqn:He; [|reflexivity].
  apply eol_is_space in He. congruence.
Qed.

Lemma not_eol_chars c : is_eol c = false -> ceq c CR = false /\ ceq c LF = false.
Proof. unfold is_eol. intros H. apply orb_false_iff in H. exact H. Qed.

Lemma last_cons_cons {A} (a b : A) l : last (a :: b :: l) = last (b :: l).
Proof. reflexivity. Qed.

(** *** [trim] *)

Lemma trimStart_snoc a x :
  is_space x = false -> trimStart (a ++ [x]) = trimStart a ++ [x].
Proof.
  intros Hx. induction a as [|c a IH]; simpl.
  - rewrite Hx. reflexivity.
  - destruct (is_space c); [exact IH | reflexivity].
Qed.

Lemma trimStart_head s :
  match trimStart s with
  | x :: _ => is_space x = false
  | [] => True
  end.
Proof.
  induction s as [|c s IH]; simpl; [exact I|].
  destruct (is_space c) eqn:Hc; [exact IH | exact Hc].
Qed.

Lemma trimStart_blank E : forallb is_space E = true -> trimStart E = [].
Proof.
  induction E as [|c E IH]; simpl; [reflexivity|].
  intros H. apply andb_true_iff in H as [-> H]. apply IH, H.
Qed.

Lemma trim_tidy s : tidy (trim s).
Proof.
  unfold trim, trimEnd. pose proof (trimStart_head s) as Hh.
  destruct (trimStart s) as [|x r]; [split; exact I|].
  simpl rev. rewrite trimStart_snoc by exact Hh.
  rewrite rev_app_distr. simpl. split; [exact Hh|].
  pose proof (trimStart_head (rev r)) as Hq.
  destruct (trimStart (rev r)) as [|y q]; simpl; [exact Hh|].
  change (last (x :: rev q ++ [y])) with (last ((x :: rev q) ++ [y])).
  rewrite last_snoc. exact Hq.
Qed.

Lemma trim_of_tidy u E :
  tidy u -> forallb is_space E = true -> trim (u ++ E) = u.
Proof.
  intros [Hhead Hlast] HE. unfold trim, trimEnd.
  destruct u as [|x r].
  - simpl. rewrite (trimStart_blank E HE). reflexivity.
  - change ((x :: r) ++ E) with (x :: r ++ E). simpl trimStart. rewrite Hhead.
    destruct (last (x :: r)) as [y|] eqn:Hl; [|apply last_None in Hl; discriminate].
    apply last_Some in Hl as [m Hm].
    change (x :: r ++ E) with ((x :: r) ++ E). rewrite Hm.
    rewrite rev_app_distr, rev_app_distr. simpl.
    rewrite trimStart_spaces; [| |exact Hlast].
    + simpl. rewrite rev_involutive. reflexivity.
    + rewrite forallb_forall in *. intros z Hz. apply HE, in_rev, Hz.
Qed.

(** *** [collapse_eol] *)

Lemma collapse_single s :
  forall st,
    single_lf (collapse_eol st s) = true
    /\ (st = true -> starts_clean (collapse_eol st s)).
Proof.
  induction s as [|c s IH]; intros st; simpl; [split; [reflexivity | intros; exact I]|].
  destruct (is_eol c) eqn:Hc.
  - destruct st.
    + apply IH.
    + split; [|discriminate]. destruct (IH true) as [Hs Hstart].
      specialize (Hstart eq_refl). simpl. rewrite Hs.
      replace (ceq LF CR) with false by reflexivity. simpl.
      destruct (collapse_eol true s) as [|d X]; [reflexivity|].
      simpl in Hstart. apply not_eol_chars in Hstart as [_ Hd]. rewrite Hd.
      reflexivity.
  - destruct (IH false) as [Hs _]. split; [|intros _; exact Hc].
    apply not_eol_chars in Hc as [Hcr Hlf]. simpl. rewrite Hs, Hcr, Hlf. simpl.
    destruct (collapse_eol false s); reflexivity.
Qed.

Lemma collapse_snoc m y st :
  is_eol y = false -> collapse_eol st (m ++ [y]) = collapse_eol st m ++ [y].
Proof.
  intros Hy. revert st. induction m as [|c m IH]; intros st; simpl.
  - rewrite Hy. reflexivity.
  - destruct (is_eol c); [destruct st|]; rewrite IH; reflexivity.
Qed.

Lemma collapse_tidy t : tidy t -> tidy (collapse_eol false t).
Proof.
  intros [Hhead Hlast]. destruct t as [|x r]; [split; exact I|].
  destruct (last (x :: r)) as [y|] eqn:Hl; [|apply last_None in Hl; discriminate].
  split.
  - simpl. rewrite (not_space_not_eol x Hhead). exact Hhead.
  - apply last_Some in Hl as [m Hm]. rewrite Hm.
    rewrite collapse_snoc by (apply not_space_not_eol, Hlast).
    rewrite last_snoc. exact Hlast.
Qed.

Lemma single_lf_no_cr s : single_lf s = true -> no_cr s = true.
Proof.
  induction s as [|c s IH]; [reflexivity|]. simpl. intros H.
  apply andb_true_iff in H as [H Hs]. apply andb_true_iff in H as [Hc _].
  rewrite Hc. apply IH, Hs.
Qed.

(** *** [dash_gap] *)

Lemma dash_gap_ind (P : list ascii -> list ascii -> Prop) :
  P [] [] ->
  (forall r, P r (dash_gap r) ->
             P (DASH :: LF :: DASH :: r) (DASH :: LF :: LF :: DASH :: dash_gap r)) ->
  (forall a r, P r (dash_gap r) -> P (a :: r) (a :: dash_gap r)) ->
  forall s, P s (dash_gap s).
Proof.
  intros Hnil Hgap Hstep s.
  remember (length s) as n eqn:Hn. revert s Hn.
  induction n as [n IH] using lt_wf_ind. intros s Hn.
  destruct s as [|a [|b [|c r]]].
  - exact Hnil.
  - apply (Hstep a []). exact Hnil.
  - apply (Hstep a [b]). apply (Hstep b []). exact Hnil.
  - cbn [dash_gap].
    destruct (ceq a DASH && ceq b LF && ceq c DASH) eqn:Hm.
    + apply andb_true_iff in Hm as [Hm Hc]. apply andb_true_iff in Hm as [Ha Hb].
      apply ceq_eq in Ha, Hb, Hc. subst a b c.
      apply Hgap. apply (IH (length r)); [simpl in Hn; lia | reflexivity].
    + apply Hstep. apply (IH (length (b :: c :: r))); [simpl in *; lia | reflexivity].
Qed.

Lemma dash_gap_ends s :
  (dash_gap s = [] <-> s = []) /\ last (dash_gap s) = last s.
Proof.
  apply (dash_gap_ind (fun s o => (o = [] <-> s = []) /\ last o = last s)).
  - split; [tauto | reflexivity].
  - intros r [Hnil Hlast]. split; [split; discriminate|].
    destruct r as [|x r]; [reflexivity|].
    destruct (dash_gap (x :: r)) as [|y o] eqn:Ho.
    { destruct Hnil as [Hnil _]. discriminate (Hnil eq_refl). }
    exact Hlast.
  - intros a r [Hnil Hlast]. split; [split; discriminate|].
    destruct r as [|x r].
    + destruct Hnil as [_ Hnil]. rewrite (Hnil eq_refl). reflexivity.
    + destruct (dash_gap (x :: r)) as [|y o] eqn:Ho.
      { destruct Hnil as [Hnil _]. discriminate (Hnil eq_refl). }
      exact Hlast.
Qed.

Lemma dash_gap_head x r : exists r', dash_gap (x :: r) = x :: r'.
Proof.
  destruct r as [|b [|c r]]; [eexists; reflexivity..|].
  cbn [dash_gap]. destruct (ceq x DASH && ceq b LF && ceq c DASH) eqn:Hm.
  - apply andb_true_iff in Hm as [Hm _]. apply andb_true_iff in Hm as [Ha _].
    apply ceq_eq in Ha. subst x. eexists. reflexivity.
  - eexists. reflexivity.
Qed.

Lemma dash_gap_tidy c : tidy c -> tidy (dash_gap c).
Proof.
  intros [Hhead Hlast]. split.
  - destruct c as [|x r]; [exact I|].
    destruct (dash_gap_head x r) as [r' ->]. exact Hhead.
  - rewrite (proj2 (dash_gap_ends c)). exact Hlast.
Qed.

Lemma collapse_dash_gap c :
  single_lf c = true ->
  forall st, (st = true -> starts_clean c) -> collapse_eol st (dash_gap c) = c.
Proof.
  apply (dash_gap_ind
           (fun s o => single_lf s = true ->
                       forall st, (st = true -> starts_clean s) -> collapse_eol st o = s)).
  - reflexivity.
  - intros r IH Hs st _.
    assert (Hr : single_lf r = true).
    { do 3 apply single_lf_tail in Hs. exact Hs. }
    simpl. replace (is_eol DASH) with false by reflexivity.
    replace (is_eol LF) with true by reflexivity.
    rewrite (IH Hr false) by discriminate. reflexivity.
  - intros a r IH Hs st Hst.
    pose proof (single_lf_tail _ _ Hs) as Hr. simpl.
    destruct (is_eol a) eqn:Ha.
    + destruct st; [specialize (Hst eq_refl); simpl in Hst; congruence|].
      destruct (single_lf_after_eol _ _ Hs Ha) as [-> Hnext].
      rewrite (IH Hr true) by auto. reflexivity.
    + rewrite (IH Hr false) by discriminate. reflexivity.
Qed.

Lemma dash_gap_no_cr s : no_cr s = true -> no_cr (dash_gap s) = true.
Proof.
  apply (dash_gap_ind (fun s o => no_cr s = true -> no_cr o = true)).
  - reflexivity.
  - intros r IH H. simpl in H. simpl. apply IH. exact H.
  - intros a r IH H. simpl in *. apply andb_true_iff in H as [-> H]. apply IH, H.
Qed.

End PemShapeFacts.

Section PemTexts.
Import Js Pem PemShape PemFacts PemShapeFacts.

#[local] Arguments is_eol : simpl never.
#[local] Arguments is_space : simpl never.
#[local] Arguments ceq : simpl never.

Lemma format_shape s :
  exists g, formatPemChain_chars s = g ++ [LF]
            /\ tidy g /\ no_cr g = true
            /\ collapse_eol false g = collapse_eol false (trim s).
Proof.
  unfold formatPemChain_chars.
  pose proof (trim_tidy s) as Ht.
  destruct (collapse_single (trim s) false) as [Hs _].
  exists (dash_gap (collapse_eol false (trim s))). repeat split.
  - apply dash_gap_tidy, collapse_tidy, Ht.
  - apply dash_gap_tidy, collapse_tidy, Ht.
  - apply dash_gap_no_cr, single_lf_no_cr, Hs.
  - apply collapse_dash_gap; [exact Hs | discriminate].
Qed.

Lemma format_again s :
  formatPemChain_chars (formatPemChain_chars s) = formatPemChain_chars s.
Proof.
  destruct (format_shape s) as (g & Hg & Htidy & _ & Hc).
  rewrite Hg at 1. unfold formatPemChain_chars at 1.
  rewrite (trim_of_tidy g [LF] Htidy eq_refl), Hc. reflexivity.
Qed.

(** X1.  Formatting a PEM text a second time changes nothing, whatever
    the text is. *)
Theorem formatPemChain_idempotent (s : string) :
  formatPemChain (formatPemChain s) = formatPemChain s.
Proof.
  unfold formatPemChain. rewrite chars_str, format_again. reflexivity.
Qed.

(** X2.  Whatever its input, a text made by [formatPemChain] carries no
    carriage return and is a text free of white space at both ends
    followed by exactly one line feed. *)
Theorem formatPemChain_line_endings (s : string) :
  no_cr (chars (formatPemChain s)) = true
  /\ exists g, chars (formatPemChain s) = g ++ [LF] /\ tidy g.
Proof.
  unfold formatPemChain. rewrite chars_str.
  destruct (format_shape (chars s)) as (g & Hg & Htidy & Hcr & _). rewrite Hg. split.
  - unfold no_cr in *. rewrite forallb_app, Hcr. reflexivity.
  - exists g. split; [reflexivity | exact Htidy].
Qed.

Lemma ends_eol_snoc p c : ends_eol (p ++ [c]) = is_eol c.
Proof. unfold ends_eol. rewrite last_snoc. reflexivity. Qed.

Lemma ends_eol_app a r : r <> [] -> ends_eol (a ++ r) = ends_eol r.
Proof.
  intros Hr. unfold ends_eol. induction a as [|x a IH]; [reflexivity|].
  simpl app. destruct (a ++ r) as [|y q] eqn:Hq; [|exact IH].
  apply app_eq_nil in Hq as [_ Hq]. contradiction.
Qed.

Lemma gapless_snoc p c :
  gapless (p ++ [c]) = gapless p && negb (ends_eol p && is_eol c).
Proof.
  induction p as [|a p IH]; [reflexivity|].
  destruct p as [|d p].
  - simpl. unfold ends_eol. simpl. rewrite andb_true_r. reflexivity.
  - change (gapless ((a :: d :: p) ++ [c]))
      with (negb (is_eol a && is_eol d) && gapless ((d :: p) ++ [c])).
    rewrite IH. change (gapless (a :: d :: p))
      with (negb (is_eol a && is_eol d) && gapless (d :: p)).
    unfold ends_eol. rewrite last_cons_cons, andb_assoc. reflexivity.
Qed.

Lemma split_gaps_nonempty s : forall insep cur, split_gaps insep cur s <> [].
Proof.
  induction s as [|c s IH]; intros insep cur; simpl; [discriminate|].
  destruct (is_eol c); [destruct insep|]; try apply IH.
  destruct s as [|d s]; [discriminate|]. destruct (is_eol d); [discriminate | apply IH].
Qed.

Lemma split_pieces s :
  forall insep cur,
    gapless cur = true ->
    (ends_eol cur = true -> starts_clean s) ->
    ends_eol (cur ++ s) = false ->
    (insep = true -> cur = []) ->
    Forall (fun p => gapless p = true /\ ends_eol p = false) (split_gaps insep cur s).
Proof.
  induction s as [|c s IH]; intros insep cur Hgap Hstart Hend Hsep.
  - rewrite app_nil_r in Hend. repeat constructor; assumption.
  - assert (Hnext : s <> [] -> ends_eol ((cur ++ [c]) ++ s) = false
                               /\ ends_eol s = false).
    { intros Hs. rewrite <- app_assoc. split; [exact Hend|].
      rewrite <- Hend. change (cur ++ c :: s) with (cur ++ [c] ++ s).
      rewrite app_assoc. symmetry. apply ends_eol_app, Hs. }
    cbn [split_gaps]. destruct (is_eol c) eqn:Hc.
    + assert (Hs : s <> []).
      { intros ->. rewrite ends_eol_snoc in Hend. congruence. }
      destruct (Hnext Hs) as [Hend1 Hend2].
      assert (Hcur : ends_eol cur = false).
      { destruct (ends_eol cur) eqn:He; [|reflexivity].
        specialize (Hstart eq_refl). simpl in Hstart. congruence. }
      destruct insep.
      * rewrite (Hsep eq_refl). apply IH; try reflexivity; try discriminate.
        exact Hend2.
      * destruct s as [|d s]; [contradiction|]. destruct (is_eol d) eqn:Hd.
        -- constructor; [split; assumption|].
           apply IH; try reflexivity; try discriminate. exact Hend2.
        -- apply IH; try discriminate; [| |exact Hend1].
           ++ rewrite gapless_snoc, Hgap, Hcur. reflexivity.
           ++ intros _. exact Hd.
    + apply IH; try discriminate.
      * rewrite gapless_snoc, Hgap, Hc, andb_false_r. reflexivity.
      * rewrite ends_eol_snoc. congruence.
      * rewrite <- app_assoc. exact Hend.
Qed.

Lemma split_shape s :
  splitPemChain_chars s <> []
  /\ Forall (fun b => gapless b = true /\ last b = Some LF) (splitPemChain_chars s).
Proof.
  unfold splitPemChain_chars. split.
  - intros H. apply map_eq_nil in H. exact (split_gaps_nonempty _ _ _ H).
  - apply Forall_map.
    assert (Htrim : ends_eol ([] ++ trim s) = false).
    { destruct (trim_tidy s) as [_ Hl]. unfold ends_eol. simpl.
      destruct (last (trim s)); [apply not_space_not_eol, Hl | reflexivity]. }
    eapply Forall_impl;
      [apply (split_pieces (trim s) false []); try reflexivity; try discriminate;
       exact Htrim|].
    intros p [Hg He]. simpl. rewrite gapless_snoc, Hg, He, last_snoc. split; reflexivity.
Qed.

(** X3.  [splitPemChain] never returns the empty array, and each text it
    returns ends with a line feed and holds no two line breaks in a row,
    whatever the input is. *)
Theorem splitPemChain_pieces (s : string) :
  splitPemChain s <> []
  /\ Forall (fun b => gapless (chars b) = true /\ last (chars b) = Some LF)
            (splitPemChain s).
Proof.
  unfold splitPemChain. destruct (split_shape (chars s)) as [Hne Hall]. split.
  - intros H. apply map_eq_nil in H. contradiction.
  - apply Forall_map. eapply Forall_impl; [exact Hall|].
    intros p Hp. simpl. rewrite chars_str. exact Hp.
Qed.

End PemTexts.

(** ** The certificate bundle *)

Section BundleFacts.
Import Js.

Lemma str_cons_truthy c l : Val.truthy (JStr (str (c :: l))) = true.
Proof. reflexivity. Qed.

(** X4.  When the certificate answer is the text of well-formed PEM
    blocks and the order is an object, the bundle's [cert] is the first
    block ended by one line feed, and its [chain] is the other blocks,
    each ended by one line feed, joined by a line feed; [expires] and
    [identifiers] are the order's. *)
Theorem certs_of_chain (b : Pem.Block) (rest : list Pem.Block)
    (order : list (string * Json)) (resp : Response) :
  Pem.well_formed b = true ->
  forallb Pem.well_formed rest = true ->
  body resp = JStr (str (Pem.chain_text (b :: rest))) ->
  Bundle.certs (JObj order) resp
  = Done {| Bundle.expires := Val.assoc "expires" order;
            Bundle.identifiers := Val.assoc "identifiers" order;
            Bundle.cert := Some (str (Pem.normalized b));
            Bundle.chain := join Val.nl (map (fun x => str (Pem.normalized x)) rest) |}.
Proof.
  intros Hb Hr Hbody. unfold Bundle.certs. rewrite Hbody.
  destruct (PemFacts.well_formed_shape b Hb) as [(X & HX & _) _].
  assert (Htext : Bundle.pem_text (JStr (str (Pem.chain_text (b :: rest))))
                  = Done (str (Pem.chain_text (b :: rest)))).
  { unfold Bundle.pem_text.
    change (Pem.chain_text (b :: rest))
      with (Pem.block_text b ++ Pem.chain_text rest).
    unfold Pem.block_text. rewrite HX. reflexivity. }
  rewrite Htext. cbn [Val.prop].
  unfold Pem.splitPemChain, Pem.formatPemChain.
  rewrite !PemFacts.chars_str, (PemFacts.round_trip_chars b rest Hb Hr).
  cbn [map Bundle.shift]. rewrite map_map. reflexivity.
Qed.

(** X5.  Whatever the answer and the order are, a bundle that is
    returned has a [cert] that is a text ended by a line feed without an
    empty line, never [undefined]; no bundle is returned, and a
    [TypeError] is thrown, exactly when the order is [undefined] or
    [null] or the body is a truthy value that is not a string. *)
Theorem certs_cert_defined (order : Json) (resp : Response) :
  match Bundle.certs order resp with
  | Done c =>
      exists t, Bundle.cert c = Some t
                /\ last (chars t) = Some LF
                /\ PemShape.gapless (chars t) = true
  | Throw e =>
      (exists m, e = TypeError m)
      /\ (order = JUndefined \/ order = JNull
          \/ (Val.truthy (body resp) = true /\ forall s, body resp <> JStr s))
  end.
Proof.
  unfold Bundle.certs.
  destruct (Bundle.pem_text (body resp)) as [text|e] eqn:Htext.
  - unfold Pem.splitPemChain.
    destruct (split_shape (chars (Pem.formatPemChain text))) as [Hne Hall].
    destruct (Pem.splitPemChain_chars (chars (Pem.formatPemChain text))) as [|t ts];
      [contradiction|].
    apply Forall_cons in Hall as [[Hg Hl] _]. rewrite <- (PemFacts.chars_str t) in Hg, Hl.
    cbn [map]. set (t' := str t) in *.
    destruct order; cbn [Val.prop Bundle.shift];
      try (split; [eexists; reflexivity | tauto]); exists t'; auto.
  - unfold Bundle.pem_text in Htext.
    destruct (Val.truthy (body resp)) eqn:Ht; [|discriminate].
    destruct (body resp) eqn:Hb; try discriminate;
      injection Htext as <-;
      (split; [eexists; reflexivity | right; right; split; [reflexivity | discriminate]]).
Qed.

End BundleFacts.

Module BundleRuns.

Lemma certs_of_chain_witness :
  Bundle.certs Bundle.order_doc (Bundle.pem_response [Pem.leaf; Pem.issuer])
  = Done {| Bundle.expires := JStr "2026-02-01T00:00:00Z";
            Bundle.identifiers :=
              JArr [JObj [("type", JStr "dns"); ("value", JStr "example.com")]];
            Bundle.cert := Some (Js.str (Pem.normalized Pem.leaf));
            Bundle.chain := Js.str (Pem.normalized Pem.issuer) |}.
Proof.
  exact (certs_of_chain Pem.leaf [Pem.issuer]
           [("status", JStr "valid"); ("expires", JStr "2026-02-01T00:00:00Z");
            ("identifiers",
             JArr [JObj [("type", JStr "dns"); ("value", JStr "example.com")]])]
           (Bundle.pem_response [Pem.leaf; Pem.issuer])
           eq_refl eq_refl eq_refl).
Defined.

End BundleRuns.

(** ** The encoders *)

Section Encoders.
Import Js Enc.

Lemma url_alphabet_nodup : List.NoDup url_alphabet.
Proof.
  apply NoDup_ListNoDup. apply (bool_decide_unpack _). vm_compute. exact I.
Qed.

Lemma digit_index n : (N.to_nat (n mod 64) < length url_alphabet)%nat.
Proof. pose proof (N.mod_upper_bound n 64). change (length url_alphabet) with 64%nat. lia. Qed.

Lemma digit_in n : In (digit url_alphabet n) url_alphabet.
Proof. apply nth_In, digit_index. Qed.

Lemma digit_inj n m :
  digit url_alphabet n = digit url_alphabet m -> (n mod 64 = m mod 64)%N.
Proof.
  unfold digit. intros H.
  pose proof (proj1 (List.NoDup_nth url_alphabet EQUALS) url_alphabet_nodup
                _ _ (digit_index n) (digit_index m) H).
  lia.
Qed.

Lemma list_ind3 {A} (P : list A -> Prop) :
  P [] -> (forall a, P [a]) -> (forall a b, P [a; b]) ->
  (forall a b c r, P r -> P (a :: b :: c :: r)) ->
  forall l, P l.
Proof.
  intros H0 H1 H2 H3 l.
  enough (H : P l /\ (forall a, P (a :: l)) /\ (forall a b, P (a :: b :: l))) by apply H.
  induction l as [|c l (IH0 & IH1 & IH2)]; [auto|].
  split; [apply IH1|]. split; [intros a; apply IH2|].
  intros a b. apply H3, IH0.
Qed.

Lemma str_length l : String.length (str l) = length l.
Proof. induction l as [|c l IH]; simpl; [reflexivity | rewrite IH; reflexivity]. Qed.

Lemma code_bound c : (code c < 256)%N.
Proof. apply N_ascii_bounded. Qed.

Lemma code_inj a b : code a = code b -> a = b.
Proof.
  intros H. rewrite <- (ascii_N_embedding a), <- (ascii_N_embedding b).
  unfold code in H. rewrite H. reflexivity.
Qed.

Lemma base64url_length s :
  length (base64url_chars s) = ((4 * length s + 2) / 3)%nat.
Proof.
  induction s as [|a|a b|a b c r IH] using list_ind3; try reflexivity.
  cbn [base64url_chars length]. rewrite IH.
  replace (4 * S (S (S (length r))) + 2)%nat with ((4 * length r + 2) + 4 * 3)%nat by lia.
  rewrite Nat.div_add by lia. lia.
Qed.

Lemma btoa_length s : length (btoa_chars s) = (4 * ((length s + 2) / 3))%nat.
Proof.
  induction s as [|a|a b|a b c r IH] using list_ind3; try reflexivity.
  cbn [btoa_chars length]. rewrite IH.
  replace (S (S (S (length r))) + 2)%nat with ((length r + 2) + 1 * 3)%nat by lia.
  rewrite Nat.div_add by lia. lia.
Qed.

Lemma base64url_in s : Forall (fun c => In c url_alphabet) (base64url_chars s).
Proof.
  induction s as [|a|a b|a b c r IH] using list_ind3; cbn [base64url_chars];
    repeat (constructor; [apply digit_in|]); [constructor.. | exact IH].
Qed.

(** X6.  [Enc.bufToUrlBase64] of [n] bytes is a text of
    [ceil (4 n / 3)] characters, all among the 64 digits
    [A-Z a-z 0-9 - _]; [Enc.bufToBase64] of [n] bytes has
    [4 * ceil (n / 3)] characters. *)
Theorem bufToUrlBase64_length_and_digits (u8 : list Byte.byte) :
  String.length (bufToUrlBase64 u8) = ((4 * length u8 + 2) / 3)%nat
  /\ Forall (fun c => In c url_alphabet) (chars (bufToUrlBase64 u8))
  /\ String.length (bufToBase64 u8) = (4 * ((length u8 + 2) / 3))%nat.
Proof.
  unfold bufToUrlBase64, bufToBase64, bufToBase64_chars.
  rewrite EncFacts.websafe_btoa, PemFacts.chars_str, !str_length.
  rewrite base64url_length, btoa_length. unfold fromCharCodes.
  rewrite length_map. repeat split. apply base64url_in.
Qed.

Lemma digit_step n m :
  (n / 64 = m / 64)%N ->
  digit url_alphabet n = digit url_alphabet m -> n = m.
Proof.
  intros Hd H. apply digit_inj in H.
  rewrite (N.div_mod n 64), (N.div_mod m 64) by lia. rewrite Hd, H. reflexivity.
Qed.

Lemma digit_top n m :
  (n < 64)%N -> (m < 64)%N ->
  digit url_alphabet n = digit url_alphabet m -> n = m.
Proof.
  intros Hn Hm H. apply digit_step; [|exact H].
  rewrite !N.div_small by assumption. reflexivity.
Qed.

Lemma digits2 n m :
  (n < 4096)%N -> (m < 4096)%N ->
  digit url_alphabet (n / 64) = digit url_alphabet (m / 64) ->
  digit url_alphabet n = digit url_alphabet m -> n = m.
Proof.
  intros Hn Hm H1 H0. apply digit_step; [|exact H0].
  apply digit_top; [apply N.Div0.div_lt_upper_bound; lia.. | exact H1].
Qed.

Lemma digits3 n m :
  (n < 262144)%N -> (m < 262144)%N ->
  digit url_alphabet (n / 4096) = digit url_alphabet (m / 4096) ->
  digit url_alphabet (n / 64) = digit url_alphabet (m / 64) ->
  digit url_alphabet n = digit url_alphabet m -> n = m.
Proof.
  intros Hn Hm H2 H1 H0. apply digit_step; [|exact H0].
  apply digits2; [apply N.Div0.div_lt_upper_bound; lia.. | | exact H1].
  rewrite !N.Div0.div_div. exact H2.
Qed.

Lemma digits4 n m :
  (n < 16777216)%N -> (m < 16777216)%N ->
  digit url_alphabet (n / 262144) = digit url_alphabet (m / 262144) ->
  digit url_alphabet (n / 4096) = digit url_alphabet (m / 4096) ->
  digit url_alphabet (n / 64) = digit url_alphabet (m / 64) ->
  digit url_alphabet n = digit url_alphabet m -> n = m.
Proof.
  intros Hn Hm H3 H2 H1 H0. apply digit_step; [|exact H0].
  apply digits3; [apply N.Div0.div_lt_upper_bound; lia.. | | | exact H1];
    rewrite !N.Div0.div_div; assumption.
Qed.

Lemma base64url_chars_inj s :
  forall t, base64url_chars s = base64url_chars t -> s = t.
Proof.
  induction s as [|a|a b|a b c r IH] using list_ind3;
    intros [|a' [|b' [|c' r']]] H; cbn [base64url_chars] in H;
    try discriminate; try reflexivity.
  - injection H as H1 H0.
    pose proof (code_bound a). pose proof (code_bound a').
    apply digits2 in H0; [|lia..|exact H1].
    f_equal. apply code_inj. lia.
  - injection H as H2 H1 H0.
    pose proof (code_bound a). pose proof (code_bound a').
    pose proof (code_bound b). pose proof (code_bound b').
    apply digits3 in H0; [|lia..|exact H2|exact H1].
    assert (code a = code a' /\ code b = code b') as [Ha Hb] by lia.
    apply code_inj in Ha, Hb. congruence.
  - injection H as H3 H2 H1 H0 Hr.
    pose proof (code_bound a). pose proof (code_bound a').
    pose proof (code_bound b). pose proof (code_bound b').
    pose proof (code_bound c). pose proof (code_bound c').
    apply digits4 in H0; [|lia..|exact H3|exact H2|exact H1].
    assert (code a = code a' /\ code b = code b' /\ code c = code c')
      as (Ha & Hb & Hc) by lia.
    apply code_inj in Ha, Hb, Hc. apply IH in Hr. congruence.
Qed.

Lemma fromCharCodes_inj u v : fromCharCodes u = fromCharCodes v -> u = v.
Proof.
  unfold fromCharCodes. revert v.
  induction u as [|x u IH]; intros [|y v] H; try discriminate; [reflexivity|].
  injection H as Hx Hu. f_equal; [|apply IH, Hu].
  rewrite <- (byte_of_ascii_of_byte x), <- (byte_of_ascii_of_byte y), Hx. reflexivity.
Qed.

(** X7.  [Enc.bufToUrlBase64] is injective: two byte arrays with the same
    encoding are the same array. *)
Theorem bufToUrlBase64_injective (u v : list Byte.byte) :
  bufToUrlBase64 u = bufToUrlBase64 v -> u = v.
Proof.
  unfold bufToUrlBase64, bufToBase64_chars. rewrite !EncFacts.websafe_btoa.
  intros H. apply (f_equal chars) in H. rewrite !PemFacts.chars_str in H.
  apply fromCharCodes_inj, base64url_chars_inj, H.
Qed.

Lemma websafe_app a b : websafe (a ++ b) = websafe a ++ websafe b.
Proof.
  induction a as [|c a IH]; [reflexivity|].
  simpl app. rewrite !EncFacts.websafe_cons, IH, app_assoc. reflexivity.
Qed.

Lemma websafe_char_clean c :
  Forall (fun d => d <> PLUS /\ d <> SLASH /\ d <> EQUALS) (websafe_char c)
  /\ websafe (websafe_char c) = websafe_char c.
Proof.
  unfold websafe_char.
  destruct (ceq c PLUS) eqn:Hp; [split; [repeat constructor; discriminate | reflexivity]|].
  destruct (ceq c SLASH) eqn:Hs; [split; [repeat constructor; discriminate | reflexivity]|].
  destruct (ceq c EQUALS) eqn:He; [split; [constructor | reflexivity]|].
  split.
  - repeat constructor; intros ->; discriminate.
  - rewrite EncFacts.websafe_cons. unfold websafe_char. rewrite Hp, Hs, He. reflexivity.
Qed.

Lemma websafe_clean s :
  Forall (fun d => d <> PLUS /\ d <> SLASH /\ d <> EQUALS) (websafe s)
  /\ websafe (websafe s) = websafe s.
Proof.
  induction s as [|c s [IHf IHw]]; [split; [constructor | reflexivity]|].
  rewrite EncFacts.websafe_cons, websafe_app, IHw.
  destruct (websafe_char_clean c) as [Hf Hw]. rewrite Hw. split; [|reflexivity].
  apply Forall_app. split; assumption.
Qed.

(** X8.  [ACME._toWebsafeBase64] returns a text without [+], [/] and [=];
    applying it again changes nothing; and on the text [Enc.bufToBase64]
    makes of a byte array it gives what [Enc.bufToUrlBase64] makes of
    the array. *)
Theorem toWebsafeBase64_clean (b64 : string) (u8 : list Byte.byte) :
  Forall (fun d => d <> PLUS /\ d <> SLASH /\ d <> EQUALS)
         (chars (_toWebsafeBase64 b64))
  /\ _toWebsafeBase64 (_toWebsafeBase64 b64) = _toWebsafeBase64 b64
  /\ _toWebsafeBase64 (bufToBase64 u8) = bufToUrlBase64 u8.
Proof.
  unfold _toWebsafeBase64, bufToBase64, bufToUrlBase64.
  rewrite !PemFacts.chars_str.
  destruct (websafe_clean (chars b64)) as [Hf Hw]. rewrite Hw. auto.
Qed.

End Encoders.

(** ** Choosing a challenge *)

Section ChooseFacts.

Context {C : Type} (type_of : C -> string).

Lemma offered_none chType challenges :
  offered type_of chType challenges = None
  <-> Forall (fun ch => type_of ch <> chType) challenges.
Proof.
  induction challenges as [|ch rest IH]; simpl; [split; [constructor | reflexivity]|].
  destruct (String.eqb (type_of ch) chType) eqn:He.
  - apply String.eqb_eq in He. split; [discriminate|].
    intros H. apply Forall_cons in H as [H _]. contradiction.
  - apply String.eqb_neq in He. rewrite IH. split.
    + intros H. constructor; assumption.
    + intros H. apply Forall_cons in H as [_ H]. exact H.
Qed.

Lemma offered_some chType challenges ch :
  offered type_of chType challenges = Some ch ->
  type_of ch = chType
  /\ exists earlier later,
       challenges = earlier ++ ch :: later
       /\ Forall (fun x => type_of x <> chType) earlier.
Proof.
  induction challenges as [|x rest IH]; simpl; [discriminate|].
  destruct (String.eqb (type_of x) chType) eqn:He.
  - intros [= ->]. apply String.eqb_eq in He. split; [exact He|].
    exists [], rest. split; [reflexivity | constructor].
  - intros H. destruct (IH H) as (Ht & earlier & later & -> & Hall).
    split; [exact Ht|]. exists (x :: earlier), later. split; [reflexivity|].
    constructor; [apply String.eqb_neq, He | exact Hall].
Qed.

(** X9.  [ACME._chooseChallenge] returns [undefined] exactly when no
    offered challenge has an enabled type; otherwise it returns the first
    offered challenge of the first enabled type that is offered at all:
    the order of [options.challengeTypes] decides, not the order of the
    offer. *)
Theorem chooseChallenge_first_enabled (challengeTypes : list string)
    (challenges : list C) :
  match _chooseChallenge type_of challengeTypes challenges with
  | None => Forall (fun ch => ~ In (type_of ch) challengeTypes) challenges
  | Some ch =>
      exists preferred others earlier later,
        challengeTypes = preferred ++ type_of ch :: others
        /\ challenges = earlier ++ ch :: later
        /\ Forall (fun x => ~ In (type_of x) preferred) challenges
        /\ Forall (fun x => type_of x <> type_of ch) earlier
  end.
Proof.
  induction challengeTypes as [|chType rest IH]; simpl.
  - apply Forall_forall. intros x _ [].
  - destruct (offered type_of chType challenges) as [ch|] eqn:Ho.
    + destruct (offered_some _ _ _ Ho) as (Ht & earlier & later & Hc & Hall).
      exists [], rest, earlier, later. rewrite Ht. repeat split; try assumption.
      apply Forall_forall. intros x _ [].
    + apply offered_none in Ho.
      destruct (_chooseChallenge type_of rest challenges) as [ch|].
      * destruct IH as (preferred & others & earlier & later & Ht & Hc & Hp & He).
        exists (chType :: preferred), others, earlier, later.
        rewrite Ht. repeat split; try assumption.
        rewrite Forall_forall in *. intros x Hx [Hin|Hin].
        -- apply (Ho x Hx). symmetry. exact Hin.
        -- apply (Hp x Hx Hin).
      * rewrite Forall_forall in *. intros x Hx [Hin|Hin].
        -- apply (Ho x Hx). symmetry. exact Hin.
        -- apply (IH x Hx Hin).
Qed.

End ChooseFacts.

Section DryRunFacts.
Import DryRunNotions.

Lemma choose_single {C} (type_of : C -> string) challengeTypes ch :
  _chooseChallenge type_of challengeTypes [ch]
  = if existsb (String.eqb (type_of ch)) challengeTypes then Some ch else None.
Proof.
  induction challengeTypes as [|t rest IH]; simpl; [reflexivity|].
  destruct (String.eqb (type_of ch) t); [reflexivity | exact IH].
Qed.

(** X10.  The dry run of an identifier that contains [*] uses the
    [dns-01] test challenge when [dns-01] is among
    [options.challengeTypes], whatever else is enabled and in whatever
    order; when it is not, the dry run is rejected with the error that
    asks to enable [dns-01]. *)
Theorem dry_run_wildcard_uses_dns01 (challengeTypes : list string)
    (identifierValue chToken : string) :
  DryRun.includes "*" identifierValue = true ->
  (In "dns-01" challengeTypes ->
   DryRun.challenge_of challengeTypes identifierValue chToken
   = Done (dns_challenge chToken))
  /\ (~ In "dns-01" challengeTypes ->
      DryRun.challenge_of challengeTypes identifierValue chToken
      = Throw (unsuitable challengeTypes identifierValue)).
Proof.
  intros Hw. unfold DryRun.challenge_of. rewrite Hw.
  change (filter _ (DryRun._testChallengeOptions chToken)) with [dns_challenge chToken].
  rewrite choose_single.
  change (DryRun.type (dns_challenge chToken)) with "dns-01".
  destruct (existsb (String.eqb "dns-01") challengeTypes) eqn:He.
  - split; [reflexivity|]. intros Hn. exfalso. apply Hn.
    apply existsb_exists in He as (t & Hin & Ht). apply String.eqb_eq in Ht.
    subst t. exact Hin.
  - split; [|reflexivity]. intros Hin.
    assert (Ht : existsb (String.eqb "dns-01") challengeTypes = true).
    { apply existsb_exists. exists "dns-01". split; [exact Hin | reflexivity]. }
    congruence.
Qed.

End DryRunFacts.

(** ** Steps that are fulfilled *)

Section StepFacts.

Context (pf : Platform).

Lemma bind_fulfilled {A B} (m : M pf A) (f : A -> M pf B) w b w' :
  bind pf m f w = (Fulfilled b, w') ->
  exists a w1, m w = (Fulfilled a, w1) /\ f a w1 = (Fulfilled b, w').
Proof.
  unfold bind. destruct (m w) as [[a|e|] w1]; [|discriminate..].
  intros H. exists a, w1. split; [reflexivity | exact H].
Qed.

Lemma attempt_fulfilled {A} (r : Try A) (w : World pf) a w' :
  attempt pf r w = (Fulfilled a, w') -> r = Done a /\ w' = w.
Proof. destruct r; simpl; intros H; [injection H as -> ->; auto | discriminate]. Qed.

End StepFacts.

(** ** What the challenge driver leaves behind *)

Section Cleanup.

Context (pf : Platform).
Variable jwsRequest : BigOpts -> M pf Response.
Variable me : Client.
Variable auth : Auth.

Hypothesis jwsRequest_calm : forall b, calm (jwsRequest b).

Lemma removals_app tr1 tr2 :
  removals (tr1 ++ tr2) = (removals tr1 + removals tr2)%nat.
Proof.
  induction tr1 as [|[q r|a|ms|a] tr1 IH]; simpl; try assumption; [reflexivity|].
  rewrite IH. reflexivity.
Qed.

Lemma cleans_seq {A B} (m : M pf A) (f : A -> M pf B) :
  calm m -> (forall a, cleans_up (f a)) -> cleans_up (bind pf m f).
Proof.
  intros Hm Hf w. unfold bind. specialize (Hm w).
  destruct (m w) as [[a|e|] w1]; simpl in *; [|lia..].
  rewrite (Hf a w1), Hm. reflexivity.
Qed.

Lemma calm_seq {A B} (m : M pf A) (f : A -> M pf B) :
  calm m -> (forall a, calm (f a)) -> calm (bind pf m f).
Proof.
  intros Hm Hf w. unfold bind. specialize (Hm w).
  destruct (m w) as [[a|e|] w1]; simpl in *; [|lia..].
  rewrite (Hf a w1), Hm. reflexivity.
Qed.

Lemma calm_pure {A} (m : M pf A) :
  (forall w, trace (snd (m w)) = trace w) -> calm m.
Proof. intros H w. rewrite H. reflexivity. Qed.

Lemma calm_wait ms : calm (_wait pf ms).
Proof. intros w. unfold _wait. run. rewrite removals_app. simpl. lia. Qed.

Lemma calm_transport q : calm (transport pf q).
Proof. intros w. rewrite transport_run. simpl. rewrite removals_app. simpl. lia. Qed.

Lemma calm_attempt {A} (r : Try A) : calm (attempt pf r).
Proof. apply calm_pure. intros w. destruct r; reflexivity. Qed.

Lemma calm_deactivate : calm (deactivate pf jwsRequest me auth).
Proof.
  unfold deactivate. apply calm_seq; [apply calm_pure; reflexivity|]. intros o.
  apply calm_seq; [apply jwsRequest_calm|]. intros _. apply calm_wait.
Qed.

Lemma removeChallenge_due :
  cleans_up (bind pf (call_removeChallenge pf auth) (fun _ => ret pf JNull)).
Proof.
  intros w. unfold call_removeChallenge, removal_due.
  destruct (_ || _); run; [rewrite removals_app; simpl|]; lia.
Qed.

Lemma poll_loop_cleans_up fuel :
  forall count,
    cleans_up (pollStatus pf jwsRequest me auth fuel count)
    /\ cleans_up (respondToChallenge pf jwsRequest me auth fuel count).
Proof.
  induction fuel as [|fuel IH]; intros count.
  { split; intros w; simpl; lia. }
  split.
  - simpl. destruct (count >=? MAX_POLL me).
    { intros w. simpl. lia. }
    apply cleans_seq; [apply calm_transport|]. intros resp.
    apply cleans_seq; [apply calm_attempt|]. intros st.
    destruct (Val.is_str "processing" st).
    { apply cleans_seq; [apply calm_wait|]. intros _. apply IH. }
    destruct (Val.is_str "pending" st).
    { destruct (count + 1 >=? MAX_PEND me);
        apply cleans_seq; try apply calm_wait; intros _;
        try (apply cleans_seq; [apply calm_deactivate|]; intros _); apply IH. }
    destruct (Val.is_str "valid" st).
    { intros w. pose proof (removeChallenge_due w) as H. revert H.
      unfold bind. destruct (call_removeChallenge pf auth w) as [[[]|e|] w1];
        simpl; auto. }
    intros w. simpl. lia.
  - simpl. apply cleans_seq; [apply calm_pure; reflexivity|]. intros o.
    apply cleans_seq; [apply jwsRequest_calm|]. intros _.
    apply cleans_seq; [apply calm_wait|]. intros _. apply IH.
Qed.

Lemma poll_loop_valid_only fuel :
  forall count,
    valid_only (pollStatus pf jwsRequest me auth fuel count)
    /\ valid_only (respondToChallenge pf jwsRequest me auth fuel count).
Proof.
  induction fuel as [|fuel IH]; intros count.
  { split; intros w doc w' H; discriminate. }
  split; intros w doc w' H; simpl in H.
  - destruct (count >=? MAX_POLL me); [discriminate|].
    apply bind_fulfilled in H as (resp & w1 & _ & H).
    apply bind_fulfilled in H as (st & w2 & Hst & H).
    destruct (Val.is_str "processing" st).
    { apply bind_fulfilled in H as (_ & w3 & _ & H). apply (proj1 (IH _) _ _ _ H). }
    destruct (Val.is_str "pending" st).
    { destruct (count + 1 >=? MAX_PEND me);
        apply bind_fulfilled in H as (_ & w3 & _ & H);
        try apply bind_fulfilled in H as (_ & w4 & _ & H);
        apply (proj2 (IH _) _ _ _ H). }
    destruct (Val.is_str "valid" st) eqn:Hvalid; [|discriminate].
    apply bind_fulfilled in H as (_ & w3 & _ & H). injection H as <- _.
    exists st. split; [|exact Hvalid].
    destruct (Val.prop (body resp) "status"); [|discriminate].
    injection Hst as -> _. reflexivity.
  - apply bind_fulfilled in H as (o & w1 & _ & H).
    apply bind_fulfilled in H as (resp & w2 & _ & H).
    apply bind_fulfilled in H as (_ & w3 & _ & H).
    apply (proj1 (IH _) _ _ _ H).
Qed.

(** X11.  Whatever the signed call of its accept and deactivate steps
    does, [_postChallenge]'s promise is fulfilled only with a challenge
    document whose [status] is ['valid']; and, when the signed call does
    not itself call [options.removeChallenge], the driver calls it
    exactly once in a run that is fulfilled (if it takes one or two
    arguments; never if it takes another number) and not at all in a run
    that is rejected or still pending: a challenge that fails is left in
    place. *)
Theorem postChallenge_removes_challenge_when_valid fuel w :
  (forall doc w',
      postChallenge pf jwsRequest me auth fuel w = (Fulfilled doc, w') ->
      exists st, Val.prop doc "status" = Done st /\ Val.is_str "valid" st = true)
  /\ removals (trace (snd (postChallenge pf jwsRequest me auth fuel w)))
     = (removals (trace w)
        + match fst (postChallenge pf jwsRequest me auth fuel w) with
          | Fulfilled _ =>
              if Nat.eqb (removeChallenge_length pf) 1
                 || Nat.eqb (removeChallenge_length pf) 2
              then 1 else 0
          | _ => 0
          end)%nat.
Proof.
  split.
  - intros doc w' H. exact (proj2 (poll_loop_valid_only fuel 0) w doc w' H).
  - exact (proj2 (poll_loop_cleans_up fuel 0) w).
Qed.

End Cleanup.

Section ClientCallCalm.

Context (pf : Platform).

Lemma removals_snoc_request tr q r :
  removals (tr ++ [EvRequest q r]) = removals tr.
Proof. rewrite removals_app. simpl. lia. Qed.

Lemma removals_snoc_sign tr a : removals (tr ++ [EvSign a]) = removals tr.
Proof. rewrite removals_app. simpl. lia. Qed.

(** The call with the client in front never calls
    [options.removeChallenge]. *)
Lemma jwsRequest_client_calm c b : calm (jwsRequest_client pf c b).
Proof.
  intros w. unfold jwsRequest_client, _jwsRequest, _getNonce, _request. run.
  destruct (shift_fresh _ _) as [[e|] rest]; simpl.
  - rewrite sign_run. simpl.
    destruct (signJws pf _ _) as [[jws|reason] x]; simpl;
      [|apply removals_snoc_sign].
    rewrite transport_run. simpl.
    destruct (request pf _ x) as [[resp|reason] x']; simpl.
    + unfold header.
      destruct (headers resp !! "replay-nonce") as [n|]; simpl;
        [destruct (String.eqb n ""); simpl|];
        rewrite removals_snoc_request, removals_snoc_sign; reflexivity.
    + rewrite removals_snoc_request, removals_snoc_sign; reflexivity.
  - rewrite transport_run. simpl.
    destruct (request pf _ _) as [[resp0|reason] x0]; simpl;
      [|apply removals_snoc_request].
    rewrite sign_run. simpl.
    destruct (signJws pf _ _) as [[jws|reason] x]; simpl;
      [|rewrite removals_snoc_sign, removals_snoc_request; reflexivity].
    rewrite transport_run. simpl.
    destruct (request pf _ x) as [[resp|reason] x']; simpl.
    + unfold header.
      destruct (headers resp !! "replay-nonce") as [n|]; simpl;
        [destruct (String.eqb n ""); simpl|];
        rewrite removals_snoc_request, removals_snoc_sign, removals_snoc_request;
        reflexivity.
    + rewrite removals_snoc_request, removals_snoc_sign, removals_snoc_request;
        reflexivity.
Qed.

End ClientCallCalm.

Module CleanupRuns.

Lemma postChallenge_removes_challenge_when_valid_witness :
  let run := postChallenge Mock.pf (jwsRequest_client Mock.pf Mock.me)
               Mock.me Mock.auth 18 Mock.w_pending in
  removals (trace (snd run)) = 1%nat
  /\ fst run = Fulfilled (JObj [("status", JStr "valid")]).
Proof.
  pose proof (postChallenge_removes_challenge_when_valid Mock.pf
                (jwsRequest_client Mock.pf Mock.me) Mock.me Mock.auth
                (jwsRequest_client_calm Mock.pf Mock.me) 18 Mock.w_pending) as [_ H].
  split; [rewrite H|]; vm_compute; reflexivity.
Defined.

End CleanupRuns.

Module EncoderRuns.

Lemma bufToUrlBase64_injective_witness :
  Enc.utf8 "foob" = map byte_of_ascii (Js.chars "foob").
Proof.
  apply (bufToUrlBase64_injective (Enc.utf8 "foob") (map byte_of_ascii (Js.chars "foob"))).
  reflexivity.
Defined.

End EncoderRuns.

Module DryRunRuns.

Lemma dry_run_wildcard_uses_dns01_witness :
  DryRun.challenge_of ["http-01"; "dns-01"] "*.example.com" "00ff"
  = Done (DryRunNotions.dns_challenge "00ff")
  /\ DryRun.challenge_of ["http-01"] "*.example.com" "00ff"
     = Throw (DryRunNotions.unsuitable ["http-01"] "*.example.com").
Proof.
  split.
  - apply (dry_run_wildcard_uses_dns01 ["http-01"; "dns-01"] "*.example.com" "00ff");
      [reflexivity | simpl; auto].
  - apply (dry_run_wildcard_uses_dns01 ["http-01"] "*.example.com" "00ff");
      [reflexivity|]. simpl. intros [H|[]]. discriminate.
Defined.

End DryRunRuns.

(** ** What the order driver returns *)

Section Finalize.

Context (pf : Platform).
Variable jwsRequest : BigOpts -> M pf Response.
Variable validatedDomains : list string.

Lemma pollCert_fulfilled csr fuel :
  forall w order w',
    pollCert pf jwsRequest validatedDomains csr fuel w = (Fulfilled order, w') ->
    (exists st, Val.prop order "status" = Done st /\ Val.is_str "valid" st = true)
    /\ Val.prop order "expires" = Done (_expires (options w'))
    /\ Val.prop order "certificate" = Done (_certificate (options w')).
Proof.
  induction fuel as [|fuel IH]; intros w order w' H; [discriminate|].
  simpl in H.
  apply (bind_fulfilled pf) in H as (o & w1 & _ & H).
  apply (bind_fulfilled pf) in H as (resp & w2 & _ & H).
  apply (bind_fulfilled pf) in H as (st & w3 & Hst & H).
  apply attempt_fulfilled in Hst as [Hst ->].
  destruct (Val.is_str "valid" st) eqn:Hvalid.
  - apply (bind_fulfilled pf) in H as (exp & w4 & Hexp & H).
    apply attempt_fulfilled in Hexp as [Hexp ->].
    apply (bind_fulfilled pf) in H as (cert & w5 & Hcert & H).
    apply attempt_fulfilled in Hcert as [Hcert ->].
    simpl in H. injection H as <- <-. simpl.
    split; [exists st; auto | auto].
  - destruct (Val.is_str "processing" st).
    + apply (bind_fulfilled pf) in H as (_ & w4 & _ & H). apply (IH _ _ _ H).
    + apply (bind_fulfilled pf) in H as (o1 & w4 & _ & H).
      destruct (Val.is_str "pending" st); [discriminate|].
      destruct (Val.is_str "invalid" st); [discriminate|].
      destruct (Val.is_str "ready" st); discriminate.
Qed.

(** X12.  Whatever the signed call does, when [_finalizeOrder]'s promise
    is fulfilled, it is with an order document whose [status] is
    ['valid'], the CSR was made from [options.domainKeypair] and the
    validated domains, and [options._expires] and
    [options._certificate] hold that document's [expires] and
    [certificate]. *)
Theorem finalizeOrder_fulfilled_order fuel w order w' :
  finalizeOrder pf jwsRequest validatedDomains fuel w = (Fulfilled order, w') ->
  (exists st, Val.prop order "status" = Done st /\ Val.is_str "valid" st = true)
  /\ Val.prop order "expires" = Done (_expires (options w'))
  /\ Val.prop order "certificate" = Done (_certificate (options w'))
  /\ exists csr,
       generateCsrWeb64 pf (domainKeypair (options w)) validatedDomains = Ok csr.
Proof.
  unfold finalizeOrder. intros H.
  apply (bind_fulfilled pf) in H as (o & w1 & Ho & H). injection Ho as <- <-.
  apply (bind_fulfilled pf) in H as (csr & w2 & Hcsr & H).
  destruct (pollCert_fulfilled _ _ _ _ _ H) as (Hst & Hexp & Hcert).
  repeat split; try assumption. exists csr.
  destruct (generateCsrWeb64 pf _ _); [|discriminate]. injection Hcsr as -> _. reflexivity.
Qed.

End Finalize.

Module FinalizeRuns.

Lemma finalizeOrder_fulfilled_order_witness :
  let run := finalizeOrder Mock.pf (jwsRequest_client Mock.pf Mock.me)
               ["example.test"] 5 Script.w_order in
  Val.prop Script.valid_order "certificate" = Done (_certificate (options (snd run))).
Proof.
  intros run.
  assert (Hrun : run = (Fulfilled Script.valid_order, snd run))
    by (vm_compute; reflexivity).
  exact (proj1 (proj2 (proj2 (finalizeOrder_fulfilled_order Mock.pf
                                (jwsRequest_client Mock.pf Mock.me)
                                ["example.test"] 5 Script.w_order
                                Script.valid_order (snd run) Hrun)))).
Defined.

End FinalizeRuns.

(** ** The transcript of one signed request *)

Section Wire.

Context (pf : Platform).

(** X13.  One call of [ACME._jwsRequest] with the client leaves one of
    three transcripts: the HEAD of [newNonce] failed, and nothing was
    signed or posted; or the signer failed, and nothing was posted; or
    the signer answered and exactly one request followed, to
    [bigopts.url], carrying the signer's answer (as a POST with the
    content type [application/jose+json] and the stringified answer as
    body when the answer is a truthy value other than [true]).  The
    promise is the one of that last request, and what was posted is an
    answer of the signer to the protected header and payload of the
    call. *)
Theorem jwsRequest_transcript (c : Client) (b : BigOpts) (w : World pf) :
  let run := _jwsRequest pf (MeClient c) (Some b) w in
  (exists reason,
      trace (snd run) = trace w ++ [EvRequest (head_request c) (Fail reason)]
      /\ fst run = Rejected (Foreign reason))
  \/ (exists pre n reason,
        nonce_events c pre
        /\ trace (snd run) = trace w ++ pre ++ [EvSign (to_sign (options w) b n)]
        /\ fst run = Rejected (Foreign reason))
  \/ (exists pre n jws r,
        nonce_events c pre
        /\ trace (snd run)
           = trace w ++ pre ++ [EvSign (to_sign (options w) b n);
                                EvRequest (posted pf (b_url b) jws) r]
        /\ fst run = outcome r
        /\ exists x, fst (signJws pf (to_sign (options w) b n) x) = Ok jws).
Proof.
  unfold _jwsRequest, _getNonce, _request. run.
  destruct (shift_fresh _ _) as [[e|] rest]; simpl.
  - rewrite sign_run. simpl.
    destruct (signJws pf _ _) as [[jws|reason] x] eqn:Hs; simpl.
    + right. right. exists [], (NonceRecord e), jws.
      rewrite transport_run. simpl.
      exists (fst (request pf (posted pf (b_url b) jws) x)).
      split; [left; reflexivity|]. unfold posted.
      destruct (Val.truthy jws && negb (is_true jws));
        (destruct (request pf _ x) as [[resp|reason] x']; simpl;
         [unfold header; destruct (headers resp !! "replay-nonce") as [n|]; simpl;
          [destruct (String.eqb n ""); simpl|]|]);
        rewrite <- ?app_assoc;
        (split; [reflexivity|]; split; [reflexivity|]);
        exists (ext w); exact (f_equal fst Hs).
    + right. left. exists [], (NonceRecord e), reason.
      split; [left; reflexivity|]. split; reflexivity.
  - rewrite transport_run. simpl. fold (head_request c).
    destruct (request pf (head_request c) _) as [[resp0|reason0] x0]; simpl.
    + rewrite sign_run. simpl.
      destruct (signJws pf _ _) as [[jws|reason] x] eqn:Hs; simpl.
      * right. right.
        exists [EvRequest (head_request c) (Ok resp0)],
          (NonceHeader (header "replay-nonce" resp0)), jws.
        rewrite transport_run. simpl.
        exists (fst (request pf (posted pf (b_url b) jws) x)).
        split; [right; eexists; reflexivity|]. unfold posted.
        destruct (Val.truthy jws && negb (is_true jws));
          (destruct (request pf _ x) as [[resp|reason] x']; simpl;
           [unfold header; destruct (headers resp !! "replay-nonce") as [n|]; simpl;
            [destruct (String.eqb n ""); simpl|]|]);
          rewrite <- ?app_assoc;
          (split; [reflexivity|]; split; [reflexivity|]);
          exists x0; exact (f_equal fst Hs).
      * right. left.
        exists [EvRequest (head_request c) (Ok resp0)],
          (NonceHeader (header "replay-nonce" resp0)), reason.
        split; [right; eexists; reflexivity|]. rewrite <- app_assoc. split; reflexivity.
    + left. exists reason0. split; reflexivity.
Qed.

End Wire.

(** ** What a registration leaves behind *)

Section Registered.

Context (pf : Platform).
Implicit Types (c : Client) (w : World pf).

Lemma registerAccount_asked c w v :
  yields pf c w v -> _registerAccount pf c w = agree pf c v (asked pf c w).
Proof.
  unfold _registerAccount, yields, asked.
  intros [[H1 Hv] | (H2 & Herr & Hv)].
  - rewrite H1. simpl. run.
    destruct (agreeToTerms_promise pf (_tos c) (ext w)) as [r x]. simpl in *.
    rewrite Hv. reflexivity.
  - rewrite H2. simpl. run.
    destruct (agreeToTerms_callback pf (_tos c) (ext w)) as [[err v'] x]. simpl in *.
    rewrite Herr, Hv. reflexivity.
Qed.

Lemma asked_frame c w :
  options (asked pf c w) = options w /\ trace (asked pf c w) = trace w
  /\ nonces (asked pf c w) = nonces w.
Proof.
  unfold asked. destruct (Nat.eqb _ 1); unfold with_ext;
    [destruct (agreeToTerms_promise pf _ _) | destruct (agreeToTerms_callback pf _ _)];
    auto.
Qed.

(** X14.  When the caller agrees to the terms and gives the account key
    as PEM only, a failure of [Keypairs.import] is lost unless [agree]
    throws it inside the executor of the promise.  When the promise that
    [Keypairs.import] returns is rejected, the promise of
    [_registerAccount] is never settled, with either API of
    [agreeToTerms]: the rejection reaches no handler.  When the call of
    [Keypairs.import] itself throws, the promise of [_registerAccount]
    is rejected with what was thrown if the callback of a two-argument
    [agreeToTerms] was called before [agreeToTerms] returned, and is
    never settled otherwise.  In each case nothing is signed or sent. *)
Theorem registerAccount_pending_when_import_fails c w v :
  yields pf c w v ->
  Val.strict_eq_prim (_tos c) v = true ->
  Val.truthy (privateKeyJwk (accountKeypair (options w))) = false ->
  (forall reason,
      Keypairs_import pf (privateKeyPem (accountKeypair (options w)))
      = Returned (Fail reason) ->
      _registerAccount pf c w = (Unsettled, asked pf c w))
  /\ (forall reason,
        Keypairs_import pf (privateKeyPem (accountKeypair (options w))) = Threw reason ->
        _registerAccount pf c w
        = (if Nat.eqb (agreeToTerms_length pf) 2 && agreeToTerms_calls_back_at_once pf
           then Rejected (Foreign reason) else Unsettled,
           asked pf c w))
  /\ trace (asked pf c w) = trace w.
Proof.
  intros Hy Heq Hjwk.
  rewrite (registerAccount_asked c w v Hy).
  rewrite (proj1 (agree_accepted pf c v (asked pf c w) Heq)).
  destruct (asked_frame c w) as (Ho & Htr & _).
  split; [|split; [|exact Htr]]; intros reason Himport;
    unfold prepare_account, in_executor;
    destruct (Nat.eqb (agreeToTerms_length pf) 2 && agreeToTerms_calls_back_at_once pf);
    unfold unhandled, account_key, account_pair; run;
    rewrite Ho, Hjwk, Himport; reflexivity.
Qed.

Lemma registerAccount_fulfilled_agree c w acct w' :
  _registerAccount pf c w = (Fulfilled acct, w') ->
  exists v, agree pf c v (asked pf c w) = (Fulfilled acct, w').
Proof.
  unfold _registerAccount, asked.
  destruct (Nat.eqb (agreeToTerms_length pf) 1).
  - run. destruct (agreeToTerms_promise pf (_tos c) (ext w)) as [[v|reason] x];
      simpl; [|discriminate].
    intros H. exists v. exact H.
  - destruct (Nat.eqb (agreeToTerms_length pf) 2); [|discriminate].
    run. destruct (agreeToTerms_callback pf (_tos c) (ext w)) as [[err v] x]. simpl.
    destruct (Val.truthy err); simpl; [discriminate|].
    intros H. exists v. exact H.
Qed.

Lemma jwsRequest_fulfilled_last c b w resp w1 :
  _jwsRequest pf (MeClient c) (Some b) w = (Fulfilled resp, w1) ->
  exists q earlier,
    trace w1 = earlier ++ [EvRequest q (Ok resp)] /\ url q = b_url b.
Proof.
  unfold _jwsRequest. intros H.
  apply (bind_fulfilled pf) in H as (n & w2 & _ & H).
  apply (bind_fulfilled pf) in H as (o & w3 & _ & H).
  apply (bind_fulfilled pf) in H as (jws & w4 & _ & H).
  unfold _request in H.
  apply (bind_fulfilled pf) in H as (resp' & w5 & Ht & H).
  rewrite transport_run in Ht.
  match type of Ht with
  | (match fst (request pf ?q0 _) with _ => _ end, _) = _ => set (q := q0) in *
  end.
  destruct (fst (request pf q (ext w4))) as [r|reason] eqn:Hr; [|discriminate].
  injection Ht as -> <-.
  exists q, (trace w4).
  assert (Hurl : url q = b_url b).
  { unfold q. simpl. destruct (Val.truthy jws && negb (is_true jws)); reflexivity. }
  split; [|exact Hurl].
  destruct (header "replay-nonce" resp') as [nn|];
    [destruct (negb (String.eqb nn ""))|]; revert H; run;
    intros H; injection H as <- <-; reflexivity.
Qed.

Lemma assoc_put k v kv : Val.assoc k (Val.put k v kv) = v.
Proof.
  induction kv as [|[k' v'] kv IH]; simpl.
  - rewrite String.eqb_refl. reflexivity.
  - destruct (String.eqb k k') eqn:He; simpl.
    + rewrite String.eqb_refl. reflexivity.
    + rewrite He. exact IH.
Qed.

Lemma set_prop_prop j k v j' :
  Val.set_prop j k v = Done j' -> Val.prop j' k = Done v.
Proof.
  destruct j; simpl; intros H; try discriminate; injection H as <-; simpl;
    rewrite ?assoc_put, ?String.eqb_refl; reflexivity.
Qed.

Lemma account_of_response_fulfilled resp w acct w' :
  account_of_response pf resp w = (Fulfilled acct, w') ->
  statusCode resp / 100 = 2
  /\ trace w' = trace w
  /\ options w' = set_kid (options w) (header_value "location" resp)
  /\ exists key,
       Val.prop acct "key" = Done key
       /\ Val.prop key "kid" = Done (header_value "location" resp).
Proof.
  unfold account_of_response.
  destruct (statusCode resp / 100 =? 2) eqn:Hcode; simpl; [|discriminate].
  apply Z.eqb_eq in Hcode. intros H. split; [exact Hcode|].
  apply (bind_fulfilled pf) in H as (o & w1 & Ho & H).
  injection Ho as Ho1 Ho2. subst o w1.
  apply (bind_fulfilled pf) in H as (u & w2 & Hset & H).
  injection Hset as _ Hw2.
  apply (bind_fulfilled pf) in H as (key0 & w3 & Hk0 & H).
  apply attempt_fulfilled in Hk0 as [_ ->].
  apply (bind_fulfilled pf) in H as (account1 & w4 & Ha1 & H).
  assert (w4 = w2) as ->.
  { destruct (Val.truthy key0); [injection Ha1 as _ <-; reflexivity|].
    apply attempt_fulfilled in Ha1 as [_ ->]. reflexivity. }
  apply (bind_fulfilled pf) in H as (key1 & w5 & Hk1 & H).
  apply attempt_fulfilled in Hk1 as [_ ->].
  apply (bind_fulfilled pf) in H as (key2 & w6 & Hk2 & H).
  apply attempt_fulfilled in Hk2 as [Hk2 ->].
  apply attempt_fulfilled in H as [H ->].
  subst w2. split; [reflexivity|]. split; [reflexivity|].
  exists key2. split; [exact (set_prop_prop _ _ _ _ H) | exact (set_prop_prop _ _ _ _ Hk2)].
Qed.

Lemma account_of_response_array resp w acct w' l :
  account_of_response pf resp w = (Fulfilled acct, w') ->
  body resp = JArr l ->
  acct = JArrWith l [("key", JObj [("kid", header_value "location" resp)])].
Proof.
  unfold account_of_response. destruct (negb _); [discriminate|].
  intros H Hb. rewrite Hb in H. revert H. run. intros [= <- _]. reflexivity.
Qed.

(** X15.  When the promise of [_registerAccount] is fulfilled, the last
    thing the client did was to receive an answer with a status between
    200 and 299 to a request sent to the [newAccount] URL,
    [options._kid] is the [location] header of that answer ([undefined]
    when the answer has none), and the account the promise is fulfilled
    with has a [key] whose [kid] is that same value.  An answer whose
    body is an array is among them: the account is then that array,
    with the [key] for a named property. *)
Theorem registerAccount_fulfilled_kid c w acct w' :
  _registerAccount pf c w = (Fulfilled acct, w') ->
  exists q resp earlier,
    trace w' = earlier ++ [EvRequest q (Ok resp)]
    /\ url q = newAccount c
    /\ statusCode resp / 100 = 2
    /\ _kid (options w') = header_value "location" resp
    /\ (exists key,
          Val.prop acct "key" = Done key
          /\ Val.prop key "kid" = Done (header_value "location" resp))
    /\ (forall l,
          body resp = JArr l ->
          acct = JArrWith l [("key", JObj [("kid", header_value "location" resp)])]).
Proof.
  intros H. apply registerAccount_fulfilled_agree in H as [v H].
  unfold agree in H.
  destruct (negb (Val.strict_eq_prim (_tos c) v)); [discriminate|].
  apply (bind_fulfilled pf) in H as (prepared & w1 & _ & H).
  apply (bind_fulfilled pf) in H as (resp & w2 & Hreq & H).
  apply jwsRequest_fulfilled_last in Hreq as (q & earlier & Htr & Hurl).
  pose proof (fun l => account_of_response_array _ _ _ _ l H) as Harr.
  apply account_of_response_fulfilled in H as (Hcode & Htr' & Ho & Hkey).
  exists q, resp, earlier. rewrite Htr', Htr, Ho.
  split; [reflexivity|]. split; [exact Hurl|]. split; [exact Hcode|].
  split; [reflexivity|]. split; [exact Hkey|]. intros l. apply Harr.
Qed.

End Registered.

Module RegisteredRuns.

Lemma registerAccount_pending_when_import_fails_witness :
  _registerAccount Script.no_import Mock.me Script.w_pem
  = (Unsettled, asked Script.no_import Mock.me Script.w_pem)
  /\ fst (_registerAccount Script.no_keypairs Mock.me (Script.w_at_once Script.pem_only))
     = Rejected (Foreign (JStr "Keypairs.import is not a function")).
Proof.
  split.
  - apply (proj1 (registerAccount_pending_when_import_fails Script.no_import Mock.me
                    Script.w_pem Mock.tos
                    (or_introl (conj eq_refl eq_refl)) eq_refl eq_refl)
             (JStr "not a PEM")).
    reflexivity.
  - rewrite (proj1 (proj2 (registerAccount_pending_when_import_fails Script.no_keypairs
                             Mock.me (Script.w_at_once Script.pem_only) Mock.tos
                             (or_intror (conj eq_refl (conj eq_refl eq_refl)))
                             eq_refl eq_refl))
               (JStr "Keypairs.import is not a function") eq_refl).
    reflexivity.
Defined.

(** [Keypairs.neuter] of the empty [Keypairs] throws in the call of
    [agree]: called back at once, the promise is rejected. *)
Example registerAccount_neuter_throws_in_executor :
  fst (_registerAccount Script.no_keypairs Mock.me (Script.w_at_once Mock.opts))
  = Rejected (Foreign (JStr "Keypairs.neuter is not a function")).
Proof. reflexivity. Qed.

Lemma registerAccount_fulfilled_kid_witness :
  let run := _registerAccount Mock.pf Mock.me Script.w_array in
  exists q resp earlier,
    trace (snd run) = earlier ++ [EvRequest q (Ok resp)]
    /\ url q = newAccount Mock.me
    /\ statusCode resp / 100 = 2
    /\ _kid (options (snd run)) = header_value "location" resp
    /\ (exists key,
          Val.prop (JArrWith [] [("key", JObj [("kid", JStr "https://ca.test/acct/7")])])
            "key"
          = Done key
          /\ Val.prop key "kid" = Done (header_value "location" resp))
    /\ (forall l,
          body resp = JArr l ->
          JArrWith [] [("key", JObj [("kid", JStr "https://ca.test/acct/7")])]
          = JArrWith l [("key", JObj [("kid", header_value "location" resp)])]).
Proof.
  intros run.
  assert (Hrun : run
                 = (Fulfilled (JArrWith []
                                 [("key", JObj [("kid", JStr "https://ca.test/acct/7")])]),
                    snd run))
    by (vm_compute; reflexivity).
  exact (registerAccount_fulfilled_kid Mock.pf Mock.me Script.w_array _ _ Hrun).
Defined.

(** An answer whose body is an object that has no [key]. *)
Example registerAccount_object_body :
  fst (_registerAccount Mock.pf Mock.me Mock.agreed)
  = Fulfilled (JObj [("status", JStr "valid");
                     ("key", JObj [("kid", JStr "https://ca.test/acct/7")])]).
Proof. vm_compute. reflexivity. Qed.

(** An answer whose body is the empty array: the promise is fulfilled
    with that array, which has taken the [key]. *)
Example registerAccount_array_body :
  fst (_registerAccount Mock.pf Mock.me Script.w_array)
  = Fulfilled (JArrWith [] [("key", JObj [("kid", JStr "https://ca.test/acct/7")])]).
Proof. vm_compute. reflexivity. Qed.

End RegisteredRuns.

(** ** Names of an authorization *)

Section Names.

Context (pf : Platform).
Implicit Types (w : World pf).

Lemma append_empty (s : string) : s +:+ "" = s.
Proof.
  induction s as [|ch s IH]; [reflexivity|].
  change (String ch s +:+ "") with (String ch (s +:+ "")). rewrite IH. reflexivity.
Qed.

Lemma substring_all (s : string) : String.substring 0 (String.length s) s = s.
Proof. induction s as [|ch s IH]; [reflexivity|]. cbn. f_equal. exact IH. Qed.

Lemma replace_first_star (x : string) : Val.replace_first "*." "" ("*." +:+ x) = x.
Proof.
  destruct x as [|ch x]; [reflexivity|].
  change (Val.replace_first "*." "" ("*." +:+ String ch x))
    with (String.substring 0 (String.length (String ch x)) (String ch x)).
  apply substring_all.
Qed.

(** X16.  For a wildcard authorization [ACME._untame] gives a name that
    begins with [*.], whether the identifier came with one or not: a
    name that begins with [*.] comes back unchanged, and untaming twice
    is untaming once. *)
Theorem untame_normal_form (name : string) (wild : bool) :
  (exists rest, _untame name true = "*." +:+ rest)
  /\ _untame ("*." +:+ name) true = "*." +:+ name
  /\ _untame (_untame name wild) wild = _untame name wild.
Proof.
  unfold _untame. split; [eexists; reflexivity|].
  split; [rewrite replace_first_star; reflexivity|].
  destruct wild; [|reflexivity]. rewrite replace_first_star. reflexivity.
Qed.

Lemma dry_run_prefix (r : string) :
  Val.replace_first "acme-challenge" ("greenlock-dryrun-" +:+ r) dns01_prefix
  = "_greenlock-dryrun-" +:+ r.
Proof.
  change (Val.replace_first "acme-challenge" ("greenlock-dryrun-" +:+ r) dns01_prefix)
    with ("_" +:+ ("greenlock-dryrun-" +:+ r) +:+ "").
  rewrite append_empty. reflexivity.
Qed.

Lemma challengeTest_http01_trace (a : Auth) w :
  exists r,
    trace (snd (challengeTest_http01 pf a w))
    = trace w
        ++ [EvRequest {| method := Some GET;
                         url := JStr ("http://" +:+ hostname a +:+ http01_prefix
                                      +:+ "/" +:+ token a);
                         json := JUndefined; req_headers := None;
                         req_body := None |} r].
Proof.
  unfold challengeTest_http01.
  set (q := {| method := Some GET;
               url := JStr ("http://" +:+ hostname a +:+ http01_prefix
                            +:+ "/" +:+ token a);
               json := JUndefined; req_headers := None; req_body := None |}).
  exists (fst (request pf q (ext w))).
  unfold bind at 1. rewrite transport_run.
  destruct (fst (request pf q (ext w))) as [resp|reason]; [|reflexivity].
  unfold bind. destruct (toString_utf8 pf (body resp)); simpl; [|reflexivity].
  destruct (String.eqb _ _); reflexivity.
Qed.

(** X17.  In every authorization [ACME._challengeToAuth] completes,
    [challengeUrl] is [http://<identifier>/.well-known/acme-challenge/<token>]
    and [dnsHost] is a prefix, a dot and the identifier without its
    first [*.]; the prefix is [_acme-challenge] for a real order and
    [_greenlock-dryrun-] followed by the value [ACME._prnd(4)] returned
    for a dry run, so a dry run never names the record of the real
    challenge.  The [http-01] self test then asks for exactly that
    [challengeUrl] with a GET. *)
Theorem challengeToAuth_names authz challenge dryrun w a w' :
  _challengeToAuth pf authz challenge dryrun w = (Fulfilled a, w') ->
  hostname a = id_value (az_identifier authz)
  /\ token a = ch_token challenge
  /\ challengeUrl a
     = "http://" +:+ hostname a +:+ "/.well-known/acme-challenge/" +:+ token a
  /\ dnsHost a
     = (if dryrun then "_greenlock-dryrun-" +:+ fst (prnd pf 4 (ext w))
        else "_acme-challenge")
       +:+ "." +:+ Val.replace_first "*." "" (hostname a)
  /\ forall w2,
       exists r,
         trace (snd (challengeTest_http01 pf a w2))
         = trace w2
             ++ [EvRequest {| method := Some GET; url := JStr (challengeUrl a);
                              json := JUndefined; req_headers := None;
                              req_body := None |} r].
Proof.
  unfold _challengeToAuth. intros H.
  apply (bind_fulfilled pf) in H as (dnsPrefix & w1 & Hprefix & H).
  assert (Hp : dnsPrefix = if dryrun then "_greenlock-dryrun-" +:+ fst (prnd pf 4 (ext w))
                           else "_acme-challenge").
  { destruct dryrun.
    - revert Hprefix. run. destruct (prnd pf 4 (ext w)) as [r x]. simpl.
      intros [= <- _]. apply dry_run_prefix.
    - injection Hprefix as <- _. reflexivity. }
  apply (bind_fulfilled pf) in H as (o & w2 & _ & H).
  apply (bind_fulfilled pf) in H as (thumb & w3 & _ & H).
  apply (bind_fulfilled pf) in H as (hash & w4 & _ & H).
  injection H as <- _.
  split; [reflexivity|]. split; [reflexivity|]. split; [reflexivity|].
  split; [cbn [hostname dnsHost]; rewrite Hp; reflexivity|].
  intros w5. apply challengeTest_http01_trace.
Qed.

End Names.

Module NamesRuns.

Lemma challengeToAuth_names_witness :
  dnsHost Script.dry_auth
  = "_greenlock-dryrun-" +:+ fst (prnd Mock.pf 4 (ext Mock.w_idle))
    +:+ "." +:+ Val.replace_first "*." "" (hostname Script.dry_auth).
Proof.
  pose (run := _challengeToAuth Mock.pf Mock.authz Mock.challenge true Mock.w_idle).
  assert (Hrun : run = (Fulfilled Script.dry_auth, snd run))
    by (vm_compute; reflexivity).
  exact (proj1 (proj2 (proj2 (proj2
           (challengeToAuth_names Mock.pf Mock.authz Mock.challenge true
              Mock.w_idle Script.dry_auth (snd run) Hrun))))).
Defined.

End NamesRuns.

(** ** The checks of [_getCertificate] *)

Section Preflight.

Context (pf : Platform).
Variable sort : (string -> string -> Z) -> list string -> list string.
Variable me : Client.

Hypothesis sort_permutes : forall cmp l, sort cmp l ≡ₚ l.

Lemma supplied_types_preferred oo t :
  preferred_type oo = Some t -> supplied_types oo <> [].
Proof.
  unfold supplied_types. intros ->.
  destruct (match challengeTypes oo with
            | Some (t0 :: rest) => t0 :: rest
            | _ => default [] (challenges_keys oo)
            end); discriminate.
Qed.

(** X18.  Whatever order the engine's [sort] gives, the checks at the top
    of [_getCertificate] leave in [options.challengeTypes] a
    rearrangement of the supplied types (the given array, else the keys
    of [options.challenges], else [options.challengeType] alone); they
    reject with the error that names [options.challengeType] when that
    type is set and is not among them; and when they let the run go on,
    the types and the domains are not empty and the preferred type, if
    one is set, is the first of the types. *)
Theorem check_options_sound (oo : OrderOptions) (domains : list string) :
  let types := fst (check_options sort oo domains) in
  let failure := snd (check_options sort oo domains) in
  types ≡ₚ supplied_types oo
  /\ (forall t, preferred_type oo = Some t -> ~ In t (supplied_types oo) ->
                failure = Some (mismatch t types))
  /\ (preferred_type oo = None -> supplied_types oo = [] -> failure = Some no_types)
  /\ (failure = None ->
      types <> [] /\ domains <> []
      /\ forall t, preferred_type oo = Some t -> head types = Some t).
Proof.
  unfold check_options.
  destruct (preferred_type oo) as [t|] eqn:Hp.
  - pose proof (sort_permutes (by_preference t) (supplied_types oo)) as Hperm.
    pose proof (supplied_types_preferred oo t Hp) as Hne.
    destruct (sort (by_preference t) (supplied_types oo)) as [|first rest] eqn:Hs.
    { symmetry in Hperm. apply Permutation_nil_r in Hperm. contradiction. }
    destruct (String.eqb_spec t first) as [<-|Hneq]; cbn [fst snd].
    + split; [exact Hperm|]. split.
      * intros t' [= <-] Hnot. exfalso. apply Hnot.
        apply list_elem_of_In. rewrite <- Hperm. left.
      * split; [discriminate|]. intros Hf.
        split; [discriminate|]. split; [destruct domains; [discriminate | discriminate]|].
        intros t' [= <-]. reflexivity.
    + split; [exact Hperm|]. split; [intros t' [= <-] _; reflexivity|].
      split; discriminate.
  - destruct (supplied_types oo) as [|first rest] eqn:Hs; cbn [fst snd].
    + split; [reflexivity|]. split; [discriminate|]. split; [reflexivity | discriminate].
    + split; [reflexivity|]. split; [discriminate|]. split; [discriminate|].
      intros Hf. split; [discriminate|]. split; [|discriminate].
      destruct domains; discriminate.
Qed.

End Preflight.

Section RegisterLoop.

Context (pf : Platform).
Variable sort : (string -> string -> Z) -> list string -> list string.
Variable me : Client.

Lemma getCertificate_step order fuel oo (w : World pf) :
  _getCertificate pf sort me order (S fuel) oo w
  = match check_options sort oo (domains (options w)) with
    | (_, Some e) => (Rejected e, w)
    | (types, None) =>
        match known_kid (with_types oo types) with
        | Throw e => (Rejected e, w)
        | Done kid =>
            if Val.truthy kid
            then bind pf (set_options pf (set_kid (options w) kid))
                   (fun _ => order (with_types oo types)) w
            else bind pf (_registerAccount pf me)
                   (fun _ => _getCertificate pf sort me order fuel (with_types oo types)) w
        end
    end.
Proof.
  cbn [_getCertificate]. unfold bind at 1. cbn [get_options].
  destruct (check_options sort oo (domains (options w))) as [types [e|]]; [reflexivity|].
  unfold bind at 1. destruct (known_kid (with_types oo types)) as [kid|e]; [|reflexivity].
  cbn [attempt ret]. destruct (Val.truthy kid); reflexivity.
Qed.

(** X19.  When neither [options.accountKid] nor [options.account.kid] is
    set, [_getCertificate] never gets to the dry run and the order: it
    is rejected by a check or by the registration, or, each time the
    registration is fulfilled, it starts again from the top and
    registers once more.  Its promise is never fulfilled, and nothing it
    does depends on the steps that follow the checks. *)
Theorem getCertificate_without_kid_never_orders
    (order order' : OrderOptions -> M pf Bundle.Certs) (oo : OrderOptions)
    (k : Json) (fuel : nat) (w : World pf) :
  known_kid oo = Done k -> Val.truthy k = false ->
  (forall certs, fst (_getCertificate pf sort me order fuel oo w) <> Fulfilled certs)
  /\ _getCertificate pf sort me order fuel oo w
     = _getCertificate pf sort me order' fuel oo w.
Proof.
  intros Hk Hfalsy. revert oo Hk w.
  induction fuel as [|fuel IH]; intros oo Hk w.
  { split; [discriminate | reflexivity]. }
  rewrite !getCertificate_step.
  destruct (check_options sort oo (domains (options w))) as [types [e|]].
  { split; [discriminate | reflexivity]. }
  assert (Hk' : known_kid (with_types oo types) = Done k) by exact Hk.
  rewrite Hk', Hfalsy. unfold bind.
  destruct (_registerAccount pf me w) as [[acct|e|] w1].
  - apply IH. exact Hk'.
  - split; [discriminate | reflexivity].
  - split; [discriminate | reflexivity].
Qed.

End RegisterLoop.

Module PreflightRuns.

Lemma insert_permutes cmp x l : Engine262.insert cmp x l ≡ₚ x :: l.
Proof.
  induction l as [|y l IH]; simpl; [reflexivity|].
  destruct (cmp x y <=? 0); [reflexivity|].
  rewrite IH. apply Permutation_swap.
Qed.

Lemma sort_permutes cmp l : Engine262.sort cmp l ≡ₚ l.
Proof.
  induction l as [|x l IH]; [reflexivity|].
  unfold Engine262.sort in *. simpl. rewrite insert_permutes, IH. reflexivity.
Qed.

Lemma check_options_sound_witness :
  head (fst (check_options Engine262.sort Caller.prefers_dns ["example.test"]))
  = Some "dns-01".
Proof.
  exact (proj2 (proj2 (proj2 (proj2 (proj2
           (check_options_sound Engine262.sort sort_permutes
              Caller.prefers_dns ["example.test"]))) eq_refl))
           "dns-01" eq_refl).
Defined.

Lemma getCertificate_without_kid_never_orders_witness :
  (forall certs,
      fst (_getCertificate Mock.pf Engine262.sort Mock.me Caller.stops 3
             Caller.prefers_dns Mock.agreed) <> Fulfilled certs)
  /\ _getCertificate Mock.pf Engine262.sort Mock.me Caller.stops 3
       Caller.prefers_dns Mock.agreed
     = _getCertificate Mock.pf Engine262.sort Mock.me Caller.fails 3
         Caller.prefers_dns Mock.agreed.
Proof.
  exact (getCertificate_without_kid_never_orders Mock.pf Engine262.sort Mock.me
           Caller.stops Caller.fails Caller.prefers_dns JUndefined 3 Mock.agreed
           eq_refl eq_refl).
Defined.

End PreflightRuns.

(** ** [me.init] *)

Section InitFacts.

Lemma and_prop_object fields k : Init.and_prop (JObj fields) k = Val.assoc k fields.
Proof. reflexivity. Qed.

(** X20.  [me.init] takes a directory object as given only when the
    object has, beside [meta], a truthy [termsOfService] of its own at
    the top level, a key the directory of a server does not have (its
    terms are [meta.termsOfService]): an object without it is stored as
    [me.directoryUrl] when none is configured and [init] throws the
    error asking for a URL or an object, or it is ignored and the
    configured URL is fetched.  When the object is taken, [me._tos] is
    its [meta.termsOfService], not the top-level value. *)
Theorem init_directory_object (me : Init.Me) (fields : list (string * Json)) :
  (Val.truthy (Val.assoc "termsOfService" fields) = false ->
   Init.init me (JObj fields)
   = if Val.truthy (Init.directoryUrl me)
     then if Init.is_string (Init.directoryUrl me) then Init.Fetches me
          else Init.Threw me Init.no_directory
     else Init.Threw {| Init.directoryUrl := JObj fields;
                        Init._directoryUrls := Init._directoryUrls me;
                        Init._tos := Init._tos me |} Init.no_directory)
  /\ (forall me1 dir,
        Init.init me (JObj fields) = Init.Resolved me1 dir ->
        Val.truthy (Val.assoc "termsOfService" fields) = true
        /\ dir = JObj fields
        /\ Init._directoryUrls me1 = JObj fields
        /\ Val.prop (Val.assoc "meta" fields) "termsOfService" = Done (Init._tos me1)).
Proof.
  unfold Init.init. rewrite !and_prop_object. split.
  - intros ->. rewrite andb_false_r.
    destruct (Val.truthy (Init.directoryUrl me)); reflexivity.
  - intros me1 dir.
    destruct (Val.truthy (JObj fields) && Val.truthy (Val.assoc "meta" fields)
              && Val.truthy (Val.assoc "termsOfService" fields)) eqn:Hc.
    + apply andb_true_iff in Hc as [_ Ht].
      unfold Init.fin. cbn [Val.prop].
      destruct (Val.prop (Val.assoc "meta" fields) "termsOfService") as [tos|e];
        [|discriminate].
      intros [= <- <-]. repeat split. exact Ht.
    + destruct (Val.truthy (Init.directoryUrl me));
        [destruct (Init.is_string _)|]; discriminate.
Qed.

End InitFacts.

Module InitRuns.

Lemma init_directory_object_witness :
  Init.init Init.created Init.directory
  = Init.Threw {| Init.directoryUrl := Init.directory;
                  Init._directoryUrls := JUndefined;
                  Init._tos := JUndefined |} Init.no_directory.
Proof.
  exact (proj1 (init_directory_object Init.created
                  [("newNonce", JStr "https://ca.test/new-nonce");
                   ("newAccount", JStr "https://ca.test/new-account");
                   ("newOrder", JStr "https://ca.test/new-order");
                   ("meta", JObj [("termsOfService", JStr "https://ca.test/tos")])])
           eq_refl).
Defined.

End InitRuns.

(** ** [ACME._prnd] *)

Section PrndFacts.
Import Js Prnd.

Context {Rand : Type} (random_text : Rand -> string * Rand).

Lemma list_pair_ind {A} (P : list A -> Prop) :
  P [] -> (forall a, P [a]) -> (forall a b r, P r -> P (a :: b :: r)) ->
  forall l, P l.
Proof.
  intros H0 H1 H2 l.
  enough (H : P l /\ forall a, P (a :: l)) by apply H.
  induction l as [|b l [IH0 IH1]]; [auto|].
  split; [apply IH1|]. intros a. apply H2, IH0.
Qed.

Lemma digit_cases c : is_digit c = true -> In c (chars "0123456789").
Proof.
  destruct c as [[] [] [] [] [] [] [] []]; intros H; try discriminate H;
    simpl; tauto.
Qed.

Lemma digit_not_eol c : is_digit c = true -> is_eol c = false.
Proof.
  intros H. apply digit_cases in H. simpl in H.
  repeat (destruct H as [<-|H]; [reflexivity|]). contradiction.
Qed.

Lemma toHex_all_pairs :
  forallb (fun a =>
             forallb (fun b =>
                        negb (Nat.eqb (length (_toHex [a; b])) 0)
                        && forallb is_hex (_toHex [a; b]))
                     (chars "0123456789"))
          (chars "0123456789") = true.
Proof. vm_compute. reflexivity. Qed.

Lemma toHex_pair a b :
  is_digit a = true -> is_digit b = true ->
  _toHex [a; b] <> [] /\ Forall (fun c => is_hex c = true) (_toHex [a; b]).
Proof.
  intros Ha Hb. apply digit_cases in Ha, Hb.
  pose proof toHex_all_pairs as H.
  rewrite forallb_forall in H. specialize (H a Ha).
  rewrite forallb_forall in H. specialize (H b Hb).
  apply andb_true_iff in H as [Hlen Hhex]. split.
  - intros Hnil. rewrite Hnil in Hlen. discriminate.
  - apply Forall_forall. intros c Hc. rewrite forallb_forall in Hhex.
    apply Hhex. apply list_elem_of_In, Hc.
Qed.

Lemma pairs_of_digits s :
  forallb is_digit s = true -> Nat.even (length s) = true ->
  (s <> [] -> pairs s <> [])
  /\ Forall (fun p => exists a b, p = [a; b] /\ is_digit a = true /\ is_digit b = true)
            (pairs s).
Proof.
  induction s as [|a|a b r IH] using list_pair_ind; intros Hd He.
  - split; [contradiction | constructor].
  - discriminate He.
  - cbn [forallb] in Hd. apply andb_true_iff in Hd as [Ha Hd].
    apply andb_true_iff in Hd as [Hb Hd].
    cbn [pairs]. rewrite (digit_not_eol a Ha), (digit_not_eol b Hb).
    split; [discriminate|]. constructor; [exists a, b; auto|].
    apply IH; [exact Hd | exact He].
Qed.

Lemma hex_of_pairs ps :
  Forall (fun p => exists a b, p = [a; b] /\ is_digit a = true /\ is_digit b = true) ps ->
  Forall (fun c => is_hex c = true) (concat (map _toHex ps))
  /\ (length ps <= length (concat (map _toHex ps)))%nat.
Proof.
  induction 1 as [|p ps (a & b & -> & Ha & Hb) _ [IHf IHl]]; [split; [constructor | reflexivity]|].
  destruct (toHex_pair a b Ha Hb) as [Hne Hhex].
  cbn [map concat]. split; [apply Forall_app; split; assumption|].
  rewrite length_app. destruct (_toHex [a; b]); [contradiction|]. simpl. lia.
Qed.

Lemma loop_hex (Hdec : forall x, decimal random_text x) fuel n :
  forall rnd x,
    Forall (fun c => is_hex c = true) rnd ->
    (2 * n - length rnd <= fuel)%nat ->
    exists l x',
      loop random_text fuel n rnd x = (Some (Done l), x')
      /\ length l = (2 * n)%nat
      /\ Forall (fun c => is_hex c = true) l.
Proof.
  induction fuel as [|fuel IH]; intros rnd x Hhex Hfuel.
  - cbn [loop]. destruct (Nat.ltb_spec (length rnd) (2 * n)) as [Hlt|Hge]; [lia|].
    eexists _, _. split; [reflexivity|]. split; [rewrite length_take; lia|].
    apply Forall_take, Hhex.
  - cbn [loop]. destruct (Nat.ltb_spec (length rnd) (2 * n)) as [Hlt|Hge].
    + destruct (Hdec x) as (ds & Htext & Hne & Hds).
      destruct (random_text x) as [text x1]. cbn [fst] in Htext. rewrite Htext.
      change (drop 2 (chr 48 :: chr 46 :: ds)) with ds.
      set (num := if Nat.odd (length ds) then chr 48 :: ds else ds).
      assert (Hnum : forallb is_digit num = true /\ Nat.even (length num) = true
                     /\ num <> []).
      { unfold num. destruct (Nat.odd (length ds)) eqn:Hodd.
        - split; [exact Hds|]. split; [|discriminate].
          cbn [length]. rewrite Nat.even_succ. exact Hodd.
        - split; [exact Hds|]. split; [|exact Hne].
          rewrite <- Nat.negb_odd, Hodd. reflexivity. }
      destruct Hnum as (Hd & He & Hn).
      destruct (pairs_of_digits num Hd He) as [Hsome Hall].
      specialize (Hsome Hn).
      destruct (hex_of_pairs (pairs num) Hall) as [Hadd Hlen].
      destruct (pairs num) as [|p ps] eqn:Hp; [contradiction|].
      apply IH.
      * apply Forall_app. split; assumption.
      * rewrite length_app. cbn [length] in Hlen. lia.
    + eexists _, _. split; [reflexivity|]. split; [rewrite length_take; lia|].
      apply Forall_take, Hhex.
Qed.

(** X21.  When every call of [Math.random().toString()] gives [0.] and
    at least one decimal digit, [ACME._prnd(n)] ends after at most [2 n]
    rounds of its loop and returns exactly [2 n] characters, each a
    lower-case hexadecimal digit. *)
Theorem prnd_hex_text (n fuel : nat) (x : Rand) :
  (forall x, decimal random_text x) ->
  (2 * n <= fuel)%nat ->
  exists s x',
    _prnd random_text fuel n x = (Some (Done s), x')
    /\ String.length s = (2 * n)%nat
    /\ forallb is_hex (chars s) = true.
Proof.
  intros Hdec Hfuel.
  destruct (loop_hex Hdec fuel n [] x) as (l & x' & Hrun & Hlen & Hhex);
    [constructor | simpl; lia |].
  exists (str l), x'. unfold _prnd. rewrite Hrun. split; [reflexivity|].
  rewrite str_length, PemFacts.chars_str. split; [exact Hlen|].
  apply forallb_forall. intros c Hc. rewrite Forall_forall in Hhex.
  apply Hhex, list_elem_of_In, Hc.
Qed.

End PrndFacts.

Module PrndRuns.

Lemma prnd_hex_text_witness :
  exists s x',
    Prnd._prnd Prnd.fixed 8 4 tt = (Some (Done s), x')
    /\ String.length s = 8%nat
    /\ forallb Prnd.is_hex (Js.chars s) = true.
Proof.
  apply (prnd_hex_text Prnd.fixed 4 8 tt); [|simpl; lia].
  intros x. exists (Js.chars "8241"). repeat split. discriminate.
Defined.

(** The text of four bytes the fixed generator gives: [82] and [41] are
    [52] and [29] in base sixteen. *)
Example prnd_fixed : fst (Prnd._prnd Prnd.fixed 8 4 tt) = Some (Done "52295229").
Proof. reflexivity. Qed.

(** A number below [1e-6] prints with an exponent, and its sign ends up
    in the text. *)
Example prnd_exponent :
  fst (Prnd._prnd (fun x : unit => ("1.2e-7", x)) 4 2 tt) = Some (Done "2-72").
Proof. reflexivity. Qed.

End PrndRuns.

(** ** The order that is never placed *)

Section NeverOrdered.

Context (pf : Platform).
Variable sort : (string -> string -> Z) -> list string -> list string.
Variable me : Client.
Variable testChallenges : M pf unit.
Variable ordered : Response -> M pf Bundle.Certs.

Lemma order_run oo (w : World pf) :
  order pf sort me testChallenges ordered oo w
  = match testChallenges w with
    | (Fulfilled _, w1) =>
        (Rejected missing_client,
         {| ext := ext w1; nonces := nonces w1;
            options := set_domains (options w1)
                         (sort (by_subject (subject oo)) (domains (options w1)));
            removeChallengeWarn := removeChallengeWarn w1; trace := trace w1 |})
    | (Rejected e, w1) => (Rejected e, w1)
    | (Unsettled, w1) => (Unsettled, w1)
    end.
Proof.
  unfold order. unfold bind at 1.
  destruct (testChallenges w) as [[[]|e|] w1]; reflexivity.
Qed.

(** X22.  [ACME._getCertificate] is never fulfilled, whatever the
    options, the server and the callbacks are: without an account key
    id it goes round the registration; with one, once the dry run has
    passed it sorts [options.domains] and calls
    [ACME._jwsRequest({ ... })] without the client, which throws the
    [TypeError] of [me._nonces.shift()] on [undefined] before anything
    is signed or sent, so that the newOrder request never leaves and the
    steps that would follow its answer are not reached. *)
Theorem getCertificate_never_fulfilled (oo : OrderOptions) (fuel : nat) (w : World pf) :
  (forall certs,
      fst (_getCertificate pf sort me (order pf sort me testChallenges ordered) fuel oo w)
      <> Fulfilled certs)
  /\ (forall w1,
        testChallenges w = (Fulfilled tt, w1) ->
        fst (order pf sort me testChallenges ordered oo w) = Rejected missing_client
        /\ trace (snd (order pf sort me testChallenges ordered oo w)) = trace w1
        /\ ext (snd (order pf sort me testChallenges ordered oo w)) = ext w1).
Proof.
  split.
  - revert oo w. induction fuel as [|fuel IH]; intros oo w certs; [discriminate|].
    rewrite getCertificate_step.
    destruct (check_options sort oo (domains (options w))) as [types [e|]];
      [discriminate|].
    destruct (known_kid (with_types oo types)) as [kid|e]; [|discriminate].
    destruct (Val.truthy kid).
    + unfold bind. cbn [set_options]. rewrite order_run.
      destruct (testChallenges _) as [[[]|e|] w1]; discriminate.
    + unfold bind. destruct (_registerAccount pf me w) as [[acct|e|] w1];
        [apply IH | discriminate..].
  - intros w1 Hdry. rewrite order_run, Hdry. repeat split.
Qed.

End NeverOrdered.

Module NeverOrderedRuns.

Lemma getCertificate_never_fulfilled_witness :
  fst (order Mock.pf Engine262.sort Mock.me (ret Mock.pf tt) (fun _ => never Mock.pf)
         Caller.prefers_dns Mock.w_idle)
  = Rejected missing_client.
Proof.
  exact (proj1 (proj2 (getCertificate_never_fulfilled Mock.pf Engine262.sort Mock.me
                         (ret Mock.pf tt) (fun _ => never Mock.pf)
                         Caller.prefers_dns 0 Mock.w_idle)
                  Mock.w_idle eq_refl)).
Defined.

End NeverOrderedRuns.

(** ** One nonce after the other *)

Section NonceChain.

Context (pf : Platform).

Lemma request_pushes c opts (w : World pf) resp w' n :
  _request pf (MeClient c) opts w = (Fulfilled resp, w') ->
  headers resp !! "replay-nonce" = Some n -> n <> "" ->
  nonces w' = {| nonce := n; createdAt := Date_now pf (ext w') |} :: nonces w.
Proof.
  unfold _request. run. rewrite transport_run. simpl.
  destruct (request pf _ (ext w)) as [[resp0|reason] x]; simpl; [|discriminate].
  unfold header.
  destruct (headers resp0 !! "replay-nonce") as [n0|] eqn:Hn; simpl.
  - destruct (String.eqb n0 "") eqn:He; simpl; intros [= <- <-] Hn' Hne.
    + rewrite Hn in Hn'. injection Hn' as <-. apply String.eqb_eq in He. contradiction.
    + rewrite Hn in Hn'. injection Hn' as <-. reflexivity.
  - intros [= <- <-] Hn'. congruence.
Qed.

Lemma jwsRequest_pushes c b (w : World pf) resp w' n :
  _jwsRequest pf (MeClient c) (Some b) w = (Fulfilled resp, w') ->
  headers resp !! "replay-nonce" = Some n -> n <> "" ->
  exists rest,
    nonces w' = {| nonce := n; createdAt := Date_now pf (ext w') |} :: rest.
Proof.
  unfold _jwsRequest. intros H Hn Hne.
  apply (bind_fulfilled pf) in H as (nv & w1 & _ & H).
  apply (bind_fulfilled pf) in H as (o & w2 & _ & H).
  apply (bind_fulfilled pf) in H as (jws & w3 & _ & H).
  eexists. eapply request_pushes; eassumption.
Qed.

(** X23.  A signed request that is fulfilled with a non-empty
    [replay-nonce] header pays for the next one: a signed request made
    by the same client within fifteen minutes of it, with the cache as
    the first left it, sends no HEAD to [newNonce]; the first thing it
    does is to have the signer sign with the cache entry of that header
    value. *)
Theorem jwsRequest_chains_nonce c b1 b2 (w : World pf) resp w1 n (w2 : World pf) :
  _jwsRequest pf (MeClient c) (Some b1) w = (Fulfilled resp, w1) ->
  headers resp !! "replay-nonce" = Some n -> n <> "" ->
  nonces w2 = nonces w1 ->
  Date_now pf (ext w2) - Date_now pf (ext w1) <= NONCE_LIFETIME ->
  exists later,
    trace (snd (_jwsRequest pf (MeClient c) (Some b2) w2))
    = trace w2
        ++ EvSign (to_sign (options w2) b2
                     (NonceRecord {| nonce := n; createdAt := Date_now pf (ext w1) |}))
        :: later.
Proof.
  intros Hrun Hn Hne Hcache Hage.
  destruct (jwsRequest_pushes c b1 w resp w1 n Hrun Hn Hne) as [rest Hpush].
  unfold _jwsRequest, _getNonce. run. rewrite Hcache, Hpush.
  pose proof (shift_fresh_skips (Date_now pf (ext w2)) []
                {| nonce := n; createdAt := Date_now pf (ext w1) |} rest
                (Forall_nil_2 _) Hage) as Hs.
  change ([] ++ ?x :: rest) with (x :: rest) in Hs. rewrite Hs.
  simpl. rewrite sign_run. simpl. unfold to_sign.
  destruct (signJws pf _ _) as [[jws|reason] x]; simpl.
  - unfold _request. run. rewrite transport_run. simpl.
    destruct (request pf _ x) as [[resp2|reason2] x2]; simpl.
    + unfold header. destruct (headers resp2 !! "replay-nonce") as [n2|]; simpl;
        [destruct (String.eqb n2 ""); simpl|];
        rewrite <- app_assoc; eexists; reflexivity.
    + rewrite <- app_assoc. eexists. reflexivity.
  - exists []. reflexivity.
Qed.

End NonceChain.

(** ** An order that stays in processing *)

Section Stubborn.

Context (pf : Platform).
Variable jwsRequest : BigOpts -> M pf Response.
Variable validatedDomains : list string.

Hypothesis always_processing :
  forall b w, exists resp w',
    jwsRequest b w = (Fulfilled resp, w')
    /\ Val.prop (body resp) "status" = Done (JStr "processing").



End Stubborn.

(** ** The key of a new account *)

Section AccountKey.

Context (pf : Platform).

Lemma assoc_unset k kv : Val.assoc k (Val.unset k kv) = JUndefined.
Proof.
  induction kv as [|[k' v] kv IH]; simpl; [reflexivity|].
  destruct (String.eqb k k') eqn:He; [exact IH|]. simpl. rewrite He. exact IH.
Qed.

Lemma del_prop_gone j k j' :
  Val.del_prop j k = Done j' -> Val.prop j' k = Done JUndefined.
Proof.
  destruct j; simpl; intros H; try discriminate; injection H as <-; try reflexivity;
    simpl; rewrite assoc_unset; reflexivity.
Qed.

Lemma account_pair_no_kid r (w : World pf) priv pub w' :
  account_pair pf r w = (Fulfilled (priv, pub), w') ->
  exists k, Val.prop pub "kid" = Done k /\ Val.truthy k = false.
Proof.
  unfold account_pair. intros H.
  apply (bind_fulfilled pf) in H as (pair & w2 & _ & H).
  apply (bind_fulfilled pf) in H as (o1 & w3 & _ & H).
  apply (bind_fulfilled pf) in H as (u & w4 & _ & H).
  apply (bind_fulfilled pf) in H as (kid & w5 & Hkid & H).
  apply attempt_fulfilled in Hkid as [Hkid ->].
  destruct (Val.truthy kid) eqn:Ht.
  - apply (bind_fulfilled pf) in H as (pub' & w6 & Hpub & H).
    apply attempt_fulfilled in Hpub as [Hpub ->].
    apply (bind_fulfilled pf) in H as (priv' & w7 & _ & H).
    injection H as _ <- _. exists JUndefined. split; [|reflexivity].
    eapply del_prop_gone. exact Hpub.
  - injection H as Hp _. subst pair. exists kid. split; assumption.
Qed.

(** X25.  The key [_registerAccount] puts in the protected header of
    the newAccount request never carries a truthy [kid]: a [kid] that
    [Keypairs] left in the public key is deleted from the copy that is
    sent, and the header's own [kid] is [false]. *)
Theorem newAccount_key_has_no_kid c v (w : World pf) pair doc w' :
  prepare_account pf c v w = (Fulfilled (pair, doc), w') ->
  p_kid (b_protected (newAccount_opts c (snd pair) doc)) = JBool false
  /\ p_jwk (b_protected (newAccount_opts c (snd pair) doc)) = snd pair
  /\ exists k, Val.prop (snd pair) "kid" = Done k /\ Val.truthy k = false.
Proof.
  unfold prepare_account. intros H.
  split; [reflexivity|]. split; [reflexivity|].
  apply (bind_fulfilled pf) in H as (r & w0 & _ & H).
  unfold unhandled in H.
  destruct (bind pf (account_pair pf r) _ w0) as [[[p d]|e|] w1] eqn:Hb; try discriminate.
  injection H as <- <- <-.
  apply (bind_fulfilled pf) in Hb as ([priv pub] & w2 & Hpair & Hb).
  apply (bind_fulfilled pf) in Hb as (d' & w3 & _ & Hb).
  injection Hb as <- _ _. simpl. eapply account_pair_no_kid. exact Hpair.
Qed.

End AccountKey.

Module ChainRuns.

Lemma jwsRequest_chains_nonce_witness :
  let w1 := snd (_jwsRequest Mock.pf (MeClient Mock.me) (Some Mock.post) Mock.w_miss) in
  exists later,
    trace (snd (_jwsRequest Mock.pf (MeClient Mock.me) (Some Mock.post) w1))
    = trace w1
        ++ EvSign (to_sign (options w1) Mock.post
                     (NonceRecord {| nonce := "n1";
                                     createdAt := Date_now Mock.pf (ext w1) |}))
        :: later.
Proof.
  intros w1.
  assert (Hrun : _jwsRequest Mock.pf (MeClient Mock.me) (Some Mock.post) Mock.w_miss
                 = (Fulfilled Mock.fresh, w1)) by (vm_compute; reflexivity).
  apply (jwsRequest_chains_nonce Mock.pf Mock.me Mock.post Mock.post Mock.w_miss
           Mock.fresh w1 "n1" w1 Hrun).
  - reflexivity.
  - discriminate.
  - reflexivity.
  - rewrite Z.sub_diag. unfold NONCE_LIFETIME. lia.
Defined.


Lemma newAccount_key_has_no_kid_witness :
  exists k, Val.prop Mock.scrubbed "kid" = Done k /\ Val.truthy k = false.
Proof.
  exact (proj2 (proj2 (newAccount_key_has_no_kid Mock.pf Mock.me Mock.tos Mock.agreed
                         (Mock.scrubbed, Mock.scrubbed) Mock.account_doc
                         (snd (prepare_account Mock.pf Mock.me Mock.tos Mock.agreed))
                         eq_refl))).
Defined.

End ChainRuns.

(** ** The [http-01] self test *)

Section SelfTest.

Context (pf : Platform).







End SelfTest.

Module SelfTestRuns.


(** A numeric body makes the self test fail with the [RangeError] of
    [Number.prototype.toString]. *)
Example http01_test_number :
  fst (challengeTest_http01 Mock.pf Mock.auth Probe.served_number)
  = Rejected (RangeError "toString() radix must be between 2 and 36").
Proof. reflexivity. Qed.

End SelfTestRuns.

(** ** A chain put together again *)

Section Rejoin.
Import Js Pem PemShape PemJoin PemFacts PemShapeFacts.

#[local] Arguments is_eol : simpl never.
#[local] Arguments is_space : simpl never.
#[local] Arguments ceq : simpl never.

Lemma str_app (a b : list ascii) : str (a ++ b) = str a +:+ str b.
Proof.
  induction a as [|ch a IH]; [reflexivity|].
  change (str ((ch :: a) ++ b)) with (String ch (str (a ++ b))).
  rewrite IH. reflexivity.
Qed.

Lemma join_str (sep : list ascii) (parts : list (list ascii)) :
  join (str sep) (map str parts) = str (join_chars sep parts).
Proof.
  induction parts as [|p rest IH]; [reflexivity|].
  destruct rest as [|q rest]; [reflexivity|].
  change (join (str sep) (map str (p :: q :: rest)))
    with (str p +:+ str sep +:+ join (str sep) (map str (q :: rest))).
  rewrite IH. change (join_chars sep (p :: q :: rest))
    with (p ++ sep ++ join_chars sep (q :: rest)).
  rewrite !str_app. reflexivity.
Qed.

Lemma no_triple_tail a s : no_triple (a :: s) = true -> no_triple s = true.
Proof. simpl. intros H. apply andb_true_iff in H as [_ H]. exact H. Qed.

Lemma no_cr_tail a s : no_cr (a :: s) = true -> ceq a CR = false /\ no_cr s = true.
Proof.
  unfold no_cr. simpl. intros H. apply andb_true_iff in H as [Ha H].
  apply negb_true_iff in Ha. auto.
Qed.

Lemma dash_gap_no_triple s : single_lf s = true -> no_triple (dash_gap s) = true.
Proof.
  apply (dash_gap_ind (fun s o => single_lf s = true -> no_triple o = true)).
  - reflexivity.
  - intros r IH Hs.
    assert (Hr : single_lf r = true) by (do 3 apply single_lf_tail in Hs; exact Hs).
    specialize (IH Hr).
    cbn [no_triple]. rewrite IH.
    replace (is_eol DASH) with false by reflexivity.
    replace (is_eol LF) with true by reflexivity.
    destruct (dash_gap r) as [|x [|y o]]; reflexivity.
  - intros a r IH Hs. pose proof (single_lf_tail _ _ Hs) as Hr. specialize (IH Hr).
    cbn [no_triple]. rewrite IH, andb_true_r.
    destruct (is_eol a) eqn:Ha; [|destruct (dash_gap r) as [|x [|y o]]; reflexivity].
    destruct (single_lf_after_eol _ _ Hs Ha) as [_ Hstart].
    destruct r as [|d r]; [reflexivity|].
    destruct (dash_gap_head d r) as [o ->]. simpl in Hstart. rewrite Hstart.
    destruct o; reflexivity.
Qed.

Lemma join_cons p rest :
  rest <> [] -> join_chars [LF] (p :: rest) = p ++ LF :: join_chars [LF] rest.
Proof. destruct rest; [contradiction | reflexivity]. Qed.

Lemma split_rejoin n :
  forall t cur,
    length t = n ->
    no_cr t = true -> no_triple t = true ->
    ends_eol (cur ++ t) = false ->
    (ends_eol cur = true -> starts_clean t) ->
    join_chars [LF] (map (fun p => p ++ [LF]) (split_gaps false cur t))
    = cur ++ t ++ [LF].
Proof.
  induction n as [n IH] using lt_wf_ind.
  intros t cur Hn Hcr Htriple Hend Hstart.
  destruct t as [|c r]; [reflexivity|].
  cbn [split_gaps]. destruct (is_eol c) eqn:Hc.
  - assert (Hcur : ends_eol cur = false).
    { destruct (ends_eol cur) eqn:He; [|reflexivity].
      specialize (Hstart eq_refl). simpl in Hstart. congruence. }
    destruct (no_cr_tail _ _ Hcr) as [Hccr Hcr'].
    pose proof (eol_cases c Hc Hccr) as ->.
    destruct r as [|d r'].
    { rewrite ends_eol_snoc in Hend. congruence. }
    destruct (is_eol d) eqn:Hd.
    + destruct (no_cr_tail _ _ Hcr') as [Hdcr Hcr''].
      pose proof (eol_cases d Hd Hdcr) as ->.
      destruct r' as [|x r''].
      { change (cur ++ [LF; LF]) with (cur ++ [LF] ++ [LF]) in Hend.
        rewrite app_assoc, ends_eol_snoc in Hend. discriminate. }
      assert (Hx : is_eol x = false).
      { cbn [no_triple] in Htriple. apply andb_true_iff in Htriple as [Ht _].
        apply negb_true_iff in Ht. replace (is_eol LF) with true in Ht by reflexivity.
        exact Ht. }
      cbn [map]. rewrite join_cons
        by (intros H; apply map_eq_nil in H; exact (split_gaps_nonempty _ _ _ H)).
      change (split_gaps true [] (LF :: x :: r'')) with (split_gaps true [] (x :: r'')).
      cbn [split_gaps]. rewrite Hx. change ([] ++ [x]) with [x].
      rewrite (IH (length r'')); [| simpl in Hn; lia | reflexivity | | | |].
      * rewrite <- !app_assoc. reflexivity.
      * destruct (no_cr_tail _ _ Hcr'') as [_ H]. exact H.
      * do 3 apply no_triple_tail in Htriple. exact Htriple.
      * rewrite <- Hend.
        change (cur ++ LF :: LF :: x :: r'') with (cur ++ [LF; LF] ++ [x] ++ r'').
        destruct r'' as [|y r3].
        -- rewrite !app_nil_r. rewrite !app_assoc, !ends_eol_snoc. reflexivity.
        -- rewrite (app_assoc cur), (app_assoc (cur ++ [LF; LF])).
           rewrite !ends_eol_app by discriminate. reflexivity.
      * unfold ends_eol. simpl. rewrite Hx. discriminate.
    + rewrite (IH (length (d :: r'))); [| simpl in Hn |- *; lia | reflexivity | | | |].
      * rewrite <- !app_assoc. reflexivity.
      * exact Hcr'.
      * apply no_triple_tail in Htriple. exact Htriple.
      * rewrite <- app_assoc. exact Hend.
      * intros _. exact Hd.
  - rewrite (IH (length r)); [| simpl in Hn; lia | reflexivity | | | |].
    + rewrite <- !app_assoc. reflexivity.
    + destruct (no_cr_tail _ _ Hcr) as [_ H]. exact H.
    + apply no_triple_tail in Htriple. exact Htriple.
    + rewrite <- app_assoc. exact Hend.
    + rewrite ends_eol_snoc. congruence.
Qed.

Lemma join_starts (sep : string) (ch : ascii) (p : string) (rest : list string) :
  exists tl, join sep (String ch p :: rest) = String ch tl.
Proof.
  destruct rest as [|q rest]; [exists p; reflexivity|].
  exists (p +:+ sep +:+ join sep (q :: rest)). reflexivity.
Qed.

Lemma rejoin (s : string) :
  join Val.nl (splitPemChain (formatPemChain s)) = formatPemChain s.
Proof.
  unfold splitPemChain, formatPemChain at 1, splitPemChain_chars.
  rewrite chars_str.
  destruct (format_shape (chars s)) as (g & Hg & Htidy & Hcr & Hc).
  unfold formatPemChain. rewrite Hg.
  rewrite (trim_of_tidy g [LF] Htidy eq_refl).
  change Val.nl with (str [LF]). rewrite join_str. f_equal.
  assert (Hg' : g = dash_gap (collapse_eol false (trim (chars s)))).
  { unfold formatPemChain_chars in Hg. apply app_inv_tail in Hg. symmetry. exact Hg. }
  rewrite (split_rejoin (length g) g []); try reflexivity; try exact Hcr.
  - rewrite Hg'. apply dash_gap_no_triple.
    apply (proj1 (collapse_single (trim (chars s)) false)).
  - destruct Htidy as [_ Hlast]. unfold ends_eol. simpl.
    destruct (last g); [apply not_space_not_eol, Hlast | reflexivity].
  - discriminate.
Qed.

End Rejoin.

Section RejoinBundle.
Import Js.

(** X27.  For every text, the pieces [splitPemChain] makes of the text
    [formatPemChain] returns, joined by a line feed, are that text
    again.  So in the certificate bundle made of a text, [cert] alone is
    the whole formatted chain when [chain] is empty, which it is when
    the text holds one certificate, and [cert + '\n' + chain] is the
    whole formatted chain when it is not. *)
Theorem splitPemChain_rejoins (s : string) :
  join Val.nl (Pem.splitPemChain (Pem.formatPemChain s)) = Pem.formatPemChain s
  /\ forall (order : Json) (resp : Response) (c : Bundle.Certs),
       Bundle.pem_text (body resp) = Done s ->
       Bundle.certs order resp = Done c ->
       exists first,
         Bundle.cert c = Some first
         /\ Pem.formatPemChain s
            = if String.eqb (Bundle.chain c) ""
              then first
              else first +:+ Val.nl +:+ Bundle.chain c.
Proof.
  pose proof (rejoin s) as Hjoin.
  split; [exact Hjoin|].
  intros order resp c Htext. unfold Bundle.certs. rewrite Htext.
  destruct (Val.prop order "expires") as [exp|e]; [|discriminate].
  destruct (Val.prop order "identifiers") as [ids|e]; [|discriminate].
  revert Hjoin. generalize (Pem.formatPemChain s). intros f. unfold Pem.splitPemChain.
  destruct (split_shape (chars f)) as [Hne Hall].
  destruct (Pem.splitPemChain_chars (chars f)) as [|t ts]; [contradiction|].
  cbn [map Bundle.shift]. intros Hjoin [= <-]. cbn [Bundle.cert Bundle.chain].
  exists (str t). split; [reflexivity|].
  destruct ts as [|q ts].
  - symmetry. exact Hjoin.
  - apply Forall_cons in Hall as [_ Hall]. apply Forall_cons in Hall as [[_ Hq] _].
    destruct q as [|ch q]; [discriminate|].
    rewrite <- Hjoin. cbn [map].
    change (str (ch :: q)) with (String ch (str q)).
    change (join Val.nl (str t :: String ch (str q) :: map str ts))
      with (str t +:+ Val.nl +:+ join Val.nl (String ch (str q) :: map str ts)).
    destruct (join_starts Val.nl ch (str q) (map str ts)) as [tl Htl].
    rewrite Htl. reflexivity.
Qed.

End RejoinBundle.

Module RejoinRuns.

(** A text of one certificate: [chain] is empty and [cert] is the
    formatted text. *)
Example bundle_of_one_certificate :
  Bundle.certs Bundle.order_doc (Bundle.pem_response [Pem.leaf])
  = Done {| Bundle.expires := JStr "2026-02-01T00:00:00Z";
            Bundle.identifiers :=
              JArr [JObj [("type", JStr "dns"); ("value", JStr "example.com")]];
            Bundle.cert := Some (Pem.formatPemChain (Js.str (Pem.chain_text [Pem.leaf])));
            Bundle.chain := EmptyString |}.
Proof. vm_compute. reflexivity. Qed.

Lemma splitPemChain_rejoins_witness :
  let text := Js.str (Pem.chain_text [Pem.leaf; Pem.issuer]) in
  exists first,
    Some (Js.str (Pem.normalized Pem.leaf)) = Some first
    /\ Pem.formatPemChain text
       = if String.eqb (Js.str (Pem.normalized Pem.issuer)) EmptyString
         then first
         else first +:+ Val.nl +:+ Js.str (Pem.normalized Pem.issuer).
Proof.
  intros text.
  assert (Hrun : Bundle.certs Bundle.order_doc (Bundle.pem_response [Pem.leaf; Pem.issuer])
                 = Done {| Bundle.expires := JStr "2026-02-01T00:00:00Z";
                           Bundle.identifiers :=
                             JArr [JObj [("type", JStr "dns");
                                         ("value", JStr "example.com")]];
                           Bundle.cert := Some (Js.str (Pem.normalized Pem.leaf));
                           Bundle.chain := Js.str (Pem.normalized Pem.issuer) |})
    by (vm_compute; reflexivity).
  exact (proj2 (splitPemChain_rejoins text) Bundle.order_doc
           (Bundle.pem_response [Pem.leaf; Pem.issuer]) _ eq_refl Hrun).
Defined.

End RejoinRuns.
